(** * go-trader: matching engine and persistence layer

    A shallow embedding of the Go packages [matching] (order, level,
    AVL price-level index, order book, market manager) and [persistence]
    (wire codec, journal reader, snapshot format, recovery, manager), with
    the properties of the specification stated and proved over it.

    Conventions of the embedding.
    - Go's fixed-width unsigned integers are [Z] values; every arithmetic
      update that can wrap in Go is written with [u64].
    - A Go pointer to an order node is the order's ID (the registry
      [orders] owns every node, one per ID); the intrusive list of a
      level is the list of the IDs it links, head first.
    - A Go pointer to a level node is a [LevelRef]: the index it lives in
      and its price (a price occurs at most once per index).
    - The handler is the most general observer: the list of the callbacks
      issued so far, oldest first.
    - A nil dereference (a Go panic) is [None]. *)

From Stdlib Require Import ZArith List Lia Bool.
From Stdlib Require Import Strings.Byte.
From stdpp Require Import base option list gmap.
Import ListNotations.
Local Open Scope Z_scope.

(* ================================================================== *)
(** ** Machine integers and bytes *)

Definition u64 (z : Z) : Z := z mod 2 ^ 64.
Definition u32 (z : Z) : Z := z mod 2 ^ 32.

(** Go's [int64(x)] on a [uint64] value: two's complement reading. *)
Definition int64_of_u64 (z : Z) : Z := if z <? 2 ^ 63 then z else z - 2 ^ 64.

Definition is_u8 (z : Z) : Prop := 0 <= z < 2 ^ 8.
Definition is_u32 (z : Z) : Prop := 0 <= z < 2 ^ 32.
Definition is_u64 (z : Z) : Prop := 0 <= z < 2 ^ 64.
Definition is_i64 (z : Z) : Prop := - 2 ^ 63 <= z < 2 ^ 63.

Global Instance byte_eq_dec : EqDecision byte := Byte.byte_eq_dec.

Definition byte_to_Z (b : byte) : Z := Z.of_N (Byte.to_N b).

(** Go's [uint8(x)]: the low eight bits. *)
Definition byte_of_Z (z : Z) : byte :=
  match Byte.of_N (Z.to_N (z mod 256)) with
  | Some b => b
  | None => x00
  end.

(** [encoding/binary.BigEndian]: the [n] low bytes of [v], most
    significant first, and the value of a byte string read big-endian. *)
Fixpoint be_bytes (n : nat) (v : Z) : list byte :=
  match n with
  | O => []
  | S n' => byte_of_Z (Z.shiftr v (8 * Z.of_nat n')) :: be_bytes n' v
  end.

Definition be_value (bs : list byte) : Z :=
  fold_left (fun acc b => acc * 256 + byte_to_Z b) bs 0.

Definition PutUint64 (v : Z) : list byte := be_bytes 8 v.
Definition PutUint32 (v : Z) : list byte := be_bytes 4 v.
Definition Uint64 (b : list byte) : Z := be_value (firstn 8 b).
Definition Uint32 (b : list byte) : Z := be_value (firstn 4 b).

(** Go's slice expression [b[lo:hi]]. *)
Definition slice (lo hi : nat) (b : list byte) : list byte :=
  firstn (hi - lo) (skipn lo b).

(* ================================================================== *)
(** ** Package matching: orders *)

Definition OrderSideBuy : Z := 0.
Definition OrderSideSell : Z := 1.

Definition OrderTypeMarket : Z := 0.
Definition OrderTypeLimit : Z := 1.
Definition OrderTypeStop : Z := 2.
Definition OrderTypeStopLimit : Z := 3.
Definition OrderTypeTrailingStop : Z := 4.
Definition OrderTypeTrailingStopLimit : Z := 5.

Definition OrderTimeInForceGTC : Z := 0.

Definition MaxVisibleQuantity : Z := 2 ^ 64 - 1.
Definition MaxSlippage : Z := 2 ^ 64 - 1.

(** [Type] and [Side] are [uint8] in Go, so any byte is a value of them. *)
Record Order := mkOrder {
  ID : Z;
  SymbolID : Z;
  Type_ : Z;
  Side : Z;
  Price : Z;
  StopPrice : Z;
  Quantity : Z;
  ExecutedQuantity : Z;
  LeavesQuantity : Z;
  TimeInForce : Z;
  MaxVisible : Z;
  Slippage : Z;
  TrailingDistance : Z;
  TrailingStep : Z
}.

(** An [Order] as Go's types allow it: every field in its type's range. *)
Record wf_Order (o : Order) : Prop := {
  wf_ID : is_u64 (ID o);
  wf_SymbolID : is_u32 (SymbolID o);
  wf_Type : is_u8 (Type_ o);
  wf_Side : is_u8 (Side o);
  wf_Price : is_u64 (Price o);
  wf_StopPrice : is_u64 (StopPrice o);
  wf_Quantity : is_u64 (Quantity o);
  wf_ExecutedQuantity : is_u64 (ExecutedQuantity o);
  wf_LeavesQuantity : is_u64 (LeavesQuantity o);
  wf_TimeInForce : is_u8 (TimeInForce o);
  wf_MaxVisible : is_u64 (MaxVisible o);
  wf_Slippage : is_u64 (Slippage o);
  wf_TrailingDistance : is_i64 (TrailingDistance o);
  wf_TrailingStep : is_i64 (TrailingStep o)
}.

Definition NewOrder (id symbolID orderType side price stopPrice quantity : Z) : Order :=
  {| ID := id; SymbolID := symbolID; Type_ := orderType; Side := side;
     Price := price; StopPrice := stopPrice; Quantity := quantity;
     ExecutedQuantity := 0; LeavesQuantity := quantity;
     TimeInForce := OrderTimeInForceGTC;
     MaxVisible := MaxVisibleQuantity; Slippage := MaxSlippage;
     TrailingDistance := 0; TrailingStep := 0 |}.

Definition NewLimitOrder (id symbolID side price quantity : Z) : Order :=
  NewOrder id symbolID OrderTypeLimit side price 0 quantity.

Definition IsStop (o : Order) : bool := Type_ o =? OrderTypeStop.
Definition IsStopLimit (o : Order) : bool := Type_ o =? OrderTypeStopLimit.
Definition IsTrailingStop (o : Order) : bool := Type_ o =? OrderTypeTrailingStop.
Definition IsTrailingStopLimit (o : Order) : bool := Type_ o =? OrderTypeTrailingStopLimit.
Definition IsBuy (o : Order) : bool := Side o =? OrderSideBuy.

Definition HiddenQuantity (o : Order) : Z :=
  if LeavesQuantity o >? MaxVisible o then LeavesQuantity o - MaxVisible o else 0.

Definition VisibleQuantity (o : Order) : Z :=
  if LeavesQuantity o <? MaxVisible o then LeavesQuantity o else MaxVisible o.

(* ================================================================== *)
(** ** Package persistence: the order wire layout *)

Definition orderWireSize : nat := 87.

Definition marshalOrder (o : Order) : list byte :=
  PutUint64 (ID o) ++
  PutUint32 (SymbolID o) ++
  [byte_of_Z (Type_ o)] ++
  [byte_of_Z (Side o)] ++
  PutUint64 (Price o) ++
  PutUint64 (StopPrice o) ++
  PutUint64 (Quantity o) ++
  PutUint64 (ExecutedQuantity o) ++
  PutUint64 (LeavesQuantity o) ++
  [byte_of_Z (TimeInForce o)] ++
  PutUint64 (MaxVisible o) ++
  PutUint64 (Slippage o) ++
  PutUint64 (u64 (TrailingDistance o)) ++
  PutUint64 (u64 (TrailingStep o)).

(** [buf] must hold at least [orderWireSize] bytes; a shorter one makes
    the Go slice expressions panic. *)
Definition unmarshalOrder (buf : list byte) : option Order :=
  if (length buf <? orderWireSize)%nat then None else
  Some {| ID := Uint64 (slice 0 8 buf);
          SymbolID := Uint32 (slice 8 12 buf);
          Type_ := byte_to_Z (nth 12 buf x00);
          Side := byte_to_Z (nth 13 buf x00);
          Price := Uint64 (slice 14 22 buf);
          StopPrice := Uint64 (slice 22 30 buf);
          Quantity := Uint64 (slice 30 38 buf);
          ExecutedQuantity := Uint64 (slice 38 46 buf);
          LeavesQuantity := Uint64 (slice 46 54 buf);
          TimeInForce := byte_to_Z (nth 54 buf x00);
          MaxVisible := Uint64 (slice 55 63 buf);
          Slippage := Uint64 (slice 63 71 buf);
          TrailingDistance := int64_of_u64 (Uint64 (slice 71 79 buf));
          TrailingStep := int64_of_u64 (Uint64 (slice 79 87 buf)) |}.

(* ================================================================== *)
(** ** Package matching: symbols, error codes, update types *)

Record Symbol := mkSymbol {
  Symbol_ID : Z;
  Symbol_Name : list byte
}.

Inductive ErrorCode :=
| ErrorOK
| ErrorSymbolDuplicate
| ErrorSymbolNotFound
| ErrorOrderBookDuplicate
| ErrorOrderBookNotFound
| ErrorOrderDuplicate
| ErrorOrderNotFound
| ErrorOrderIDInvalid
| ErrorOrderTypeInvalid
| ErrorOrderParameterInvalid
| ErrorOrderQuantityInvalid.

Global Instance ErrorCode_eq_dec : EqDecision ErrorCode.
Proof. solve_decision. Defined.

Inductive UpdateType := UpdateNone | UpdateAdd | UpdateUpdate | UpdateDelete.

(* ================================================================== *)
(** ** Package matching: price levels *)

Definition LevelTypeBid : Z := 0.
Definition LevelTypeAsk : Z := 1.

Record Level := mkLevel {
  Level_Type : Z;
  Level_Price : Z;
  TotalVolume : Z;
  HiddenVolume : Z;
  VisibleVolume : Z;
  Level_Orders : Z
}.

Definition NewLevel (levelType price : Z) : Level :=
  {| Level_Type := levelType; Level_Price := price; TotalVolume := 0;
     HiddenVolume := 0; VisibleVolume := 0; Level_Orders := 0 |}.

(** The intrusive doubly-linked list: the IDs of the linked order nodes
    from [Head] to [Tail], and the [Size] counter kept beside them. *)
Record OrderList := mkOrderList {
  nodes : list Z;
  Size : Z
}.

Definition emptyOrderList : OrderList := {| nodes := []; Size := 0 |}.

Fixpoint unlink (id : Z) (l : list Z) : list Z :=
  match l with
  | [] => []
  | x :: l' => if x =? id then l' else x :: unlink id l'
  end.

Definition PushBack (ol : OrderList) (id : Z) : OrderList :=
  {| nodes := nodes ol ++ [id]; Size := u64 (Size ol + 1) |}.

Definition OrderList_Remove (ol : OrderList) (id : Z) : OrderList :=
  {| nodes := unlink id (nodes ol); Size := u64 (Size ol - 1) |}.

Definition Front (ol : OrderList) : option Z := head (nodes ol).

Definition Empty (ol : OrderList) : bool := Size ol =? 0.

(** A level node and the subtree below it. [Parent] is not stored: the
    way back to the root is kept as a path of [Frame]s while an operation
    walks the tree. *)
Inductive LevelNode :=
| Nil
| Node (Left : LevelNode) (level : Level) (orderList : OrderList)
       (Balance : Z) (Right : LevelNode).

Definition NewLevelNode (levelType price : Z) : LevelNode :=
  Node Nil (NewLevel levelType price) emptyOrderList 0 Nil.

(** One step of the way up: the parent's own fields and its other child.
    [WentLeft]: the node below is the parent's [Left]. *)
Inductive Frame :=
| WentLeft (level : Level) (orderList : OrderList) (Balance : Z) (Right : LevelNode)
| WentRight (Left : LevelNode) (level : Level) (orderList : OrderList) (Balance : Z).

Definition plug1 (f : Frame) (child : LevelNode) : LevelNode :=
  match f with
  | WentLeft lv ol b r => Node child lv ol b r
  | WentRight l lv ol b => Node l lv ol b child
  end.

(** Rebuild the tree from a subtree and the path above it, nearest
    parent first. *)
Definition plug (path : list Frame) (t : LevelNode) : LevelNode :=
  fold_left (fun t f => plug1 f t) path t.

(* ================================================================== *)
(** ** Package matching: the AVL tree of price levels *)

Record AVLTree := mkAVLTree {
  root : LevelNode;
  tree_size : Z;
  descending : bool
}.

Definition NewAVLTree (desc : bool) : AVLTree :=
  {| root := Nil; tree_size := 0; descending := desc |}.

Definition compare (desc : bool) (a b : Z) : Z :=
  if desc then
    (if a >? b then -1 else if a <? b then 1 else 0)
  else
    (if a <? b then -1 else if a >? b then 1 else 0).

Fixpoint First_node (t : LevelNode) : option (Level * OrderList) :=
  match t with
  | Nil => None
  | Node Nil lv ol _ _ => Some (lv, ol)
  | Node l _ _ _ _ => First_node l
  end.

Definition First (t : AVLTree) : option (Level * OrderList) := First_node (root t).

Fixpoint Find_node (desc : bool) (price : Z) (t : LevelNode) : option (Level * OrderList) :=
  match t with
  | Nil => None
  | Node l lv ol _ r =>
      if price =? Level_Price lv then Some (lv, ol)
      else if compare desc price (Level_Price lv) <? 0 then Find_node desc price l
      else Find_node desc price r
  end.

Definition Find (t : AVLTree) (price : Z) : option (Level * OrderList) :=
  Find_node (descending t) price (root t).

(** A write through a level pointer: the node that [Find] reaches gets
    new [Level] and [OrderList] fields. *)
Fixpoint update_node (desc : bool) (price : Z)
    (f : Level * OrderList -> Level * OrderList) (t : LevelNode) : option LevelNode :=
  match t with
  | Nil => None
  | Node l lv ol b r =>
      if price =? Level_Price lv then
        let '(lv', ol') := f (lv, ol) in Some (Node l lv' ol' b r)
      else if compare desc price (Level_Price lv) <? 0 then
        l' ← update_node desc price f l; Some (Node l' lv ol b r)
      else
        r' ← update_node desc price f r; Some (Node l lv ol b r')
  end.

Definition update_level (t : AVLTree) (price : Z)
    (f : Level * OrderList -> Level * OrderList) : option AVLTree :=
  r ← update_node (descending t) price f (root t);
  Some {| root := r; tree_size := tree_size t; descending := descending t |}.

Fixpoint height (t : LevelNode) : Z :=
  match t with
  | Nil => 0
  | Node l _ _ _ r =>
      let leftHeight := height l in
      let rightHeight := height r in
      if leftHeight >? rightHeight then leftHeight + 1 else rightHeight + 1
  end.

Definition Balance_of (t : LevelNode) : option Z :=
  match t with
  | Nil => None
  | Node _ _ _ b _ => Some b
  end.

Definition rotateLeft (node : LevelNode) : option LevelNode :=
  match node with
  | Node l lv ol b (Node pl plv pol pb pr) =>
      let nb := b - 1 - Z.max 0 pb in
      let pb' := pb - 1 + Z.min 0 nb in
      Some (Node (Node l lv ol nb pl) plv pol pb' pr)
  | _ => None
  end.

Definition rotateRight (node : LevelNode) : option LevelNode :=
  match node with
  | Node (Node pl plv pol pb pr) lv ol b r =>
      let nb := b + 1 - Z.min 0 pb in
      let pb' := pb + 1 + Z.max 0 nb in
      Some (Node pl plv pol pb' (Node pr lv ol nb r))
  | _ => None
  end.

Definition rebalance (node : LevelNode) : option LevelNode :=
  match node with
  | Nil => None
  | Node l lv ol b r =>
      if b =? -2 then
        lb ← Balance_of l;
        if lb <=? 0 then rotateRight node
        else l' ← rotateLeft l; rotateRight (Node l' lv ol b r)
      else if b =? 2 then
        rb ← Balance_of r;
        if rb >=? 0 then rotateLeft node
        else r' ← rotateRight r; rotateLeft (Node l lv ol b r')
      else Some node
  end.

(** The descent of [Insert]: the path from the free slot up to the root. *)
Fixpoint insert_path (desc : bool) (price : Z) (t : LevelNode) (path : list Frame)
    : list Frame :=
  match t with
  | Nil => path
  | Node l lv ol b r =>
      if compare desc price (Level_Price lv) <? 0
      then insert_path desc price l (WentLeft lv ol b r :: path)
      else insert_path desc price r (WentRight l lv ol b :: path)
  end.

(** [rebalanceInsert]: [node] hangs below the first frame of [path]. *)
Fixpoint rebalanceInsert (node : LevelNode) (path : list Frame) : option LevelNode :=
  match path with
  | [] => Some node
  | f :: rest =>
      let parent :=
        match f with
        | WentLeft lv ol b r => Node node lv ol (b - 1) r
        | WentRight l lv ol b => Node l lv ol (b + 1) node
        end in
      b' ← Balance_of parent;
      if b' =? 0 then Some (plug rest parent)
      else if (b' =? -2) || (b' =? 2) then
        p' ← rebalance parent; Some (plug rest p')
      else rebalanceInsert parent rest
  end.

Definition Insert (t : AVLTree) (level : LevelNode) : option AVLTree :=
  match level with
  | Nil => None
  | Node _ lv _ _ _ =>
      match root t with
      | Nil => Some {| root := level; tree_size := tree_size t + 1; descending := descending t |}
      | _ =>
          let path := insert_path (descending t) (Level_Price lv) (root t) [] in
          r ← rebalanceInsert level path;
          Some {| root := r; tree_size := tree_size t + 1; descending := descending t |}
      end
  end.

(** [rebalanceRemove]: walk up from [node], whose ancestors are [path]. *)
Fixpoint rebalanceRemove (node : LevelNode) (path : list Frame) : option LevelNode :=
  match node with
  | Nil => None
  | Node l lv ol oldBalance r =>
      let bal := height r - height l in
      let node1 := Node l lv ol bal r in
      let up (n : LevelNode) :=
        match path with
        | [] => Some n
        | f :: rest => rebalanceRemove (plug1 f n) rest
        end in
      if (bal =? -2) || (bal =? 2) then
        node2 ← rebalance node1;
        b2 ← Balance_of node2;
        if (b2 =? -1) || (b2 =? 1) then Some (plug path node2) else up node2
      else if oldBalance =? 0 then Some (plug path node1)
      else up node1
  end.

(** The way from the root to the node a level pointer designates. *)
Fixpoint locate (desc : bool) (price : Z) (t : LevelNode) (path : list Frame)
    : option (LevelNode * list Frame) :=
  match t with
  | Nil => None
  | Node l lv ol b r =>
      if price =? Level_Price lv then Some (t, path)
      else if compare desc price (Level_Price lv) <? 0
      then locate desc price l (WentLeft lv ol b r :: path)
      else locate desc price r (WentRight l lv ol b :: path)
  end.

(** The successor search of [Remove]: the leftmost node of [t], as its
    fields, its right child, and the path from it up to [t]'s parent. *)
Fixpoint leftmost_path (t : LevelNode) (path : list Frame)
    : option (Level * OrderList * LevelNode * list Frame) :=
  match t with
  | Nil => None
  | Node Nil lv ol _ r => Some (lv, ol, r, path)
  | Node l lv ol b r => leftmost_path l (WentLeft lv ol b r :: path)
  end.

(** [Remove] of the node with the given price. With at most one child
    the child takes the node's place; with two, the successor's [Level]
    and [OrderList] are copied into the node and the successor is
    unlinked instead. *)
Definition Remove (t : AVLTree) (price : Z) : option AVLTree :=
  '(node, path) ← locate (descending t) price (root t) [];
  let finish (r : LevelNode) :=
    Some {| root := r; tree_size := tree_size t - 1; descending := descending t |} in
  let replace (replacement : LevelNode) :=
    match path with
    | [] => finish replacement
    | f :: rest => r ← rebalanceRemove (plug1 f replacement) rest; finish r
    end in
  match node with
  | Nil => None
  | Node Nil _ _ _ Nil => replace Nil
  | Node Nil _ _ _ r => replace r
  | Node l _ _ _ Nil => replace l
  | Node l _ _ b r =>
      '(slv, sol, sright, spath) ← leftmost_path r [];
      match spath ++ WentRight l slv sol b :: path with
      | [] => None
      | f :: rest => r' ← rebalanceRemove (plug1 f sright) rest; finish r'
      end
  end.

(* ================================================================== *)
(** ** Package matching: the order book *)

(** The six level indexes of a book. *)
Inductive Index :=
| Bids | Asks | BuyStops | SellStops | TrailingBuyStops | TrailingSellStops.

Global Instance Index_eq_dec : EqDecision Index.
Proof. solve_decision. Defined.

(** A pointer to a level node: its index and its price. *)
Definition LevelRef : Type := Index * Z.

Record OrderNode := mkOrderNode {
  node_Order : Order;
  node_Level : option LevelRef
}.

Definition NewOrderNode (o : Order) : OrderNode :=
  {| node_Order := o; node_Level := None |}.

(** The best pointers hold the price of the node they point to. *)
Record OrderBook := mkOrderBook {
  symbol : Symbol;
  bestBid : option Z;
  bestAsk : option Z;
  bids : AVLTree;
  asks : AVLTree;
  bestBuyStop : option Z;
  bestSellStop : option Z;
  buyStopLevels : AVLTree;
  sellStopLevels : AVLTree;
  bestTrailingBuyStop : option Z;
  bestTrailingSellStop : option Z;
  trailingBuyStopLevels : AVLTree;
  trailingSellStopLevels : AVLTree;
  lastBidPrice : Z;
  lastAskPrice : Z;
  matchingPrice : Z
}.

Definition NewOrderBook (s : Symbol) : OrderBook :=
  {| symbol := s;
     bestBid := None; bestAsk := None;
     bids := NewAVLTree true; asks := NewAVLTree false;
     bestBuyStop := None; bestSellStop := None;
     buyStopLevels := NewAVLTree false; sellStopLevels := NewAVLTree true;
     bestTrailingBuyStop := None; bestTrailingSellStop := None;
     trailingBuyStopLevels := NewAVLTree false;
     trailingSellStopLevels := NewAVLTree true;
     lastBidPrice := 0; lastAskPrice := 0; matchingPrice := 0 |}.

Definition tree_of (i : Index) (ob : OrderBook) : AVLTree :=
  match i with
  | Bids => bids ob | Asks => asks ob
  | BuyStops => buyStopLevels ob | SellStops => sellStopLevels ob
  | TrailingBuyStops => trailingBuyStopLevels ob
  | TrailingSellStops => trailingSellStopLevels ob
  end.

Definition best_of (i : Index) (ob : OrderBook) : option Z :=
  match i with
  | Bids => bestBid ob | Asks => bestAsk ob
  | BuyStops => bestBuyStop ob | SellStops => bestSellStop ob
  | TrailingBuyStops => bestTrailingBuyStop ob
  | TrailingSellStops => bestTrailingSellStop ob
  end.

(** Assignment to one index and its best pointer. *)
Definition set_index (i : Index) (t : AVLTree) (b : option Z) (ob : OrderBook) : OrderBook :=
  {| symbol := symbol ob;
     bestBid := if decide (i = Bids) then b else bestBid ob;
     bestAsk := if decide (i = Asks) then b else bestAsk ob;
     bids := if decide (i = Bids) then t else bids ob;
     asks := if decide (i = Asks) then t else asks ob;
     bestBuyStop := if decide (i = BuyStops) then b else bestBuyStop ob;
     bestSellStop := if decide (i = SellStops) then b else bestSellStop ob;
     buyStopLevels := if decide (i = BuyStops) then t else buyStopLevels ob;
     sellStopLevels := if decide (i = SellStops) then t else sellStopLevels ob;
     bestTrailingBuyStop :=
       if decide (i = TrailingBuyStops) then b else bestTrailingBuyStop ob;
     bestTrailingSellStop :=
       if decide (i = TrailingSellStops) then b else bestTrailingSellStop ob;
     trailingBuyStopLevels :=
       if decide (i = TrailingBuyStops) then t else trailingBuyStopLevels ob;
     trailingSellStopLevels :=
       if decide (i = TrailingSellStops) then t else trailingSellStopLevels ob;
     lastBidPrice := lastBidPrice ob;
     lastAskPrice := lastAskPrice ob;
     matchingPrice := matchingPrice ob |}.

(** The routing that [AddLevel], [DeleteLevel] and [AddOrder] repeat:
    trailing stops first, then stops, then everything else (limit and
    market orders) on the bid or ask side. *)
Definition index_of (o : Order) : Index :=
  if IsTrailingStop o || IsTrailingStopLimit o then
    (if IsBuy o then TrailingBuyStops else TrailingSellStops)
  else if IsStop o || IsStopLimit o then
    (if IsBuy o then BuyStops else SellStops)
  else
    (if IsBuy o then Bids else Asks).

Definition route_price (o : Order) : Z :=
  if IsTrailingStop o || IsTrailingStopLimit o then StopPrice o
  else if IsStop o || IsStopLimit o then StopPrice o
  else Price o.

(** The test that moves a best pointer in [AddLevel]: [>] on the bid,
    sell-stop and trailing-sell-stop indexes, [<] on the other three. *)
Definition improves (i : Index) (price best : Z) : bool :=
  match i with
  | Bids | SellStops | TrailingSellStops => price >? best
  | Asks | BuyStops | TrailingBuyStops => price <? best
  end.

Definition OrderBook_AddLevel (ob : OrderBook) (o : Order) : option (OrderBook * LevelRef) :=
  let i := index_of o in
  let price := route_price o in
  let level := NewLevelNode (if IsBuy o then LevelTypeBid else LevelTypeAsk) price in
  t' ← Insert (tree_of i ob) level;
  let best' :=
    match best_of i ob with
    | None => Some price
    | Some b => if improves i price b then Some price else Some b
    end in
  Some (set_index i t' best' ob, (i, price)).

Definition OrderBook_DeleteLevel (ob : OrderBook) (o : Order) (ref : LevelRef)
    : option OrderBook :=
  let i := index_of o in
  if decide (fst ref = i) then
    t' ← Remove (tree_of i ob) (snd ref);
    let best' :=
      if decide (best_of i ob = Some (snd ref))
      then (fun '(lv, _) => Level_Price lv) <$> First t'
      else best_of i ob in
    Some (set_index i t' best' ob)
  else None.

(** A write to the fields of the node [ref] points to. *)
Definition with_level (ob : OrderBook) (ref : LevelRef)
    (f : Level * OrderList -> Level * OrderList) : option OrderBook :=
  t' ← update_level (tree_of (fst ref) ob) (snd ref) f;
  Some (set_index (fst ref) t' (best_of (fst ref) ob) ob).

Definition deref (ob : OrderBook) (ref : LevelRef) : option (Level * OrderList) :=
  Find (tree_of (fst ref) ob) (snd ref).

Definition add_volumes (lv : Level) (total hidden visible : Z) (orders : Z) : Level :=
  {| Level_Type := Level_Type lv; Level_Price := Level_Price lv;
     TotalVolume := u64 (TotalVolume lv + total);
     HiddenVolume := u64 (HiddenVolume lv + hidden);
     VisibleVolume := u64 (VisibleVolume lv + visible);
     Level_Orders := u64 (Level_Orders lv + orders) |}.

(** [AddOrder]: returns the book and the level the order was linked to
    (the caller stores it in the node's [Level] field). *)
Definition OrderBook_AddOrder (ob : OrderBook) (o : Order) : option (OrderBook * LevelRef) :=
  let i := index_of o in
  let price := route_price o in
  '(ob1, ref) ←
    match Find (tree_of i ob) price with
    | Some _ => Some (ob, (i, price))
    | None => OrderBook_AddLevel ob o
    end;
  ob2 ← with_level ob1 ref (fun '(lv, ol) =>
    (add_volumes lv (LeavesQuantity o) (HiddenQuantity o) (VisibleQuantity o) 1,
     PushBack ol (ID o)));
  Some (ob2, ref).

Definition OrderBook_ReduceOrder (ob : OrderBook) (n : OrderNode)
    (quantity hidden visible : Z) : option OrderBook :=
  ref ← node_Level n;
  with_level ob ref (fun '(lv, ol) =>
    (add_volumes lv (- quantity) (- hidden) (- visible) 0, ol)).

Definition OrderBook_DeleteOrder (ob : OrderBook) (n : OrderNode) : option OrderBook :=
  let o := node_Order n in
  ref ← node_Level n;
  ob1 ← with_level ob ref (fun '(lv, ol) =>
    (add_volumes lv (- LeavesQuantity o) (- HiddenQuantity o) (- VisibleQuantity o) (-1),
     OrderList_Remove ol (ID o)));
  '(_, ol) ← deref ob1 ref;
  if Empty ol then OrderBook_DeleteLevel ob1 o ref else Some ob1.

Definition GetSpread (ob : OrderBook) : Z :=
  match bestBid ob, bestAsk ob with
  | Some b, Some a => if a >? b then a - b else 0
  | _, _ => 0
  end.

Definition GetMidPrice (ob : OrderBook) : Z :=
  match bestBid ob, bestAsk ob with
  | Some b, Some a => u64 (b + a) / 2
  | _, _ => 0
  end.

(* ================================================================== *)
(** ** Package matching: the handler and the market manager *)

(** One constructor per method of [MarketHandler]. An order book is
    passed by pointer; the event records the key of the book. *)
Inductive Event :=
| OnAddSymbol (s : Symbol)
| OnDeleteSymbol (s : Symbol)
| OnAddOrderBook (book : Z)
| OnUpdateOrderBook (book : Z) (top : bool)
| OnDeleteOrderBook (book : Z)
| OnAddLevel (book : Z) (lv : Level) (top : bool)
| OnUpdateLevel (book : Z) (lv : Level) (top : bool)
| OnDeleteLevel (book : Z) (lv : Level) (top : bool)
| OnAddOrder (o : Order)
| OnUpdateOrder (o : Order)
| OnDeleteOrder (o : Order)
| OnExecuteOrder (o : Order) (price quantity : Z).

Record MarketManager := mkMarketManager {
  handler : list Event;
  symbols : gmap Z Symbol;
  orderBooks : gmap Z OrderBook;
  orders : gmap Z OrderNode;
  matching : bool
}.

Definition NewMarketManager : MarketManager :=
  {| handler := []; symbols := ∅; orderBooks := ∅; orders := ∅; matching := false |}.

Definition EnableMatching (m : MarketManager) : MarketManager :=
  {| handler := handler m; symbols := symbols m; orderBooks := orderBooks m;
     orders := orders m; matching := true |}.

Definition DisableMatching (m : MarketManager) : MarketManager :=
  {| handler := handler m; symbols := symbols m; orderBooks := orderBooks m;
     orders := orders m; matching := false |}.

Definition emit (e : Event) (m : MarketManager) : MarketManager :=
  {| handler := handler m ++ [e]; symbols := symbols m; orderBooks := orderBooks m;
     orders := orders m; matching := matching m |}.

Definition set_symbols (s : gmap Z Symbol) (m : MarketManager) : MarketManager :=
  {| handler := handler m; symbols := s; orderBooks := orderBooks m;
     orders := orders m; matching := matching m |}.

Definition set_orderBooks (b : gmap Z OrderBook) (m : MarketManager) : MarketManager :=
  {| handler := handler m; symbols := symbols m; orderBooks := b;
     orders := orders m; matching := matching m |}.

Definition set_orders (o : gmap Z OrderNode) (m : MarketManager) : MarketManager :=
  {| handler := handler m; symbols := symbols m; orderBooks := orderBooks m;
     orders := o; matching := matching m |}.

Definition set_book (k : Z) (ob : OrderBook) (m : MarketManager) : MarketManager :=
  set_orderBooks (<[k := ob]> (orderBooks m)) m.

Definition set_order (n : OrderNode) (m : MarketManager) : MarketManager :=
  set_orders (<[ID (node_Order n) := n]> (orders m)) m.

Definition with_Level (n : OrderNode) (l : option LevelRef) : OrderNode :=
  {| node_Order := node_Order n; node_Level := l |}.

Definition with_Order (n : OrderNode) (o : Order) : OrderNode :=
  {| node_Order := o; node_Level := node_Level n |}.

Definition set_quantities (o : Order) (price quantity executed leaves : Z) : Order :=
  {| ID := ID o; SymbolID := SymbolID o; Type_ := Type_ o; Side := Side o;
     Price := price; StopPrice := StopPrice o; Quantity := quantity;
     ExecutedQuantity := executed; LeavesQuantity := leaves;
     TimeInForce := TimeInForce o; MaxVisible := MaxVisible o;
     Slippage := Slippage o; TrailingDistance := TrailingDistance o;
     TrailingStep := TrailingStep o |}.

Definition validateOrder (o : Order) : ErrorCode :=
  if ID o =? 0 then ErrorOrderIDInvalid
  else if Quantity o =? 0 then ErrorOrderQuantityInvalid
  else if Type_ o =? OrderTypeLimit then
    (if Price o =? 0 then ErrorOrderParameterInvalid else ErrorOK)
  else if Type_ o =? OrderTypeStop then
    (if StopPrice o =? 0 then ErrorOrderParameterInvalid else ErrorOK)
  else if Type_ o =? OrderTypeStopLimit then
    (if (Price o =? 0) || (StopPrice o =? 0) then ErrorOrderParameterInvalid else ErrorOK)
  else if Type_ o =? OrderTypeTrailingStop then
    (if TrailingDistance o =? 0 then ErrorOrderParameterInvalid else ErrorOK)
  else if Type_ o =? OrderTypeTrailingStopLimit then
    (if (Price o =? 0) || (TrailingDistance o =? 0)
     then ErrorOrderParameterInvalid else ErrorOK)
  else ErrorOK.

(** [updateLevel]: nothing for an order that is on no level; otherwise
    the level callback for [ut] with a copy of the level as it is now,
    then [OnUpdateOrderBook]. [book] is the key of [ob]. *)
Definition updateLevel (book : Z) (n : OrderNode) (ut : UpdateType)
    (m : MarketManager) : option MarketManager :=
  match node_Level n with
  | None => Some m
  | Some ref =>
      ob ← orderBooks m !! book;
      '(level, _) ← deref ob ref;
      let top :=
        if IsBuy (node_Order n)
        then bool_decide (fst ref = Bids ∧ bestBid ob = Some (snd ref))
        else bool_decide (fst ref = Asks ∧ bestAsk ob = Some (snd ref)) in
      let m1 :=
        match ut with
        | UpdateAdd => emit (OnAddLevel book level top) m
        | UpdateUpdate => emit (OnUpdateLevel book level top) m
        | UpdateDelete => emit (OnDeleteLevel book level top) m
        | UpdateNone => m
        end in
      Some (emit (OnUpdateOrderBook book top) m1)
  end.

Definition AddSymbol (s : Symbol) (m : MarketManager) : ErrorCode * MarketManager :=
  match symbols m !! Symbol_ID s with
  | Some _ => (ErrorSymbolDuplicate, m)
  | None =>
      (ErrorOK, emit (OnAddSymbol s) (set_symbols (<[Symbol_ID s := s]> (symbols m)) m))
  end.

Definition AddOrderBook (s : Symbol) (m : MarketManager) : ErrorCode * MarketManager :=
  match orderBooks m !! Symbol_ID s with
  | Some _ => (ErrorOrderBookDuplicate, m)
  | None =>
      (ErrorOK, emit (OnAddOrderBook (Symbol_ID s)) (set_book (Symbol_ID s) (NewOrderBook s) m))
  end.

Definition DeleteOrder (id : Z) (m : MarketManager) : option (ErrorCode * MarketManager) :=
  match orders m !! id with
  | None => Some (ErrorOrderNotFound, m)
  | Some orderNode =>
      let book := SymbolID (node_Order orderNode) in
      ob ← orderBooks m !! book;
      m1 ← updateLevel book orderNode UpdateDelete m;
      ob' ← OrderBook_DeleteOrder ob orderNode;
      let m2 := set_orders (delete id (orders m1)) (set_book book ob' m1) in
      Some (ErrorOK, emit (OnDeleteOrder (node_Order orderNode)) m2)
  end.

(** [executeOrder] on the node registered under [id]. *)
Definition executeOrder (id price quantity : Z) (m : MarketManager)
    : option (ErrorCode * MarketManager) :=
  orderNode ← orders m !! id;
  let o := node_Order orderNode in
  let book := SymbolID o in
  ob ← orderBooks m !! book;
  let oldHidden := HiddenQuantity o in
  let oldVisible := VisibleQuantity o in
  let o' := set_quantities o (Price o) (Quantity o)
              (u64 (ExecutedQuantity o + quantity)) (u64 (LeavesQuantity o - quantity)) in
  let n' := with_Order orderNode o' in
  let hiddenReduction := u64 (oldHidden - HiddenQuantity o') in
  let visibleReduction := u64 (oldVisible - VisibleQuantity o') in
  ob1 ← OrderBook_ReduceOrder ob n' quantity hiddenReduction visibleReduction;
  let m1 := emit (OnExecuteOrder o' price quantity)
              (set_order n' (set_book book ob1 m)) in
  if LeavesQuantity o' =? 0 then
    m2 ← updateLevel book n' UpdateDelete m1;
    ob2 ← OrderBook_DeleteOrder ob1 n';
    let m3 := set_orders (delete (ID o') (orders m2)) (set_book book ob2 m2) in
    Some (ErrorOK, emit (OnDeleteOrder o') m3)
  else
    m2 ← updateLevel book n' UpdateUpdate (emit (OnUpdateOrder o') m1);
    Some (ErrorOK, m2).

(** One round of the loop of [match]: [None] is a panic, [Some None] the
    [break], [Some (Some m')] the state after the two executions. *)
Definition match_step (book : Z) (m : MarketManager) : option (option MarketManager) :=
  ob ← orderBooks m !! book;
  match bestBid ob, bestAsk ob with
  | Some bidPrice, Some askPrice =>
      if bidPrice <? askPrice then Some None
      else
        '(_, bidList) ← Find (bids ob) bidPrice;
        '(_, askList) ← Find (asks ob) askPrice;
        match Front bidList, Front askList with
        | Some bidID, Some askID =>
            bidOrder ← orders m !! bidID;
            askOrder ← orders m !! askID;
            let quantity :=
              if LeavesQuantity (node_Order askOrder) <? LeavesQuantity (node_Order bidOrder)
              then LeavesQuantity (node_Order askOrder)
              else LeavesQuantity (node_Order bidOrder) in
            let price := Price (node_Order askOrder) in
            '(_, m1) ← executeOrder bidID price quantity m;
            '(_, m2) ← executeOrder askID price quantity m1;
            Some (Some m2)
        | _, _ => Some None
        end
  | _, _ => Some None
  end.

(** The loop with a bound on its rounds; [match_] gives it one round
    more than there are registered orders, and every round that does not
    break removes an order from the registry. *)
Fixpoint match_loop (fuel : nat) (book : Z) (m : MarketManager) : option MarketManager :=
  match fuel with
  | O => None
  | S fuel' =>
      r ← match_step book m;
      match r with
      | None => Some m
      | Some m' => match_loop fuel' book m'
      end
  end.

Definition match_ (book : Z) (m : MarketManager) : option MarketManager :=
  match_loop (S (size (orders m))) book m.

Definition Match (symbolID : Z) (m : MarketManager) : option (ErrorCode * MarketManager) :=
  match orderBooks m !! symbolID with
  | None => Some (ErrorOrderBookNotFound, m)
  | Some _ => m' ← match_ symbolID m; Some (ErrorOK, m')
  end.

Definition match_if_enabled (book : Z) (m : MarketManager) : option MarketManager :=
  if matching m then match_ book m else Some m.

(** The insertion that [AddOrder], [ModifyOrder], [MitigateOrder] and
    [ReplaceOrder] share: link the node into the book, store the level
    pointer in it, and register it. *)
Definition link_order (book : Z) (ob : OrderBook) (o : Order) (m : MarketManager)
    : option (OrderNode * MarketManager) :=
  '(ob', ref) ← OrderBook_AddOrder ob o;
  let n := {| node_Order := o; node_Level := Some ref |} in
  Some (n, set_order n (set_book book ob' m)).

Definition AddOrder (order : Order) (m : MarketManager) : option (ErrorCode * MarketManager) :=
  match validateOrder order with
  | ErrorOK =>
      match orders m !! ID order with
      | Some _ => Some (ErrorOrderDuplicate, m)
      | None =>
          match orderBooks m !! SymbolID order with
          | None => Some (ErrorOrderBookNotFound, m)
          | Some ob =>
              '(orderNode, m1) ← link_order (SymbolID order) ob order m;
              m2 ← updateLevel (SymbolID order) orderNode UpdateAdd
                     (emit (OnAddOrder order) m1);
              m3 ← match_if_enabled (SymbolID order) m2;
              Some (ErrorOK, m3)
          end
      end
  | err => Some (err, m)
  end.

Definition ReduceOrder (id quantity : Z) (m : MarketManager)
    : option (ErrorCode * MarketManager) :=
  match orders m !! id with
  | None => Some (ErrorOrderNotFound, m)
  | Some orderNode =>
      if quantity =? 0 then Some (ErrorOrderQuantityInvalid, m)
      else if quantity >=? LeavesQuantity (node_Order orderNode) then DeleteOrder id m
      else
        let o := node_Order orderNode in
        let book := SymbolID o in
        ob ← orderBooks m !! book;
        let oldHidden := HiddenQuantity o in
        let oldVisible := VisibleQuantity o in
        let o' := set_quantities o (Price o) (Quantity o) (ExecutedQuantity o)
                    (u64 (LeavesQuantity o - quantity)) in
        let n' := with_Order orderNode o' in
        let hiddenReduction := u64 (oldHidden - HiddenQuantity o') in
        let visibleReduction := u64 (oldVisible - VisibleQuantity o') in
        ob1 ← OrderBook_ReduceOrder ob n' quantity hiddenReduction visibleReduction;
        let m1 := emit (OnUpdateOrder o') (set_order n' (set_book book ob1 m)) in
        m2 ← updateLevel book n' UpdateUpdate m1;
        Some (ErrorOK, m2)
  end.

Definition ModifyOrder (id newPrice newQuantity : Z) (m : MarketManager)
    : option (ErrorCode * MarketManager) :=
  match orders m !! id with
  | None => Some (ErrorOrderNotFound, m)
  | Some orderNode =>
      if newQuantity =? 0 then Some (ErrorOrderQuantityInvalid, m)
      else
        let o := node_Order orderNode in
        let book := SymbolID o in
        ob ← orderBooks m !! book;
        m1 ← updateLevel book orderNode UpdateDelete m;
        ob1 ← OrderBook_DeleteOrder ob orderNode;
        let o' := set_quantities o newPrice newQuantity 0 newQuantity in
        '(n', m2) ← link_order book ob1 o' m1;
        m3 ← updateLevel book n' UpdateAdd (emit (OnUpdateOrder o') m2);
        m4 ← match_if_enabled book m3;
        Some (ErrorOK, m4)
  end.

Definition MitigateOrder (id newPrice newQuantity : Z) (m : MarketManager)
    : option (ErrorCode * MarketManager) :=
  match orders m !! id with
  | None => Some (ErrorOrderNotFound, m)
  | Some orderNode =>
      let o := node_Order orderNode in
      let book := SymbolID o in
      if newQuantity <=? ExecutedQuantity o then DeleteOrder id m
      else
        ob ← orderBooks m !! book;
        m1 ← updateLevel book orderNode UpdateDelete m;
        ob1 ← OrderBook_DeleteOrder ob orderNode;
        let o' := set_quantities o newPrice newQuantity (ExecutedQuantity o)
                    (u64 (newQuantity - ExecutedQuantity o)) in
        '(n', m2) ← link_order book ob1 o' m1;
        m3 ← updateLevel book n' UpdateAdd (emit (OnUpdateOrder o') m2);
        m4 ← match_if_enabled book m3;
        Some (ErrorOK, m4)
  end.

Definition ReplaceOrder (id newID newPrice newQuantity : Z) (m : MarketManager)
    : option (ErrorCode * MarketManager) :=
  match orders m !! id with
  | None => Some (ErrorOrderNotFound, m)
  | Some orderNode =>
      if newQuantity =? 0 then Some (ErrorOrderQuantityInvalid, m)
      else
        match orders m !! newID with
        | Some _ => Some (ErrorOrderDuplicate, m)
        | None =>
            let o := node_Order orderNode in
            let book := SymbolID o in
            ob ← orderBooks m !! book;
            m1 ← updateLevel book orderNode UpdateDelete m;
            ob1 ← OrderBook_DeleteOrder ob orderNode;
            let m2 := emit (OnDeleteOrder o)
                        (set_orders (delete id (orders m1)) (set_book book ob1 m1)) in
            let newOrder :=
              {| ID := newID; SymbolID := SymbolID o; Type_ := Type_ o; Side := Side o;
                 Price := newPrice; StopPrice := StopPrice o; Quantity := newQuantity;
                 ExecutedQuantity := 0; LeavesQuantity := newQuantity;
                 TimeInForce := TimeInForce o; MaxVisible := MaxVisible o;
                 Slippage := Slippage o; TrailingDistance := TrailingDistance o;
                 TrailingStep := TrailingStep o |} in
            '(n', m3) ← link_order book ob1 newOrder m2;
            m4 ← updateLevel book n' UpdateAdd (emit (OnAddOrder newOrder) m3);
            m5 ← match_if_enabled book m4;
            Some (ErrorOK, m5)
        end
  end.

Definition ExecuteOrder (id quantity : Z) (m : MarketManager)
    : option (ErrorCode * MarketManager) :=
  match orders m !! id with
  | None => Some (ErrorOrderNotFound, m)
  | Some orderNode =>
      if (quantity =? 0) || (quantity >? LeavesQuantity (node_Order orderNode))
      then Some (ErrorOrderQuantityInvalid, m)
      else executeOrder id (Price (node_Order orderNode)) quantity m
  end.

Definition ExecuteOrderWithPrice (id price quantity : Z) (m : MarketManager)
    : option (ErrorCode * MarketManager) :=
  match orders m !! id with
  | None => Some (ErrorOrderNotFound, m)
  | Some orderNode =>
      if (quantity =? 0) || (quantity >? LeavesQuantity (node_Order orderNode))
      then Some (ErrorOrderQuantityInvalid, m)
      else executeOrder id price quantity m
  end.

(** [DeleteOrderBook] cancels the orders of the book in the order Go's
    map iteration yields them; the embedding takes the order of
    [map_to_list]. The result of each [DeleteOrder] is dropped. *)
Definition DeleteOrderBook (id : Z) (m : MarketManager) : option (ErrorCode * MarketManager) :=
  match orderBooks m !! id with
  | None => Some (ErrorOrderBookNotFound, m)
  | Some _ =>
      let ordersToDelete :=
        filter (fun kn => SymbolID (node_Order kn.2) = id) (map_to_list (orders m)) in
      m1 ← foldl (fun acc kn => m' ← acc; snd <$> DeleteOrder (ID (node_Order kn.2)) m')
                 (Some m) ordersToDelete;
      Some (ErrorOK, emit (OnDeleteOrderBook id) (set_orderBooks (delete id (orderBooks m1)) m1))
  end.

Definition DeleteSymbol (id : Z) (m : MarketManager) : option (ErrorCode * MarketManager) :=
  match symbols m !! id with
  | None => Some (ErrorSymbolNotFound, m)
  | Some s =>
      m1 ← match orderBooks m !! id with
           | Some _ => snd <$> DeleteOrderBook id m
           | None => Some m
           end;
      Some (ErrorOK, emit (OnDeleteSymbol s) (set_symbols (delete id (symbols m1)) m1))
  end.

(** Modelled from the spec: [MarketManager.RestoreOrder], which the
    recovery code calls and whose body is not among the sources. The
    specification (4.9) describes it as the operation that "re-inserts
    without running the matching loop and without clearing
    executed_quantity", its callers tolerate [ErrorOrderDuplicate], and a
    book must exist for an order to be linked; so it is [AddOrder]'s
    insertion with the order kept as given, no validation and no match. *)
Definition RestoreOrder (order : Order) (m : MarketManager)
    : option (ErrorCode * MarketManager) :=
  match orders m !! ID order with
  | Some _ => Some (ErrorOrderDuplicate, m)
  | None =>
      match orderBooks m !! SymbolID order with
      | None => Some (ErrorOrderBookNotFound, m)
      | Some ob =>
          '(orderNode, m1) ← link_order (SymbolID order) ob order m;
          m2 ← updateLevel (SymbolID order) orderNode UpdateAdd
                 (emit (OnAddOrder order) m1);
          Some (ErrorOK, m2)
      end
  end.

(* ================================================================== *)
(** ** Package persistence: journal events *)

Definition EventNewOrder : Z := 1.
Definition EventCancelOrder : Z := 2.

Record MatchingEvent := mkMatchingEvent {
  ev_Type : Z;
  ev_Timestamp : Z;
  ev_Order : Order;
  ev_OrderID : Z
}.

(** Go's zero value of [Order]. *)
Definition zeroOrder : Order :=
  {| ID := 0; SymbolID := 0; Type_ := 0; Side := 0; Price := 0; StopPrice := 0;
     Quantity := 0; ExecutedQuantity := 0; LeavesQuantity := 0; TimeInForce := 0;
     MaxVisible := 0; Slippage := 0; TrailingDistance := 0; TrailingStep := 0 |}.

(** The errors the persistence code returns or wraps. *)
Inductive GoError :=
| EOF
| ErrUnexpectedEOF
| ErrInvalidRecordLength (payloadLen : Z)
| ErrReadingPayload (wrapped : GoError)
| ErrShortNewOrder (len : nat)
| ErrShortCancelOrder (len : nat)
| ErrUnknownEventType (t : Z)
| ErrIO
| ErrEngine (code : ErrorCode)
| ErrSnapshot (what : nat).

Definition encodeEvent (e : MatchingEvent) : GoError + list byte :=
  if ev_Type e =? EventNewOrder then
    inr (PutUint32 (1 + 8 + Z.of_nat orderWireSize) ++ [byte_of_Z (ev_Type e)] ++
         PutUint64 (u64 (ev_Timestamp e)) ++ marshalOrder (ev_Order e))
  else if ev_Type e =? EventCancelOrder then
    inr (PutUint32 (1 + 8 + 8) ++ [byte_of_Z (ev_Type e)] ++
         PutUint64 (u64 (ev_Timestamp e)) ++ PutUint64 (ev_OrderID e))
  else inl (ErrUnknownEventType (ev_Type e)).

(** [io.ReadFull] of [n] bytes from the unread rest of a stream: the
    bytes and the new rest, [EOF] when nothing was left, and
    [ErrUnexpectedEOF] when the stream ended inside the [n] bytes. *)
Definition ReadFull (n : nat) (r : list byte) : GoError + (list byte * list byte) :=
  if (n =? 0)%nat then inr ([], r)
  else if (length r =? 0)%nat then inl EOF
  else if (length r <? n)%nat then inl ErrUnexpectedEOF
  else inr (firstn n r, skipn n r).

Definition decodeEvent (r : list byte) : GoError + (MatchingEvent * list byte) :=
  match ReadFull 4 r with
  | inl err => inl err
  | inr (lenBuf, r1) =>
      let payloadLen := Uint32 lenBuf in
      if payloadLen <? 9 then inl (ErrInvalidRecordLength payloadLen)
      else
        match ReadFull (Z.to_nat payloadLen) r1 with
        | inl err => inl (ErrReadingPayload err)
        | inr (payload, r2) =>
            let t := byte_to_Z (nth 0 payload x00) in
            let ts := int64_of_u64 (Uint64 (slice 1 9 payload)) in
            if t =? EventNewOrder then
              if (length payload <? 9 + orderWireSize)%nat
              then inl (ErrShortNewOrder (length payload))
              else
                match unmarshalOrder (skipn 9 payload) with
                | None => inl (ErrShortNewOrder (length payload))
                | Some o =>
                    inr ({| ev_Type := t; ev_Timestamp := ts; ev_Order := o;
                            ev_OrderID := 0 |}, r2)
                end
            else if t =? EventCancelOrder then
              if (length payload <? 17)%nat
              then inl (ErrShortCancelOrder (length payload))
              else inr ({| ev_Type := t; ev_Timestamp := ts; ev_Order := zeroOrder;
                           ev_OrderID := Uint64 (slice 9 17 payload) |}, r2)
            else inl (ErrUnknownEventType t)
        end
  end.

(** The loop of [ReadAll] over the unread rest of the file. Every decoded
    record takes at least thirteen bytes, so the length of the rest
    bounds the rounds. *)
Fixpoint ReadAll_loop (fuel : nat) (r : list byte) (events : list MatchingEvent)
    : list MatchingEvent * option GoError :=
  match fuel with
  | O => (events, None)
  | S fuel' =>
      match decodeEvent r with
      | inl EOF | inl ErrUnexpectedEOF => (events, None)
      | inl err => (events, Some err)
      | inr (e, r') => ReadAll_loop fuel' r' (events ++ [e])
      end
  end.

(** [ReadAll]: [None] is a path at which no file exists. *)
Definition ReadAll (file : option (list byte)) : list MatchingEvent * option GoError :=
  match file with
  | None => ([], None)
  | Some content => ReadAll_loop (S (length content)) content []
  end.

(* ================================================================== *)
(** ** Package persistence: the journal and the manager *)

(** The journal as the bytes appended so far. Whether a write succeeds
    is the environment's choice, passed to [Append] as [io_ok]; a failed
    write leaves the journal as it was. *)
Record Journal := mkJournal {
  journal_bytes : list byte
}.

Definition Append (io_ok : bool) (event : MatchingEvent) (j : Journal)
    : option GoError * Journal :=
  match encodeEvent event with
  | inl err => (Some err, j)
  | inr record =>
      if io_ok then (None, {| journal_bytes := journal_bytes j ++ record |})
      else (Some ErrIO, j)
  end.

Record Manager := mkManager {
  mm : MarketManager;
  journal : Journal
}.

(** [Manager.AddOrder] and [Manager.CancelOrder] under the manager's
    lock; [now] is the clock reading taken for the event. The outer
    [option] is a panic of the engine. *)
Definition Manager_AddOrder (now : Z) (io_ok : bool) (order : Order) (mgr : Manager)
    : option (option GoError * Manager) :=
  let event := {| ev_Type := EventNewOrder; ev_Timestamp := now;
                  ev_Order := order; ev_OrderID := 0 |} in
  match Append io_ok event (journal mgr) with
  | (Some err, j) => Some (Some err, {| mm := mm mgr; journal := j |})
  | (None, j) =>
      '(code, m') ← AddOrder order (mm mgr);
      match code with
      | ErrorOK => Some (None, {| mm := m'; journal := j |})
      | _ => Some (Some (ErrEngine code), {| mm := m'; journal := j |})
      end
  end.

Definition Manager_CancelOrder (now : Z) (io_ok : bool) (orderID : Z) (mgr : Manager)
    : option (option GoError * Manager) :=
  let event := {| ev_Type := EventCancelOrder; ev_Timestamp := now;
                  ev_Order := zeroOrder; ev_OrderID := orderID |} in
  match Append io_ok event (journal mgr) with
  | (Some err, j) => Some (Some err, {| mm := mm mgr; journal := j |})
  | (None, j) =>
      '(code, m') ← DeleteOrder orderID (mm mgr);
      match code with
      | ErrorOK => Some (None, {| mm := m'; journal := j |})
      | _ => Some (Some (ErrEngine code), {| mm := m'; journal := j |})
      end
  end.

(* ================================================================== *)
(** ** Package persistence: snapshots *)

Definition snapshotMagic : list byte := [x47; x54; x53; x4e; x41; x50; x00; x01].

Record Snapshot := mkSnapshot {
  snap_Timestamp : Z;
  snap_Symbols : list Symbol;
  snap_Orders : list Order
}.

(** [now] is the clock reading; the two lists come out of Go's map
    iteration, for which the embedding takes the order of [map_to_list]. *)
Definition captureSnapshot (now : Z) (m : MarketManager) : Snapshot :=
  {| snap_Timestamp := now;
     snap_Symbols := (map_to_list (symbols m)).*2;
     snap_Orders := node_Order <$> (map_to_list (orders m)).*2 |}.

Definition writeSymbol (sym : Symbol) : list byte :=
  let name := if (255 <? length (Symbol_Name sym))%nat
              then firstn 255 (Symbol_Name sym) else Symbol_Name sym in
  PutUint32 (Symbol_ID sym) ++ [byte_of_Z (Z.of_nat (length name))] ++ name.

(** [writeSnapshot] into a writer that accepts every write. *)
Definition writeSnapshot (snap : Snapshot) : list byte :=
  snapshotMagic ++
  PutUint64 (u64 (snap_Timestamp snap)) ++
  PutUint32 (u32 (Z.of_nat (length (snap_Symbols snap)))) ++
  concat (writeSymbol <$> snap_Symbols snap) ++
  PutUint32 (u32 (Z.of_nat (length (snap_Orders snap)))) ++
  concat (marshalOrder <$> snap_Orders snap).

Fixpoint readSymbols (count : nat) (r : list byte) (acc : list Symbol)
    : GoError + (list Symbol * list byte) :=
  match count with
  | O => inr (acc, r)
  | S count' =>
      match ReadFull 4 r with
      | inl err => inl (ErrSnapshot 4)
      | inr (buf4, r1) =>
          match ReadFull 1 r1 with
          | inl err => inl (ErrSnapshot 5)
          | inr (lenBuf, r2) =>
              let nameLen := Z.to_nat (byte_to_Z (nth 0 lenBuf x00)) in
              match ReadFull nameLen r2 with
              | inl err => inl (ErrSnapshot 6)
              | inr (nameBuf, r3) =>
                  readSymbols count' r3
                    (acc ++ [{| Symbol_ID := Uint32 buf4; Symbol_Name := nameBuf |}])
              end
          end
      end
  end.

Fixpoint readOrders (count : nat) (r : list byte) (acc : list Order)
    : GoError + (list Order * list byte) :=
  match count with
  | O => inr (acc, r)
  | S count' =>
      match ReadFull orderWireSize r with
      | inl err => inl (ErrSnapshot 8)
      | inr (orderBuf, r1) =>
          match unmarshalOrder orderBuf with
          | None => inl (ErrSnapshot 8)
          | Some o => readOrders count' r1 (acc ++ [o])
          end
      end
  end.

Definition readSnapshot (r : list byte) : GoError + Snapshot :=
  match ReadFull 8 r with
  | inl err => inl (ErrSnapshot 0)
  | inr (magic, r1) =>
      if bool_decide (magic = snapshotMagic) then
        match ReadFull 8 r1 with
        | inl err => inl (ErrSnapshot 2)
        | inr (buf8, r2) =>
            match ReadFull 4 r2 with
            | inl err => inl (ErrSnapshot 3)
            | inr (buf4, r3) =>
                match readSymbols (Z.to_nat (Uint32 buf4)) r3 [] with
                | inl err => inl err
                | inr (syms, r4) =>
                    match ReadFull 4 r4 with
                    | inl err => inl (ErrSnapshot 7)
                    | inr (cnt, r5) =>
                        match readOrders (Z.to_nat (Uint32 cnt)) r5 [] with
                        | inl err => inl err
                        | inr (ords, _) =>
                            inr {| snap_Timestamp := int64_of_u64 (Uint64 buf8);
                                   snap_Symbols := syms; snap_Orders := ords |}
                        end
                    end
                end
            end
        end
      else inl (ErrSnapshot 1)
  end.

Section Snapshotter.

(** The zstd envelope, an external library: any pair of functions with
    the round-trip law serves. *)
Variable zstd_encode : list byte -> list byte.
Variable zstd_decode : list byte -> option (list byte).

(** The snapshot directory: the content of [snapshot-<ts>.snap] under
    the key [ts]. Files of other names are skipped by [LoadLatest]. *)
Definition Save (snap : Snapshot) (dir : gmap Z (list byte)) : gmap Z (list byte) :=
  <[snap_Timestamp snap := zstd_encode (writeSnapshot snap)]> dir.

Definition latest (dir : gmap Z (list byte)) : option Z :=
  match (map_to_list dir).*1 with
  | [] => None
  | ts :: rest => Some (foldr Z.max ts rest)
  end.

Definition LoadLatest (dir : gmap Z (list byte)) : GoError + option Snapshot :=
  match latest dir with
  | None => inr None
  | Some ts =>
      match dir !! ts with
      | None => inl ErrIO
      | Some content =>
          match zstd_decode content with
          | None => inl (ErrSnapshot 9)
          | Some raw =>
              match readSnapshot raw with
              | inl err => inl err
              | inr snap => inr (Some snap)
              end
          end
      end
  end.

(* ================================================================== *)
(** ** Package persistence: recovery *)

Fixpoint restore_symbols (syms : list Symbol) (m : MarketManager)
    : option GoError * MarketManager :=
  match syms with
  | [] => (None, m)
  | sym :: rest =>
      let '(code, m1) := AddSymbol sym m in
      if bool_decide (code = ErrorOK) || bool_decide (code = ErrorSymbolDuplicate) then
        let '(code2, m2) := AddOrderBook sym m1 in
        if bool_decide (code2 = ErrorOK) || bool_decide (code2 = ErrorOrderBookDuplicate)
        then restore_symbols rest m2
        else (Some (ErrEngine code2), m2)
      else (Some (ErrEngine code), m1)
  end.

Fixpoint restore_orders (ords : list Order) (m : MarketManager)
    : option (option GoError * MarketManager) :=
  match ords with
  | [] => Some (None, m)
  | o :: rest =>
      '(code, m1) ← RestoreOrder o m;
      if bool_decide (code = ErrorOK) || bool_decide (code = ErrorOrderDuplicate)
      then restore_orders rest m1
      else Some (Some (ErrEngine code), m1)
  end.

Definition applySnapshot (m : MarketManager) (snap : Snapshot)
    : option (option GoError * MarketManager) :=
  match restore_symbols (snap_Symbols snap) m with
  | (Some err, m1) => Some (Some err, m1)
  | (None, m1) => restore_orders (snap_Orders snap) m1
  end.

Definition applyEvent (m : MarketManager) (e : MatchingEvent)
    : option (option GoError * MarketManager) :=
  if ev_Type e =? EventNewOrder then
    '(code, m1) ← AddOrder (ev_Order e) m;
    if bool_decide (code = ErrorOK) || bool_decide (code = ErrorOrderDuplicate)
    then Some (None, m1) else Some (Some (ErrEngine code), m1)
  else if ev_Type e =? EventCancelOrder then
    '(code, m1) ← DeleteOrder (ev_OrderID e) m;
    if bool_decide (code = ErrorOK) || bool_decide (code = ErrorOrderNotFound)
    then Some (None, m1) else Some (Some (ErrEngine code), m1)
  else Some (Some (ErrUnknownEventType (ev_Type e)), m).

Fixpoint replay (snapshotTS : Z) (events : list MatchingEvent) (m : MarketManager)
    : option (option GoError * MarketManager) :=
  match events with
  | [] => Some (None, m)
  | e :: rest =>
      if ev_Timestamp e <=? snapshotTS then replay snapshotTS rest m
      else
        '(err, m1) ← applyEvent m e;
        match err with
        | Some _ => Some (err, m1)
        | None => replay snapshotTS rest m1
        end
  end.

(** [Recover]: [journalFile] is the content at the journal path, if a
    file exists there; [dir] the snapshot directory. *)
Definition Recover (m : MarketManager) (journalFile : option (list byte))
    (dir : gmap Z (list byte)) : option (option GoError * MarketManager) :=
  match LoadLatest dir with
  | inl err => Some (Some err, m)
  | inr snap =>
      '(err, m1, snapshotTS) ←
        match snap with
        | None => Some (None, m, 0)
        | Some s =>
            '(err, m1) ← applySnapshot m s; Some (err, m1, snap_Timestamp s)
        end;
      match err with
      | Some _ => Some (err, m1)
      | None =>
          match ReadAll journalFile with
          | (_, Some err) => Some (Some err, m1)
          | (events, None) => replay snapshotTS events m1
          end
      end
  end.

End Snapshotter.


(* ================================================================== *)
(** * Notions the statements use *)

(** An event as the manager journals it: one of the two tags, a clock
    reading, and the payload of the tag in range. *)
Definition wf_event (e : MatchingEvent) : Prop :=
  is_i64 (ev_Timestamp e) /\
  ((ev_Type e = EventNewOrder /\ wf_Order (ev_Order e)) \/
   (ev_Type e = EventCancelOrder /\ is_u64 (ev_OrderID e))).

(** What a record keeps of an event: the field of the other tag is not
    written, and reads back as Go's zero value. *)
Definition stored (e : MatchingEvent) : MatchingEvent :=
  if ev_Type e =? EventNewOrder
  then {| ev_Type := ev_Type e; ev_Timestamp := ev_Timestamp e;
          ev_Order := ev_Order e; ev_OrderID := 0 |}
  else {| ev_Type := ev_Type e; ev_Timestamp := ev_Timestamp e;
          ev_Order := zeroOrder; ev_OrderID := ev_OrderID e |}.

(** The journal after appending [evs] to an empty file, every write
    succeeding. *)
Definition appended (evs : list MatchingEvent) : Journal :=
  fold_left (fun j e => (Append true e j).2) evs {| journal_bytes := [] |}.

Definition record_of (e : MatchingEvent) : list byte :=
  match encodeEvent e with
  | inr b => b
  | inl _ => []
  end.


(* ------------------------------------------------------------------ *)
(** ** The price-level index as an ordered sequence *)

(** What a level node carries besides its tree links. *)
Definition entry : Type := Level * OrderList.

Definition price_of (x : entry) : Z := Level_Price x.1.

(** The levels of a tree from [First] to [Last]. *)
Fixpoint inorder (t : LevelNode) : list entry :=
  match t with
  | Nil => []
  | Node l lv ol _ r => inorder l ++ (lv, ol) :: inorder r
  end.

Definition keys (t : LevelNode) : list Z := price_of <$> inorder t.

(** [before desc a b]: price [a] sorts in front of price [b]. *)
Definition before (desc : bool) (a b : Z) : Prop :=
  if desc then b < a else a < b.

Fixpoint sorted (desc : bool) (l : list Z) : Prop :=
  match l with
  | [] => True
  | x :: l' => Forall (before desc x) l' /\ sorted desc l'
  end.

(** The AVL invariant: every balance factor is the height difference of
    the children, and is -1, 0 or 1. *)
Fixpoint avl (t : LevelNode) : Prop :=
  match t with
  | Nil => True
  | Node l _ _ b r =>
      avl l /\ avl r /\ b = height r - height l /\ -1 <= b <= 1
  end.

Definition lefts1 (f : Frame) : list entry :=
  match f with
  | WentLeft _ _ _ _ => []
  | WentRight l lv ol _ => inorder l ++ [(lv, ol)]
  end.

Definition rights1 (f : Frame) : list entry :=
  match f with
  | WentLeft lv ol _ r => (lv, ol) :: inorder r
  | WentRight _ _ _ _ => []
  end.

(** The levels in front of and behind the subtree a path leads to. *)
Fixpoint lefts (path : list Frame) : list entry :=
  match path with
  | [] => []
  | f :: rest => lefts rest ++ lefts1 f
  end.

Fixpoint rights (path : list Frame) : list entry :=
  match path with
  | [] => []
  | f :: rest => rights1 f ++ rights rest
  end.

(** A path whose balance factors fit a subtree of height [h] below it. *)
Fixpoint avl_path (path : list Frame) (h : Z) : Prop :=
  match path with
  | [] => True
  | WentLeft _ _ b r :: rest =>
      avl r /\ b = height r - h /\ -1 <= b <= 1 /\
      avl_path rest (1 + Z.max h (height r))
  | WentRight l _ _ b :: rest =>
      avl l /\ b = h - height l /\ -1 <= b <= 1 /\
      avl_path rest (1 + Z.max (height l) h)
  end.

(** A well-formed index: an AVL tree whose levels are sorted by price
    in the direction the tree was created with. *)
Record tree_wf (t : AVLTree) : Prop := {
  wf_avl : avl (root t);
  wf_sorted : sorted (descending t) (keys (root t))
}.

(** The height of the tree that results from plugging a subtree of
    height [h] into a path. *)
Fixpoint path_height (path : list Frame) (h : Z) : Z :=
  match path with
  | [] => h
  | WentLeft _ _ _ r :: rest => path_height rest (1 + Z.max h (height r))
  | WentRight l _ _ _ :: rest => path_height rest (1 + Z.max (height l) h)
  end.

(* ------------------------------------------------------------------ *)
(** ** Well-formed order books *)

(** The direction each index is created with in [NewOrderBook]. *)
Definition desc_of (i : Index) : bool :=
  match i with
  | Bids | SellStops | TrailingSellStops => true
  | Asks | BuyStops | TrailingBuyStops => false
  end.

Definition levels (i : Index) (ob : OrderBook) : list entry :=
  inorder (root (tree_of i ob)).

(** Every index is a well-formed tree of its direction, and every best
    pointer points to the first level of its index (nil when the index is
    empty). *)
Record book_wf (ob : OrderBook) : Prop := {
  bw_tree : forall i, tree_wf (tree_of i ob);
  bw_desc : forall i, descending (tree_of i ob) = desc_of i;
  bw_best : forall i, best_of i ob = price_of <$> head (levels i ob)
}.

(** No resting cross: the best bid is below the best ask. *)
Definition uncrossed (ob : OrderBook) : Prop :=
  forall b a, bestBid ob = Some b -> bestAsk ob = Some a -> b < a.

(* ------------------------------------------------------------------ *)
(** ** The invariant of the market manager *)

(** A level of index [i] of the book registered under [book]: its list
    holds at least one order, every order once, [Size] counts them, and
    every order of the list is registered, belongs to the book, and points
    back to this level. *)
Definition level_ok (os : gmap Z OrderNode) (book : Z) (i : Index) (x : entry) : Prop :=
  nodes x.2 <> [] /\ NoDup (nodes x.2) /\
  Size x.2 = Z.of_nat (length (nodes x.2)) /\
  forall id, id ∈ nodes x.2 ->
    exists n, os !! id = Some n /\ node_Level n = Some (i, price_of x) /\
              SymbolID (node_Order n) = book.

(** A registered order: it is registered under its own ID, its book
    exists, and it is linked into the level its type, side and price route
    it to. *)
Definition order_ok (bs : gmap Z OrderBook) (id : Z) (n : OrderNode) : Prop :=
  ID (node_Order n) = id /\
  node_Level n = Some (index_of (node_Order n), route_price (node_Order n)) /\
  exists ob x, bs !! SymbolID (node_Order n) = Some ob /\
    x ∈ levels (index_of (node_Order n)) ob /\
    price_of x = route_price (node_Order n) /\ id ∈ nodes x.2.

(** The registry holds fewer than 2^64 orders (its keys are [uint64]
    values), every book is well formed, every level and every registered
    order is as above. *)
Record Inv_on (bs : gmap Z OrderBook) (os : gmap Z OrderNode) : Prop := {
  inv_size : Z.of_nat (size os) < 2 ^ 64;
  inv_books : forall k ob, bs !! k = Some ob -> book_wf ob;
  inv_levels : forall k ob i x, bs !! k = Some ob -> x ∈ levels i ob -> level_ok os k i x;
  inv_orders : forall id n, os !! id = Some n -> order_ok bs id n
}.

Definition Inv (m : MarketManager) : Prop := Inv_on (orderBooks m) (orders m).

Definition AllUncrossed (bs : gmap Z OrderBook) : Prop :=
  forall k ob, bs !! k = Some ob -> uncrossed ob.

(** [shrunk ob ob']: every price level of [ob'] is a price level of
    [ob]. *)
Definition shrunk (ob ob' : OrderBook) : Prop :=
  forall i y, y ∈ levels i ob' -> exists z, z ∈ levels i ob /\ price_of z = price_of y.

(** Events appended to the handler's trace. *)
Definition emits (evs : list Event) (m : MarketManager) : MarketManager :=
  {| handler := handler m ++ evs; symbols := symbols m; orderBooks := orderBooks m;
     orders := orders m; matching := matching m |}.

(** The [top] flag [updateLevel] computes for an order on level [ref]. *)
Definition top_of (ob : OrderBook) (o : Order) (ref : LevelRef) : bool :=
  if IsBuy o
  then bool_decide (fst ref = Bids ∧ bestBid ob = Some (snd ref))
  else bool_decide (fst ref = Asks ∧ bestAsk ob = Some (snd ref)).

(* ------------------------------------------------------------------ *)
(** ** Sequences of operations *)

(** The state-changing methods of [MarketManager]. *)
Inductive Op :=
| OpEnableMatching
| OpDisableMatching
| OpAddSymbol (s : Symbol)
| OpDeleteSymbol (id : Z)
| OpAddOrderBook (s : Symbol)
| OpDeleteOrderBook (id : Z)
| OpAddOrder (o : Order)
| OpReduceOrder (id quantity : Z)
| OpModifyOrder (id newPrice newQuantity : Z)
| OpMitigateOrder (id newPrice newQuantity : Z)
| OpReplaceOrder (id newID newPrice newQuantity : Z)
| OpDeleteOrder (id : Z)
| OpExecuteOrder (id quantity : Z)
| OpExecuteOrderWithPrice (id price quantity : Z)
| OpMatch (symbolID : Z).

Definition run_op (op : Op) (m : MarketManager) : option (ErrorCode * MarketManager) :=
  match op with
  | OpEnableMatching => Some (ErrorOK, EnableMatching m)
  | OpDisableMatching => Some (ErrorOK, DisableMatching m)
  | OpAddSymbol s => Some (AddSymbol s m)
  | OpDeleteSymbol id => DeleteSymbol id m
  | OpAddOrderBook s => Some (AddOrderBook s m)
  | OpDeleteOrderBook id => DeleteOrderBook id m
  | OpAddOrder o => AddOrder o m
  | OpReduceOrder id q => ReduceOrder id q m
  | OpModifyOrder id p q => ModifyOrder id p q m
  | OpMitigateOrder id p q => MitigateOrder id p q m
  | OpReplaceOrder id newID p q => ReplaceOrder id newID p q m
  | OpDeleteOrder id => DeleteOrder id m
  | OpExecuteOrder id q => ExecuteOrder id q m
  | OpExecuteOrderWithPrice id p q => ExecuteOrderWithPrice id p q m
  | OpMatch s => Match s m
  end.

(** The calls of a sequence one after the other, each return code
    dropped ([EnableMatching] and [DisableMatching] return nothing, and
    count as [ErrorOK]); [None] when a call panics. *)
Fixpoint run_ops (ops : list Op) (m : MarketManager) : option MarketManager :=
  match ops with
  | [] => Some m
  | op :: rest => '(_, m') ← run_op op m; run_ops rest m'
  end.

(* ------------------------------------------------------------------ *)
(** ** Relations between the states before and after an operation *)

(** The callbacks of one [updateLevel] call. *)
Definition level_events (book : Z) (ut : UpdateType) (lv : Level) (top : bool)
    : list Event :=
  match ut with
  | UpdateAdd => [OnAddLevel book lv top]
  | UpdateUpdate => [OnUpdateLevel book lv top]
  | UpdateDelete => [OnDeleteLevel book lv top]
  | UpdateNone => []
  end ++ [OnUpdateOrderBook book top].

(** [m'] is [m] but for the book registered under [b], the registry and
    the handler's trace; the trace has only grown. *)
Record touches_book (b : Z) (m m' : MarketManager) : Prop := {
  tb_symbols : symbols m' = symbols m;
  tb_matching : matching m' = matching m;
  tb_books : forall k, k <> b -> orderBooks m' !! k = orderBooks m !! k;
  tb_trace : exists evs, handler m' = handler m ++ evs
}.

(** What every operation keeps, from the state [m] it is called in to
    the state [m'] it returns with [code]: the invariant; a registry that
    grew by one order at most; a trace that only grew; nothing changed
    when the code is an error; and, while matching is enabled, no book
    crossed. *)
Record op_ok (m : MarketManager) (code : ErrorCode) (m' : MarketManager) : Prop := {
  ok_inv : Inv m';
  ok_size : (size (orders m') <= S (size (orders m)))%nat;
  ok_trace : exists evs, handler m' = handler m ++ evs;
  ok_error : code <> ErrorOK -> m' = m;
  ok_uncrossed :
    matching m = true -> AllUncrossed (orderBooks m) -> AllUncrossed (orderBooks m')
}.

(** The tail [ModifyOrder] and [MitigateOrder] share once the new
    fields [o'] of the order are known: off the book, fields written,
    back on the book, matching. *)
Definition relink (orderNode : OrderNode) (o' : Order) (m : MarketManager)
    : option (ErrorCode * MarketManager) :=
  let book := SymbolID (node_Order orderNode) in
  ob ← orderBooks m !! book;
  m1 ← updateLevel book orderNode UpdateDelete m;
  ob1 ← OrderBook_DeleteOrder ob orderNode;
  '(n', m2) ← link_order book ob1 o' m1;
  m3 ← updateLevel book n' UpdateAdd (emit (OnUpdateOrder o') m2);
  m4 ← match_if_enabled book m3;
  Some (ErrorOK, m4).

(* ------------------------------------------------------------------ *)
(** ** Sample values *)

(** An ascending tree built by four insertions, the third of which
    rotates. *)
Definition sample_tree : AVLTree :=
  Eval vm_compute in
    default (NewAVLTree false)
      (t1 ← Insert (NewAVLTree false) (NewLevelNode LevelTypeAsk 30);
       t2 ← Insert t1 (NewLevelNode LevelTypeAsk 20);
       t3 ← Insert t2 (NewLevelNode LevelTypeAsk 10);
       Insert t3 (NewLevelNode LevelTypeAsk 40)).

Definition sample_level (p : Z) : entry := (NewLevel LevelTypeAsk p, emptyOrderList).

(** A manager with one symbol and its book, two bids at the same price
    and an ask above them. *)
Definition sample_symbol : Symbol := {| Symbol_ID := 1; Symbol_Name := [x41; x42] |}.

Definition sample_bid1 : Order := NewLimitOrder 1 1 OrderSideBuy 100 10.
Definition sample_bid2 : Order := NewLimitOrder 2 1 OrderSideBuy 100 5.
Definition sample_ask : Order := NewLimitOrder 3 1 OrderSideSell 105 7.

Definition sample_ops : list Op :=
  [OpAddSymbol sample_symbol; OpAddOrderBook sample_symbol;
   OpAddOrder sample_bid1; OpAddOrder sample_bid2; OpAddOrder sample_ask].

Definition sample_manager : MarketManager :=
  default NewMarketManager (run_ops sample_ops NewMarketManager).

Definition sample_book : OrderBook :=
  default (NewOrderBook sample_symbol) (orderBooks sample_manager !! 1).

(** The level of the two sample bids, and the node of the first. *)
Definition sample_bid_level : entry :=
  default (sample_level 100) (deref sample_book (Bids, 100)).

Definition sample_bid1_node : OrderNode :=
  {| node_Order := sample_bid1; node_Level := Some (Bids, 100) |}.

(** The order [ReplaceOrder] builds from the order [o] it replaces. *)
Definition replacement (o : Order) (newID newPrice newQuantity : Z) : Order :=
  {| ID := newID; SymbolID := SymbolID o; Type_ := Type_ o; Side := Side o;
     Price := newPrice; StopPrice := StopPrice o; Quantity := newQuantity;
     ExecutedQuantity := 0; LeavesQuantity := newQuantity;
     TimeInForce := TimeInForce o; MaxVisible := MaxVisible o;
     Slippage := Slippage o; TrailingDistance := TrailingDistance o;
     TrailingStep := TrailingStep o |}.

(* ------------------------------------------------------------------ *)
(** ** Snapshots as the file format keeps them *)

(** A snapshot the wire format has room for: a clock reading, symbol
    IDs and order fields of Go's types, and counts that fit the two
    [uint32] count fields. *)
Record wf_Snapshot (snap : Snapshot) : Prop := {
  wf_Timestamp : is_i64 (snap_Timestamp snap);
  wf_Symbols : Forall (fun s => is_u32 (Symbol_ID s)) (snap_Symbols snap);
  wf_Orders : Forall wf_Order (snap_Orders snap);
  wf_symbol_count : Z.of_nat (length (snap_Symbols snap)) < 2 ^ 32;
  wf_order_count : Z.of_nat (length (snap_Orders snap)) < 2 ^ 32
}.

(** What the file keeps of a symbol: the first 255 bytes of its name. *)
Definition stored_symbol (s : Symbol) : Symbol :=
  {| Symbol_ID := Symbol_ID s; Symbol_Name := firstn 255 (Symbol_Name s) |}.

Definition stored_snapshot (snap : Snapshot) : Snapshot :=
  {| snap_Timestamp := snap_Timestamp snap;
     snap_Symbols := stored_symbol <$> snap_Symbols snap;
     snap_Orders := snap_Orders snap |}.

Definition sample_snapshot : Snapshot :=
  {| snap_Timestamp := -5;
     snap_Symbols := [sample_symbol; {| Symbol_ID := 2; Symbol_Name := [] |}];
     snap_Orders := [sample_bid1; sample_ask] |}.

(** The event [Manager.AddOrder] journals for an order at clock reading
    [now]. *)
Definition new_order_event (now : Z) (o : Order) : MatchingEvent :=
  {| ev_Type := EventNewOrder; ev_Timestamp := now; ev_Order := o; ev_OrderID := 0 |}.

(** An order [validateOrder] rejects: its quantity is 0. *)
Definition sample_rejected : Order := NewLimitOrder 8 1 OrderSideBuy 100 0.


(* ================================================================== *)
(** * Proofs: bytes and big-endian integers *)

Section Bytes.

Lemma byte_to_Z_range (b : byte) : 0 <= byte_to_Z b < 256.
Proof.
  unfold byte_to_Z. pose proof (Byte.to_N_bounded b). lia.
Qed.

Lemma byte_of_to_Z (b : byte) : byte_of_Z (byte_to_Z b) = b.
Proof.
  unfold byte_of_Z. pose proof (byte_to_Z_range b) as Hr.
  rewrite Z.mod_small by lia. unfold byte_to_Z.
  rewrite N2Z.id, Byte.of_to_N. reflexivity.
Qed.

Lemma byte_to_of_Z (z : Z) : byte_to_Z (byte_of_Z z) = z mod 256.
Proof.
  unfold byte_of_Z, byte_to_Z.
  pose proof (Z.mod_pos_bound z 256 ltac:(lia)) as Hr.
  destruct (Byte.of_N (Z.to_N (z mod 256))) as [b|] eqn:E.
  - apply Byte.to_of_N in E. rewrite E. lia.
  - apply Byte.of_N_None_iff in E. lia.
Qed.

Lemma byte_to_of_Z_small (z : Z) : is_u8 z -> byte_to_Z (byte_of_Z z) = z.
Proof.
  unfold is_u8. intros Hz. rewrite byte_to_of_Z. apply Z.mod_small. lia.
Qed.

Lemma be_bytes_length (n : nat) (v : Z) : length (be_bytes n v) = n.
Proof. induction n as [|n IH]; simpl; [reflexivity | now rewrite IH]. Qed.

Lemma be_value_snoc (bs : list byte) (b : byte) :
  be_value (bs ++ [b]) = be_value bs * 256 + byte_to_Z b.
Proof. unfold be_value. now rewrite fold_left_app. Qed.

(** Reading from an accumulator: the fold is linear in its start value. *)
Lemma be_fold_acc (bs : list byte) (a : Z) :
  fold_left (fun acc b => acc * 256 + byte_to_Z b) bs a
  = a * 2 ^ (8 * Z.of_nat (length bs)) + be_value bs.
Proof.
  unfold be_value. revert a.
  induction bs as [|b bs IH]; intros a.
  - simpl. lia.
  - cbn [fold_left length]. rewrite IH, (IH (0 * 256 + byte_to_Z b)).
    replace (8 * Z.of_nat (S (length bs))) with (8 + 8 * Z.of_nat (length bs)) by lia.
    rewrite Z.pow_add_r by lia. change (2 ^ 8) with 256. ring.
Qed.

Lemma be_value_cons (b : byte) (bs : list byte) :
  be_value (b :: bs) = byte_to_Z b * 2 ^ (8 * Z.of_nat (length bs)) + be_value bs.
Proof.
  unfold be_value at 1. cbn [fold_left]. rewrite be_fold_acc. f_equal.
Qed.

Lemma be_value_range (bs : list byte) :
  0 <= be_value bs < 2 ^ (8 * Z.of_nat (length bs)).
Proof.
  induction bs as [|b bs IH].
  - unfold be_value. simpl. lia.
  - rewrite be_value_cons. pose proof (byte_to_Z_range b) as Hb.
    replace (8 * Z.of_nat (length (b :: bs))) with (8 + 8 * Z.of_nat (length bs))
      by (cbn [length]; lia).
    rewrite Z.pow_add_r by lia. change (2 ^ 8) with 256.
    set (P := 2 ^ (8 * Z.of_nat (length bs))) in *. nia.
Qed.

Lemma be_value_be_bytes (n : nat) (v : Z) :
  be_value (be_bytes n v) = v mod 2 ^ (8 * Z.of_nat n).
Proof.
  induction n as [|n IH].
  - unfold be_value. simpl. now rewrite Z.mod_1_r.
  - cbn [be_bytes]. rewrite be_value_cons, be_bytes_length, IH, byte_to_of_Z.
    rewrite Z.shiftr_div_pow2 by lia.
    set (P := 2 ^ (8 * Z.of_nat n)).
    assert (HP : 0 < P) by (apply Z.pow_pos_nonneg; lia).
    replace (2 ^ (8 * Z.of_nat (S n))) with (P * 256).
    2:{ unfold P. replace (8 * Z.of_nat (S n)) with (8 * Z.of_nat n + 8) by lia.
        rewrite Z.pow_add_r by lia. reflexivity. }
    rewrite Z.rem_mul_r by lia. lia.
Qed.

(** The [n] low bytes depend on the value modulo [2^(8n)] only. *)
Lemma be_bytes_mod (n : nat) (v w : Z) :
  v mod 2 ^ (8 * Z.of_nat n) = w mod 2 ^ (8 * Z.of_nat n) ->
  be_bytes n v = be_bytes n w.
Proof.
  revert v w. induction n as [|n IH]; intros v w Hvw; [reflexivity|].
  cbn [be_bytes].
  assert (H8 : 2 ^ (8 * Z.of_nat (S n)) = 2 ^ (8 * Z.of_nat n) * 256).
  { replace (8 * Z.of_nat (S n)) with (8 * Z.of_nat n + 8) by lia.
    rewrite Z.pow_add_r by lia. reflexivity. }
  rewrite H8 in Hvw.
  assert (HQ : 0 < 2 ^ (8 * Z.of_nat n)) by (apply Z.pow_pos_nonneg; lia).
  rewrite !Z.rem_mul_r in Hvw by lia.
  set (Q := 2 ^ (8 * Z.of_nat n)) in *.
  pose proof (Z.mod_pos_bound v Q HQ). pose proof (Z.mod_pos_bound w Q HQ).
  pose proof (Z.mod_pos_bound (v / Q) 256 ltac:(lia)).
  pose proof (Z.mod_pos_bound (w / Q) 256 ltac:(lia)).
  assert (Hhigh : (v / Q) mod 256 = (w / Q) mod 256).
  { destruct (Z.lt_trichotomy ((v / Q) mod 256) ((w / Q) mod 256)) as [Hc|[Hc|Hc]];
      [exfalso; nia | exact Hc | exfalso; nia]. }
  assert (Hlow : v mod Q = w mod Q) by (rewrite Hhigh in Hvw; lia).
  f_equal.
  - unfold byte_of_Z. rewrite !Z.shiftr_div_pow2 by lia. fold Q. now rewrite Hhigh.
  - apply IH. exact Hlow.
Qed.

Lemma be_bytes_be_value (bs : list byte) :
  be_bytes (length bs) (be_value bs) = bs.
Proof.
  induction bs as [|b bs IH]; [reflexivity|].
  cbn [length be_bytes]. rewrite be_value_cons.
  pose proof (be_value_range bs) as Hr. pose proof (byte_to_Z_range b) as Hb.
  set (P := 2 ^ (8 * Z.of_nat (length bs))) in *.
  assert (HP : 0 < P) by (apply Z.pow_pos_nonneg; lia).
  f_equal.
  - rewrite Z.shiftr_div_pow2 by lia. fold P.
    rewrite Z.div_add_l by lia. rewrite Z.div_small by lia.
    rewrite Z.add_0_r. apply byte_of_to_Z.
  - transitivity (be_bytes (length bs) (be_value bs)); [|exact IH].
    apply be_bytes_mod. fold P.
    rewrite Z.add_comm, Z.mod_add by lia. reflexivity.
Qed.

Lemma Uint64_PutUint64 (v : Z) : is_u64 v -> Uint64 (PutUint64 v) = v.
Proof.
  unfold is_u64, Uint64, PutUint64. intros Hv.
  rewrite firstn_all2 by (rewrite be_bytes_length; lia).
  rewrite be_value_be_bytes. apply Z.mod_small. exact Hv.
Qed.

Lemma Uint32_PutUint32 (v : Z) : is_u32 v -> Uint32 (PutUint32 v) = v.
Proof.
  unfold is_u32, Uint32, PutUint32. intros Hv.
  rewrite firstn_all2 by (rewrite be_bytes_length; lia).
  rewrite be_value_be_bytes. apply Z.mod_small. exact Hv.
Qed.

Lemma PutUint64_Uint64 (bs : list byte) : length bs = 8%nat -> PutUint64 (Uint64 bs) = bs.
Proof.
  intros Hl. unfold PutUint64, Uint64.
  rewrite firstn_all2 by lia. rewrite <- Hl. apply be_bytes_be_value.
Qed.

Lemma PutUint32_Uint32 (bs : list byte) : length bs = 4%nat -> PutUint32 (Uint32 bs) = bs.
Proof.
  intros Hl. unfold PutUint32, Uint32.
  rewrite firstn_all2 by lia. rewrite <- Hl. apply be_bytes_be_value.
Qed.

Lemma Uint64_range (bs : list byte) : is_u64 (Uint64 bs).
Proof.
  unfold is_u64, Uint64. pose proof (be_value_range (firstn 8 bs)) as Hr.
  assert (Hl : (length (firstn 8 bs) <= 8)%nat) by (rewrite length_firstn; lia).
  assert (2 ^ (8 * Z.of_nat (length (firstn 8 bs))) <= 2 ^ 64).
  { apply Z.pow_le_mono_r; lia. }
  lia.
Qed.

Lemma Uint32_range (bs : list byte) : is_u32 (Uint32 bs).
Proof.
  unfold is_u32, Uint32. pose proof (be_value_range (firstn 4 bs)) as Hr.
  assert (Hl : (length (firstn 4 bs) <= 4)%nat) by (rewrite length_firstn; lia).
  assert (2 ^ (8 * Z.of_nat (length (firstn 4 bs))) <= 2 ^ 32).
  { apply Z.pow_le_mono_r; lia. }
  lia.
Qed.

Lemma int64_u64_roundtrip (z : Z) : is_i64 z -> int64_of_u64 (u64 z) = z.
Proof.
  unfold is_i64, int64_of_u64, u64. intros Hz.
  destruct (Z.ltb_spec (z mod 2 ^ 64) (2 ^ 63)) as [Hlt|Hge].
  - destruct (Z.ltb_spec z 0).
    + rewrite <- (Z.mod_add z 1 (2 ^ 64)) in Hlt by lia.
      rewrite Z.mod_small in Hlt by lia. lia.
    + apply Z.mod_small. lia.
  - destruct (Z.ltb_spec z 0).
    + rewrite <- (Z.mod_add z 1 (2 ^ 64)) by lia. rewrite Z.mod_small by lia. lia.
    + rewrite Z.mod_small in Hge by lia. lia.
Qed.

Lemma u64_int64_roundtrip (z : Z) : is_u64 z -> u64 (int64_of_u64 z) = z.
Proof.
  unfold is_u64, int64_of_u64, u64. intros Hz.
  destruct (Z.ltb_spec z (2 ^ 63)).
  - apply Z.mod_small. lia.
  - rewrite <- (Z.mod_add _ 1 (2 ^ 64)) by lia.
    replace (z - 2 ^ 64 + 1 * 2 ^ 64) with z by lia. apply Z.mod_small. lia.
Qed.

Lemma int64_of_u64_range (z : Z) : is_u64 z -> is_i64 (int64_of_u64 z).
Proof.
  unfold is_u64, is_i64, int64_of_u64. intros Hz.
  destruct (Z.ltb_spec z (2 ^ 63)); lia.
Qed.

End Bytes.

(* ================================================================== *)
(** * Proofs: the order wire codec *)

Section OrderCodec.

Lemma PutUint64_length (v : Z) : length (PutUint64 v) = 8%nat.
Proof. apply be_bytes_length. Qed.

Lemma PutUint32_length (v : Z) : length (PutUint32 v) = 4%nat.
Proof. apply be_bytes_length. Qed.

Lemma slice_app_l (n : nat) (l1 l2 : list byte) :
  length l1 = n -> slice 0 n (l1 ++ l2) = l1.
Proof.
  intros Hl. unfold slice. rewrite Nat.sub_0_r. cbn [skipn].
  subst n. apply take_app_length.
Qed.

Lemma slice_app_r (n lo hi : nat) (l1 l2 : list byte) :
  length l1 = n -> (n <= lo)%nat ->
  slice lo hi (l1 ++ l2) = slice (lo - n) (hi - n) l2.
Proof.
  intros Hl Hlo. unfold slice.
  replace (hi - n - (lo - n))%nat with (hi - lo)%nat by lia.
  f_equal. rewrite skipn_app, Hl.
  rewrite skipn_all2 by lia. reflexivity.
Qed.

Lemma nth_app_r (n i : nat) (l1 l2 : list byte) :
  length l1 = n -> (n <= i)%nat -> nth i (l1 ++ l2) x00 = nth (i - n) l2 x00.
Proof. intros Hl Hi. rewrite app_nth2 by lia. now rewrite Hl. Qed.

Lemma slice_length (lo hi : nat) (b : list byte) :
  (hi <= length b)%nat -> length (slice lo hi b) = (hi - lo)%nat.
Proof. intros H. unfold slice. rewrite length_firstn, length_skipn. lia. Qed.

Lemma marshalOrder_length (o : Order) : length (marshalOrder o) = orderWireSize.
Proof.
  unfold marshalOrder. rewrite !length_app, !PutUint64_length, PutUint32_length.
  reflexivity.
Qed.

(** Reading a buffer laid out as fourteen fields of the wire sizes. *)
Lemma unmarshalOrder_fields (f1 f2 f3 f4 f5 f6 f7 f8 f9 f10 f11 f12 f13 f14 : list byte) :
  length f1 = 8%nat -> length f2 = 4%nat -> length f3 = 1%nat -> length f4 = 1%nat ->
  length f5 = 8%nat -> length f6 = 8%nat -> length f7 = 8%nat -> length f8 = 8%nat ->
  length f9 = 8%nat -> length f10 = 1%nat -> length f11 = 8%nat -> length f12 = 8%nat ->
  length f13 = 8%nat -> length f14 = 8%nat ->
  unmarshalOrder (f1 ++ f2 ++ f3 ++ f4 ++ f5 ++ f6 ++ f7 ++ f8 ++ f9 ++ f10 ++ f11 ++
                  f12 ++ f13 ++ f14)
  = Some {| ID := Uint64 f1; SymbolID := Uint32 f2;
            Type_ := byte_to_Z (nth 0 f3 x00); Side := byte_to_Z (nth 0 f4 x00);
            Price := Uint64 f5; StopPrice := Uint64 f6; Quantity := Uint64 f7;
            ExecutedQuantity := Uint64 f8; LeavesQuantity := Uint64 f9;
            TimeInForce := byte_to_Z (nth 0 f10 x00);
            MaxVisible := Uint64 f11; Slippage := Uint64 f12;
            TrailingDistance := int64_of_u64 (Uint64 f13);
            TrailingStep := int64_of_u64 (Uint64 f14) |}.
Proof.
  intros H1 H2 H3 H4 H5 H6 H7 H8 H9 H10 H11 H12 H13 H14.
  unfold unmarshalOrder.
  assert (Hlen : length (f1 ++ f2 ++ f3 ++ f4 ++ f5 ++ f6 ++ f7 ++ f8 ++ f9 ++ f10 ++
                         f11 ++ f12 ++ f13 ++ f14) = orderWireSize).
  { rewrite !length_app, H1, H2, H3, H4, H5, H6, H7, H8, H9, H10, H11, H12, H13, H14.
    reflexivity. }
  rewrite Hlen. change (orderWireSize <? orderWireSize)%nat with false. cbn match.
  assert (Hnth : forall (f r : list byte), length f = 1%nat -> nth 0 (f ++ r) x00 = nth 0 f x00).
  { intros [|x [|y f]] r Hf; try discriminate Hf. reflexivity. }
  assert (Hend : slice 0 8 f14 = f14).
  { unfold slice. cbn [skipn]. apply firstn_all2. lia. }
  f_equal. f_equal.
  - now rewrite slice_app_l.
  - rewrite (slice_app_r 8) by (assumption || lia). cbn [Nat.sub]. now rewrite slice_app_l.
  - rewrite (nth_app_r 8), (nth_app_r 4) by (assumption || (cbn; lia)). cbn [Nat.sub]. now rewrite Hnth.
  - rewrite (nth_app_r 8), (nth_app_r 4), (nth_app_r 1) by (assumption || (cbn; lia)).
    cbn [Nat.sub]. now rewrite Hnth.
  - rewrite (slice_app_r 8), (slice_app_r 4), (slice_app_r 1), (slice_app_r 1)
      by (assumption || (cbn; lia)).
    cbn [Nat.sub]. now rewrite slice_app_l.
  - rewrite (slice_app_r 8), (slice_app_r 4), (slice_app_r 1), (slice_app_r 1),
      (slice_app_r 8) by (assumption || (cbn; lia)).
    cbn [Nat.sub]. now rewrite slice_app_l.
  - rewrite (slice_app_r 8), (slice_app_r 4), (slice_app_r 1), (slice_app_r 1),
      (slice_app_r 8), (slice_app_r 8) by (assumption || (cbn; lia)).
    cbn [Nat.sub]. now rewrite slice_app_l.
  - rewrite (slice_app_r 8), (slice_app_r 4), (slice_app_r 1), (slice_app_r 1),
      (slice_app_r 8), (slice_app_r 8), (slice_app_r 8) by (assumption || (cbn; lia)).
    cbn [Nat.sub]. now rewrite slice_app_l.
  - rewrite (slice_app_r 8), (slice_app_r 4), (slice_app_r 1), (slice_app_r 1),
      (slice_app_r 8), (slice_app_r 8), (slice_app_r 8), (slice_app_r 8)
      by (assumption || (cbn; lia)).
    cbn [Nat.sub]. now rewrite slice_app_l.
  - rewrite (nth_app_r 8), (nth_app_r 4), (nth_app_r 1), (nth_app_r 1), (nth_app_r 8),
      (nth_app_r 8), (nth_app_r 8), (nth_app_r 8), (nth_app_r 8)
      by (assumption || (cbn; lia)).
    cbn [Nat.sub]. now rewrite Hnth.
  - rewrite (slice_app_r 8), (slice_app_r 4), (slice_app_r 1), (slice_app_r 1),
      (slice_app_r 8), (slice_app_r 8), (slice_app_r 8), (slice_app_r 8), (slice_app_r 8),
      (slice_app_r 1) by (assumption || (cbn; lia)).
    cbn [Nat.sub]. now rewrite slice_app_l.
  - rewrite (slice_app_r 8), (slice_app_r 4), (slice_app_r 1), (slice_app_r 1),
      (slice_app_r 8), (slice_app_r 8), (slice_app_r 8), (slice_app_r 8), (slice_app_r 8),
      (slice_app_r 1), (slice_app_r 8) by (assumption || (cbn; lia)).
    cbn [Nat.sub]. now rewrite slice_app_l.
  - rewrite (slice_app_r 8), (slice_app_r 4), (slice_app_r 1), (slice_app_r 1),
      (slice_app_r 8), (slice_app_r 8), (slice_app_r 8), (slice_app_r 8), (slice_app_r 8),
      (slice_app_r 1), (slice_app_r 8), (slice_app_r 8) by (assumption || (cbn; lia)).
    cbn [Nat.sub]. now rewrite slice_app_l.
  - rewrite (slice_app_r 8), (slice_app_r 4), (slice_app_r 1), (slice_app_r 1),
      (slice_app_r 8), (slice_app_r 8), (slice_app_r 8), (slice_app_r 8), (slice_app_r 8),
      (slice_app_r 1), (slice_app_r 8), (slice_app_r 8), (slice_app_r 8)
      by (assumption || (cbn; lia)).
    cbn [Nat.sub]. now rewrite Hend.
Qed.

Lemma unmarshal_marshal (o : Order) :
  wf_Order o -> unmarshalOrder (marshalOrder o) = Some o.
Proof.
  intros [H1 H2 H3 H4 H5 H6 H7 H8 H9 H10 H11 H12 H13 H14].
  destruct o as [i s t sd p sp q e l tif mv sl td ts]. cbn [ID SymbolID Type_ Side
    Price StopPrice Quantity ExecutedQuantity LeavesQuantity TimeInForce MaxVisible
    Slippage TrailingDistance TrailingStep] in *.
  unfold marshalOrder. cbn [ID SymbolID Type_ Side
    Price StopPrice Quantity ExecutedQuantity LeavesQuantity TimeInForce MaxVisible
    Slippage TrailingDistance TrailingStep].
  rewrite unmarshalOrder_fields
    by (lazymatch goal with
        | |- length (PutUint64 _) = _ => apply PutUint64_length
        | |- length (PutUint32 _) = _ => apply PutUint32_length
        | |- length (cons _ nil) = _ => exact eq_refl
        end).
  cbn [nth].
  rewrite !Uint64_PutUint64, Uint32_PutUint32, !byte_to_of_Z_small,
    !int64_u64_roundtrip; try assumption.
  - reflexivity.
  - unfold is_u64, u64. apply Z.mod_pos_bound. lia.
  - unfold is_u64, u64. apply Z.mod_pos_bound. lia.
Qed.

Lemma marshal_unmarshal (buf : list byte) :
  length buf = orderWireSize ->
  exists o, unmarshalOrder buf = Some o /\ marshalOrder o = buf.
Proof.
  intros Hlen. unfold unmarshalOrder. rewrite Hlen.
  change (orderWireSize <? orderWireSize)%nat with false. cbn match.
  eexists; split; [reflexivity|].
  unfold orderWireSize in Hlen.
  do 87 (destruct buf as [|? buf]; [discriminate Hlen|]).
  destruct buf; [|discriminate Hlen]. clear Hlen.
  unfold marshalOrder. cbn [ID SymbolID Type_ Side
    Price StopPrice Quantity ExecutedQuantity LeavesQuantity TimeInForce MaxVisible
    Slippage TrailingDistance TrailingStep].
  rewrite !u64_int64_roundtrip by apply Uint64_range.
  rewrite !PutUint64_Uint64 by reflexivity.
  rewrite !PutUint32_Uint32 by reflexivity.
  rewrite !byte_of_to_Z.
  reflexivity.
Qed.

(** A decoded order is an [Order] of Go's types. *)
Lemma unmarshalOrder_wf (buf : list byte) (o : Order) :
  unmarshalOrder buf = Some o -> wf_Order o.
Proof.
  unfold unmarshalOrder. destruct (length buf <? orderWireSize)%nat; [discriminate|].
  intros [= <-].
  split; cbn; try apply Uint64_range; try apply Uint32_range;
    try (apply int64_of_u64_range, Uint64_range);
    unfold is_u8; change (2 ^ 8) with 256; apply byte_to_Z_range.
Qed.

End OrderCodec.


(* ================================================================== *)
(** * Proofs: journal records and [ReadAll] *)

Section Journal.

Lemma ReadFull_app (n : nat) (a r : list byte) :
  length a = n -> n <> 0%nat -> ReadFull n (a ++ r) = inr (a, r).
Proof.
  intros Hl Hn. unfold ReadFull.
  destruct (Nat.eqb_spec n 0) as [|_]; [contradiction|].
  rewrite length_app.
  destruct (Nat.eqb_spec (length a + length r) 0) as [H0|_]; [lia|].
  destruct (Nat.ltb_spec (length a + length r) n) as [Hlt|_]; [lia|].
  subst n. now rewrite take_app_length, drop_app_length.
Qed.

Lemma ReadFull_short (n : nat) (r : list byte) :
  (length r < n)%nat ->
  ReadFull n r = inl (if (length r =? 0)%nat then EOF else ErrUnexpectedEOF).
Proof.
  intros Hl. unfold ReadFull.
  destruct (Nat.eqb_spec n 0) as [|_]; [lia|].
  destruct (Nat.eqb_spec (length r) 0) as [|_]; [reflexivity|].
  destruct (Nat.ltb_spec (length r) n) as [_|]; [reflexivity|lia].
Qed.

Lemma appended_bytes (evs : list MatchingEvent) (j : Journal) :
  Forall wf_event evs ->
  journal_bytes (fold_left (fun j e => (Append true e j).2) evs j)
  = journal_bytes j ++ concat (record_of <$> evs).
Proof.
  intros Hwf. revert j. induction Hwf as [|e evs He _ IH]; intros j.
  - cbn. now rewrite app_nil_r.
  - cbn [fold_left fmap list_fmap concat]. rewrite IH.
    unfold Append, record_of.
    destruct He as [_ [[Ht _]|[Ht _]]]; unfold encodeEvent; rewrite Ht; cbn;
      now rewrite <- app_assoc.
Qed.

Lemma record_length (e : MatchingEvent) :
  wf_event e -> (13 <= length (record_of e))%nat.
Proof.
  intros [_ [[Ht _]|[Ht _]]]; unfold record_of, encodeEvent; rewrite Ht; cbn -[marshalOrder];
    rewrite ?length_app, ?marshalOrder_length; cbn; lia.
Qed.

(** One record, whatever follows it, decodes to the event it stores. *)
Lemma decodeEvent_record (e : MatchingEvent) (rest : list byte) :
  wf_event e -> decodeEvent (record_of e ++ rest) = inr (stored e, rest).
Proof.
  intros [Hts [[Ht Ho]|[Ht Hid]]]; unfold record_of, encodeEvent, stored; rewrite Ht.
  - change (EventNewOrder =? EventNewOrder) with true. cbn match.
    unfold decodeEvent. rewrite <- app_assoc.
    rewrite (ReadFull_app 4) by (try apply PutUint32_length; lia).
    rewrite Uint32_PutUint32 by (unfold is_u32, orderWireSize; lia).
    change (1 + 8 + Z.of_nat orderWireSize <? 9) with false. cbn match.
    change (Z.to_nat (1 + 8 + Z.of_nat orderWireSize)) with 96%nat.
    rewrite (ReadFull_app 96).
    2:{ cbn [length app]. rewrite length_app, PutUint64_length, marshalOrder_length.
        reflexivity. }
    2:{ lia. }
    cbn [nth app]. rewrite byte_to_of_Z_small by (unfold is_u8, EventNewOrder; lia).
    change (EventNewOrder =? EventNewOrder) with true. cbn match.
    assert (Hlen : length (byte_of_Z EventNewOrder
                     :: PutUint64 (u64 (ev_Timestamp e)) ++ marshalOrder (ev_Order e)) = 96%nat).
    { cbn [length]. rewrite length_app, PutUint64_length, marshalOrder_length. reflexivity. }
    rewrite Hlen. change (96 <? 9 + orderWireSize)%nat with false. cbn match.
    change (skipn 9 (byte_of_Z EventNewOrder
              :: PutUint64 (u64 (ev_Timestamp e)) ++ marshalOrder (ev_Order e)))
      with (skipn 8 (PutUint64 (u64 (ev_Timestamp e)) ++ marshalOrder (ev_Order e))).
    rewrite (drop_app_length' (PutUint64 _) _ 8) by (symmetry; exact (PutUint64_length _)).
    rewrite unmarshal_marshal by exact Ho.
    change (slice 1 9 (byte_of_Z EventNewOrder
              :: PutUint64 (u64 (ev_Timestamp e)) ++ marshalOrder (ev_Order e)))
      with (slice 0 8 (PutUint64 (u64 (ev_Timestamp e)) ++ marshalOrder (ev_Order e))).
    rewrite slice_app_l by exact (PutUint64_length _).
    rewrite Uint64_PutUint64 by (unfold is_u64, u64; apply Z.mod_pos_bound; lia).
    rewrite int64_u64_roundtrip by exact Hts. reflexivity.
  - change (EventCancelOrder =? EventNewOrder) with false.
    change (EventCancelOrder =? EventCancelOrder) with true. cbn match.
    unfold decodeEvent. rewrite <- app_assoc.
    rewrite (ReadFull_app 4) by (try apply PutUint32_length; lia).
    rewrite Uint32_PutUint32 by (unfold is_u32; lia).
    change (1 + 8 + 8 <? 9) with false. cbn match.
    change (Z.to_nat (1 + 8 + 8)) with 17%nat.
    rewrite (ReadFull_app 17).
    2:{ cbn [length app]. rewrite length_app, !PutUint64_length. reflexivity. }
    2:{ lia. }
    cbn [nth app]. rewrite byte_to_of_Z_small by (unfold is_u8, EventCancelOrder; lia).
    change (EventCancelOrder =? EventNewOrder) with false.
    change (EventCancelOrder =? EventCancelOrder) with true. cbn match.
    assert (Hlen : length (byte_of_Z EventCancelOrder
                     :: PutUint64 (u64 (ev_Timestamp e)) ++ PutUint64 (ev_OrderID e)) = 17%nat).
    { cbn [length]. rewrite length_app, !PutUint64_length. reflexivity. }
    rewrite Hlen. change (17 <? 17)%nat with false. cbn match.
    change (slice 9 17 (byte_of_Z EventCancelOrder
              :: PutUint64 (u64 (ev_Timestamp e)) ++ PutUint64 (ev_OrderID e)))
      with (slice 8 16 (PutUint64 (u64 (ev_Timestamp e)) ++ PutUint64 (ev_OrderID e))).
    rewrite (slice_app_r 8) by (try apply PutUint64_length; lia).
    change (slice (8 - 8) (16 - 8) (PutUint64 (ev_OrderID e)))
      with (firstn 8 (PutUint64 (ev_OrderID e))).
    rewrite firstn_all2 by (rewrite PutUint64_length; lia).
    change (slice 1 9 (byte_of_Z EventCancelOrder
              :: PutUint64 (u64 (ev_Timestamp e)) ++ PutUint64 (ev_OrderID e)))
      with (slice 0 8 (PutUint64 (u64 (ev_Timestamp e)) ++ PutUint64 (ev_OrderID e))).
    rewrite slice_app_l by exact (PutUint64_length _).
    rewrite !Uint64_PutUint64; [| exact Hid | unfold is_u64, u64; apply Z.mod_pos_bound; lia].
    rewrite int64_u64_roundtrip by exact Hts. reflexivity.
Qed.

(** The reader walks over whole records, one round each. *)
Lemma ReadAll_loop_records (evs : list MatchingEvent) :
  Forall wf_event evs ->
  forall (fuel : nat) (tail : list byte) (acc : list MatchingEvent),
  ReadAll_loop (length evs + fuel) (concat (record_of <$> evs) ++ tail) acc
  = ReadAll_loop fuel tail (acc ++ (stored <$> evs)).
Proof.
  induction 1 as [|e evs He _ IH]; intros fuel tail acc.
  - cbn. now rewrite app_nil_r.
  - cbn [length fmap list_fmap concat Nat.add ReadAll_loop].
    rewrite <- app_assoc, decodeEvent_record by exact He.
    rewrite IH. now rewrite <- app_assoc.
Qed.

Lemma records_length (evs : list MatchingEvent) :
  Forall wf_event evs -> (length evs <= length (concat (record_of <$> evs)))%nat.
Proof.
  induction 1 as [|e evs He _ IH]; cbn; [lia|].
  rewrite length_app. pose proof (record_length e He). lia.
Qed.

(** [ReadAll] on a journal of whole records followed by [tail]: the
    records, then whatever one more round of the loop makes of [tail]. *)
Lemma ReadAll_records_then (evs : list MatchingEvent) (tail : list byte) :
  Forall wf_event evs ->
  exists fuel : nat,
    ReadAll (Some (journal_bytes (appended evs) ++ tail))
    = ReadAll_loop (S fuel) tail (stored <$> evs).
Proof.
  intros Hwf. unfold ReadAll, appended.
  rewrite appended_bytes by exact Hwf. cbn [journal_bytes app].
  pose proof (records_length evs Hwf) as Hlen.
  set (content := concat (record_of <$> evs) ++ tail).
  assert (Hc : (length evs <= length content)%nat).
  { unfold content. rewrite length_app. lia. }
  exists (length content - length evs)%nat.
  replace (S (length content)) with (length evs + S (length content - length evs))%nat by lia.
  unfold content at 2. now rewrite ReadAll_loop_records.
Qed.

End Journal.

Section JournalTails.

Lemma decodeEvent_short_prefix (tail : list byte) :
  (length tail < 4)%nat ->
  decodeEvent tail = inl (if (length tail =? 0)%nat then EOF else ErrUnexpectedEOF).
Proof. intros H. unfold decodeEvent. now rewrite ReadFull_short. Qed.

Lemma decodeEvent_bad_length (lenBuf rest : list byte) :
  length lenBuf = 4%nat -> Uint32 lenBuf < 9 ->
  decodeEvent (lenBuf ++ rest) = inl (ErrInvalidRecordLength (Uint32 lenBuf)).
Proof.
  intros Hl Hlt. unfold decodeEvent. rewrite (ReadFull_app 4) by (assumption || lia).
  destruct (Z.ltb_spec (Uint32 lenBuf) 9); [reflexivity|lia].
Qed.

Lemma decodeEvent_short_payload (lenBuf rest : list byte) :
  length lenBuf = 4%nat -> 9 <= Uint32 lenBuf ->
  (length rest < Z.to_nat (Uint32 lenBuf))%nat ->
  decodeEvent (lenBuf ++ rest)
  = inl (ErrReadingPayload (if (length rest =? 0)%nat then EOF else ErrUnexpectedEOF)).
Proof.
  intros Hl Hge Hshort. unfold decodeEvent.
  rewrite (ReadFull_app 4) by (assumption || lia).
  destruct (Z.ltb_spec (Uint32 lenBuf) 9); [lia|].
  now rewrite ReadFull_short.
Qed.

Lemma decodeEvent_unknown_tag (lenBuf payload rest : list byte) :
  length lenBuf = 4%nat -> 9 <= Uint32 lenBuf ->
  length payload = Z.to_nat (Uint32 lenBuf) ->
  byte_to_Z (nth 0 payload x00) <> EventNewOrder ->
  byte_to_Z (nth 0 payload x00) <> EventCancelOrder ->
  decodeEvent (lenBuf ++ payload ++ rest)
  = inl (ErrUnknownEventType (byte_to_Z (nth 0 payload x00))).
Proof.
  intros Hl Hge Hp Hn1 Hn2. unfold decodeEvent.
  rewrite (ReadFull_app 4) by (assumption || lia).
  destruct (Z.ltb_spec (Uint32 lenBuf) 9); [lia|].
  rewrite ReadFull_app by (assumption || lia).
  destruct (Z.eqb_spec (byte_to_Z (nth 0 payload x00)) EventNewOrder); [contradiction|].
  destruct (Z.eqb_spec (byte_to_Z (nth 0 payload x00)) EventCancelOrder); [contradiction|].
  reflexivity.
Qed.

End JournalTails.

Section JournalReplay.

(** Reading back a journal that holds whole records only. *)
Lemma ReadAll_appended (evs : list MatchingEvent) :
  Forall wf_event evs ->
  ReadAll (Some (journal_bytes (appended evs))) = (stored <$> evs, None).
Proof.
  intros Hwf. rewrite <- (app_nil_r (journal_bytes (appended evs))).
  destruct (ReadAll_records_then evs [] Hwf) as [fuel ->]. reflexivity.
Qed.

Lemma Append_ok (e : MatchingEvent) (j : Journal) :
  wf_event e ->
  Append true e j = (None, {| journal_bytes := journal_bytes j ++ record_of e |}).
Proof.
  intros [_ [[Ht _]|[Ht _]]]; unfold Append, record_of, encodeEvent; rewrite Ht; reflexivity.
Qed.

End JournalReplay.


(* ================================================================== *)
(** * Proofs: the snapshot format *)

Section SnapshotCodec.

Lemma ReadFull_exact (n : nat) (a r : list byte) :
  length a = n -> ReadFull n (a ++ r) = inr (a, r).
Proof.
  intros Hl. destruct n as [|n].
  - destruct a; [reflexivity|discriminate].
  - apply ReadFull_app; [exact Hl|discriminate].
Qed.

Lemma written_name (name : list byte) :
  (if (255 <? length name)%nat then firstn 255 name else name) = firstn 255 name.
Proof.
  destruct (Nat.ltb_spec 255 (length name)); [reflexivity|].
  symmetry. apply firstn_all2. lia.
Qed.

Lemma readSymbols_step (s : Symbol) (r : list byte) (count : nat) (acc : list Symbol) :
  is_u32 (Symbol_ID s) ->
  readSymbols (S count) (writeSymbol s ++ r) acc
  = readSymbols count r (acc ++ [stored_symbol s]).
Proof.
  intros Hid. unfold writeSymbol. rewrite written_name.
  set (name := firstn 255 (Symbol_Name s)).
  assert (Hlen : (length name <= 255)%nat) by (subst name; rewrite length_firstn; lia).
  cbn [readSymbols]. rewrite <- !app_assoc.
  rewrite (ReadFull_exact 4 (PutUint32 (Symbol_ID s)) _ (PutUint32_length _)).
  rewrite (ReadFull_exact 1 [byte_of_Z (Z.of_nat (length name))] (name ++ r) eq_refl).
  cbn [nth]. rewrite byte_to_of_Z_small by (unfold is_u8; lia). rewrite Nat2Z.id.
  rewrite (ReadFull_exact (length name) name r eq_refl).
  rewrite (Uint32_PutUint32 _ Hid). reflexivity.
Qed.

Lemma readSymbols_written (syms : list Symbol) :
  forall (r : list byte) (acc : list Symbol),
  Forall (fun s => is_u32 (Symbol_ID s)) syms ->
  readSymbols (length syms) (concat (writeSymbol <$> syms) ++ r) acc
  = inr (acc ++ (stored_symbol <$> syms), r).
Proof.
  induction syms as [|s syms IH]; intros r acc Hwf.
  - cbn. now rewrite app_nil_r.
  - apply Forall_cons in Hwf as [Hs Hwf]. cbn [length fmap list_fmap concat].
    rewrite <- app_assoc, (readSymbols_step s _ _ _ Hs), IH by exact Hwf.
    now rewrite <- app_assoc.
Qed.

Lemma readOrders_written (ords : list Order) :
  forall (r : list byte) (acc : list Order),
  Forall wf_Order ords ->
  readOrders (length ords) (concat (marshalOrder <$> ords) ++ r) acc
  = inr (acc ++ ords, r).
Proof.
  induction ords as [|o ords IH]; intros r acc Hwf.
  - cbn. now rewrite app_nil_r.
  - apply Forall_cons in Hwf as [Ho Hwf]. cbn [length fmap list_fmap concat readOrders].
    rewrite <- app_assoc.
    rewrite (ReadFull_exact orderWireSize (marshalOrder o) _ (marshalOrder_length o)).
    rewrite (unmarshal_marshal o Ho), IH by exact Hwf. now rewrite <- app_assoc.
Qed.

Lemma count_roundtrip (n : nat) :
  Z.of_nat n < 2 ^ 32 -> Z.to_nat (Uint32 (PutUint32 (u32 (Z.of_nat n)))) = n.
Proof.
  intros Hn. assert (Hu : u32 (Z.of_nat n) = Z.of_nat n).
  { unfold u32. apply Z.mod_small. lia. }
  rewrite Hu, Uint32_PutUint32 by (unfold is_u32; lia). apply Nat2Z.id.
Qed.

(** Reading back what [writeSnapshot] wrote, whatever follows it. *)
Lemma readSnapshot_written (snap : Snapshot) (rest : list byte) :
  wf_Snapshot snap ->
  readSnapshot (writeSnapshot snap ++ rest) = inr (stored_snapshot snap).
Proof.
  intros [Hts Hsyms Hords Hns Hno]. unfold writeSnapshot, readSnapshot.
  rewrite <- !app_assoc.
  rewrite (ReadFull_exact 8 snapshotMagic _ eq_refl).
  rewrite bool_decide_eq_true_2 by reflexivity.
  rewrite (ReadFull_exact 8 (PutUint64 (u64 (snap_Timestamp snap))) _ (PutUint64_length _)).
  rewrite (ReadFull_exact 4 (PutUint32 (u32 (Z.of_nat (length (snap_Symbols snap))))) _
             (PutUint32_length _)).
  rewrite (count_roundtrip _ Hns), (readSymbols_written _ _ [] Hsyms).
  rewrite (ReadFull_exact 4 (PutUint32 (u32 (Z.of_nat (length (snap_Orders snap))))) _
             (PutUint32_length _)).
  rewrite (count_roundtrip _ Hno), (readOrders_written _ _ [] Hords).
  rewrite Uint64_PutUint64 by (unfold is_u64, u64; apply Z.mod_pos_bound; lia).
  rewrite (int64_u64_roundtrip _ Hts). reflexivity.
Qed.

(** A stream that does not start with the eight magic bytes is
    rejected. *)
Lemma readSnapshot_bad_magic (r : list byte) :
  firstn 8 r <> snapshotMagic -> exists e, readSnapshot r = inl e.
Proof.
  intros Hm. unfold readSnapshot. destruct (ReadFull 8 r) as [err|[magic r1]] eqn:E; [eauto|].
  assert (magic = firstn 8 r).
  { unfold ReadFull in E. cbn [Nat.eqb] in E.
    destruct (length r =? 0)%nat; [discriminate|].
    destruct (length r <? 8)%nat; [discriminate|]. now injection E as <- _. }
  subst magic. rewrite bool_decide_eq_false_2 by exact Hm. eauto.
Qed.

Lemma sample_snapshot_wf : wf_Snapshot sample_snapshot.
Proof.
  split.
  - vm_compute. split; congruence.
  - repeat constructor; vm_compute; congruence.
  - repeat constructor; vm_compute; congruence.
  - vm_compute. reflexivity.
  - vm_compute. reflexivity.
Qed.

End SnapshotCodec.

Section SnapshotFiles.

Variable zstd_encode : list byte -> list byte.
Variable zstd_decode : list byte -> option (list byte).
Hypothesis zstd_roundtrip : forall b, zstd_decode (zstd_encode b) = Some b.

Lemma foldr_max_spec (a : Z) (l : list Z) :
  foldr Z.max a l ∈ a :: l /\ forall x, x ∈ a :: l -> x <= foldr Z.max a l.
Proof.
  induction l as [|b l [IH1 IH2]]; cbn [foldr].
  - split; [left|]. intros x Hx. apply list_elem_of_singleton in Hx. lia.
  - split.
    + destruct (Z.max_spec b (foldr Z.max a l)) as [[_ ->]|[_ ->]].
      * apply elem_of_cons in IH1 as [->|IH1]; [left|do 2 right; exact IH1].
      * right. left.
    + intros x Hx. apply elem_of_cons in Hx as [->|Hx].
      * pose proof (IH2 a ltac:(left)). lia.
      * apply elem_of_cons in Hx as [->|Hx]; [lia|].
        pose proof (IH2 x ltac:(now right)). lia.
Qed.

(** [latest] is the highest timestamp a snapshot file is named after. *)
Lemma latest_spec (dir : gmap Z (list byte)) :
  match latest dir with
  | None => dir = ∅
  | Some ts => is_Some (dir !! ts) /\ forall ts', is_Some (dir !! ts') -> ts' <= ts
  end.
Proof.
  unfold latest. destruct ((map_to_list dir).*1) as [|a l] eqn:E.
  - apply map_to_list_empty_iff. now apply fmap_nil_inv in E.
  - assert (Hkeys : forall k, k ∈ a :: l <-> is_Some (dir !! k)).
    { intros k. rewrite <- E, list_elem_of_fmap. split.
      - intros ([k' v] & -> & Hin). apply elem_of_map_to_list in Hin. eauto.
      - intros [v Hv]. exists (k, v). split; [reflexivity|]. now apply elem_of_map_to_list. }
    destruct (foldr_max_spec a l) as [H1 H2]. split; [now apply Hkeys|].
    intros ts' Hts'. apply H2. now apply Hkeys.
Qed.

Lemma LoadLatest_Save (snap : Snapshot) (dir : gmap Z (list byte)) :
  wf_Snapshot snap ->
  (forall ts, is_Some (dir !! ts) -> ts <= snap_Timestamp snap) ->
  LoadLatest zstd_decode (Save zstd_encode snap dir) = inr (Some (stored_snapshot snap)).
Proof.
  intros Hwf Hmax. unfold LoadLatest.
  pose proof (latest_spec (Save zstd_encode snap dir)) as Hl.
  destruct (latest (Save zstd_encode snap dir)) as [ts|].
  - destruct Hl as [Hin Hle]. unfold Save in *.
    assert (ts = snap_Timestamp snap).
    { apply Z.le_antisymm.
      - apply lookup_insert_is_Some in Hin as [->|[_ Hin]]; [lia|exact (Hmax ts Hin)].
      - apply Hle. rewrite lookup_insert_eq. eauto. }
    subst ts. rewrite lookup_insert_eq, zstd_roundtrip.
    rewrite <- (app_nil_r (writeSnapshot snap)), (readSnapshot_written snap [] Hwf).
    reflexivity.
  - exfalso. unfold Save in Hl.
    apply (insert_non_empty dir (snap_Timestamp snap) (zstd_encode (writeSnapshot snap))).
    exact Hl.
Qed.

End SnapshotFiles.


(* ================================================================== *)
(** * Proofs: the AVL tree *)

Section Heights.

Lemma height_Node (l r : LevelNode) (lv : Level) (ol : OrderList) (b : Z) :
  height (Node l lv ol b r) = 1 + Z.max (height l) (height r).
Proof.
  cbn [height]. destruct (Z.gtb_spec (height l) (height r)); lia.
Qed.

Lemma height_nonneg (t : LevelNode) : 0 <= height t.
Proof.
  induction t as [|l IHl lv ol b r IHr]; [cbn; lia|].
  rewrite height_Node. lia.
Qed.

Lemma height_pos (l r : LevelNode) (lv : Level) (ol : OrderList) (b : Z) :
  0 < height (Node l lv ol b r).
Proof.
  rewrite height_Node. pose proof (height_nonneg l). pose proof (height_nonneg r). lia.
Qed.

Lemma height_0_Nil (t : LevelNode) : height t = 0 -> t = Nil.
Proof.
  destruct t as [|l lv ol b r]; [reflexivity|].
  pose proof (height_pos l r lv ol b). lia.
Qed.

End Heights.

Section Paths.

Lemma plug_cons (f : Frame) (rest : list Frame) (t : LevelNode) :
  plug (f :: rest) t = plug rest (plug1 f t).
Proof. reflexivity. Qed.

Lemma inorder_plug1 (f : Frame) (t : LevelNode) :
  inorder (plug1 f t) = lefts1 f ++ inorder t ++ rights1 f.
Proof.
  destruct f as [lv ol b r|l lv ol b]; cbn.
  - reflexivity.
  - rewrite app_nil_r, <- app_assoc. reflexivity.
Qed.

Lemma inorder_plug (path : list Frame) (t : LevelNode) :
  inorder (plug path t) = lefts path ++ inorder t ++ rights path.
Proof.
  revert t. induction path as [|f rest IH]; intros t.
  - cbn. now rewrite app_nil_r.
  - rewrite plug_cons, IH, inorder_plug1. cbn [lefts rights].
    now rewrite <- !app_assoc.
Qed.

Lemma height_plug1 (f : Frame) (t t' : LevelNode) :
  height t = height t' -> height (plug1 f t) = height (plug1 f t').
Proof. destruct f; cbn [plug1]; rewrite ?height_Node; lia. Qed.

(** Plugging an AVL subtree of the expected height gives an AVL tree. *)
Lemma avl_plug (path : list Frame) (t : LevelNode) :
  avl t -> avl_path path (height t) -> avl (plug path t).
Proof.
  revert t. induction path as [|f rest IH]; intros t Ht Hp; [exact Ht|].
  rewrite plug_cons. destruct f as [lv ol b r|l lv ol b]; cbn [avl_path] in Hp;
    destruct Hp as (Hs & Hb & Hr & Hrest); apply IH.
  - cbn [plug1 avl]. auto.
  - cbn [plug1]. rewrite height_Node. exact Hrest.
  - cbn [plug1 avl]. auto.
  - cbn [plug1]. rewrite height_Node. exact Hrest.
Qed.

End Paths.

(** Lists built from appends and conses, compared after flattening. *)
Ltac flatten_lists :=
  cbn [inorder lefts rights lefts1 rights1];
  repeat (first [ rewrite <- app_assoc | rewrite app_nil_r | progress cbn [app] ]).

Section Rotations.

Lemma rotateLeft_inorder (t t' : LevelNode) :
  rotateLeft t = Some t' -> inorder t' = inorder t.
Proof.
  destruct t as [|l lv ol b [|pl plv pol pb pr]]; try discriminate.
  intros [= <-]. cbn. now rewrite <- app_assoc.
Qed.

Lemma rotateRight_inorder (t t' : LevelNode) :
  rotateRight t = Some t' -> inorder t' = inorder t.
Proof.
  destruct t as [|[|pl plv pol pb pr] lv ol b r]; try discriminate.
  intros [= <-]. cbn. now rewrite <- app_assoc.
Qed.

(** The balance factors a rotation writes are the height differences
    of the rotated nodes, whatever the heights were. *)
Lemma rotateLeft_exact (l pl pr : LevelNode) (lv plv : Level) (ol pol : OrderList) (b pb : Z) :
  b = height (Node pl plv pol pb pr) - height l ->
  pb = height pr - height pl ->
  exists nb pb',
    rotateLeft (Node l lv ol b (Node pl plv pol pb pr))
    = Some (Node (Node l lv ol nb pl) plv pol pb' pr) /\
    nb = height pl - height l /\
    pb' = height pr - height (Node l lv ol nb pl).
Proof.
  intros Hb Hpb. eexists _, _. split; [reflexivity|].
  rewrite ?height_Node in *. lia.
Qed.

Lemma rotateRight_exact (pl pr r : LevelNode) (lv plv : Level) (ol pol : OrderList) (b pb : Z) :
  b = height r - height (Node pl plv pol pb pr) ->
  pb = height pr - height pl ->
  exists nb pb',
    rotateRight (Node (Node pl plv pol pb pr) lv ol b r)
    = Some (Node pl plv pol pb' (Node pr lv ol nb r)) /\
    nb = height r - height pr /\
    pb' = height (Node pr lv ol nb r) - height pl.
Proof.
  intros Hb Hpb. eexists _, _. split; [reflexivity|].
  rewrite ?height_Node in *. lia.
Qed.

(** [rebalance] of a node two deeper on the left: it succeeds, keeps the
    levels in order, and gives an AVL tree that is as high as before
    exactly when the left child was balanced. *)
Lemma rebalance_left_heavy (l r : LevelNode) (lv : Level) (ol : OrderList) :
  avl l -> avl r -> height r - height l = -2 ->
  exists t',
    rebalance (Node l lv ol (-2) r) = Some t' /\
    avl t' /\ inorder t' = inorder (Node l lv ol (-2) r) /\
    ((Balance_of l = Some 0 /\ height t' = height (Node l lv ol (-2) r) /\
      Balance_of t' = Some 1) \/
     (Balance_of l <> Some 0 /\ height t' = height (Node l lv ol (-2) r) - 1 /\
      Balance_of t' = Some 0)).
Proof.
  intros Hl Hr Hd.
  destruct l as [|a alv aol lb c].
  { pose proof (height_nonneg r). cbn in Hd. lia. }
  cbn [avl] in Hl. destruct Hl as (Ha & Hc & Hlb & Hlr).
  cbn [rebalance Balance_of]. change (-2 =? -2) with true. cbn [mbind option_bind].
  destruct (Z.leb_spec lb 0) as [Hle|Hgt].
  - (* single rotation *)
    destruct (rotateRight_exact a c r lv alv ol aol (-2) lb) as (nb & pb' & Hrot & Hnb & Hpb');
      [lia | exact Hlb |].
    rewrite Hrot. eexists. split; [reflexivity|].
    rewrite ?height_Node in *.
    split; [|split].
    + cbn [avl]. rewrite ?height_Node. repeat split; auto; lia.
    + flatten_lists. reflexivity.
    + destruct (Z.eq_dec lb 0) as [Hz|Hne]; [rewrite Hz in *|].
      * left. split; [reflexivity|]. rewrite ?height_Node. cbn [Balance_of].
        split; [lia|]. f_equal. lia.
      * right. split; [congruence|]. rewrite ?height_Node. cbn [Balance_of].
        split; [lia|]. f_equal. lia.
  - (* double rotation *)
    assert (Hlb1 : lb = 1) by lia. rewrite Hlb1 in *. clear Hlb1.
    destruct c as [|ca clv col cb cc].
    { pose proof (height_nonneg a). cbn in Hlb. lia. }
    cbn [avl] in Hc. destruct Hc as (Hca & Hcc & Hcb & Hcr).
    destruct (rotateLeft_exact a ca cc alv clv aol col 1 cb) as (nb & pb' & Hrot & Hnb & Hpb');
      [exact Hlb | exact Hcb |].
    rewrite Hrot. cbn [mbind option_bind].
    destruct (rotateRight_exact (Node a alv aol nb ca) cc r lv clv ol col (-2) pb')
      as (nb2 & pb2 & Hrot2 & Hnb2 & Hpb2).
    { rewrite ?height_Node in *. lia. }
    { exact Hpb'. }
    rewrite Hrot2. eexists. split; [reflexivity|].
    rewrite ?height_Node in *.
    split; [|split].
    + cbn [avl]. rewrite ?height_Node. repeat split; auto; lia.
    + flatten_lists. reflexivity.
    + right. split; [discriminate|]. rewrite ?height_Node. cbn [Balance_of].
      split; [lia|]. f_equal. lia.
Qed.

Lemma rebalance_right_heavy (l r : LevelNode) (lv : Level) (ol : OrderList) :
  avl l -> avl r -> height r - height l = 2 ->
  exists t',
    rebalance (Node l lv ol 2 r) = Some t' /\
    avl t' /\ inorder t' = inorder (Node l lv ol 2 r) /\
    ((Balance_of r = Some 0 /\ height t' = height (Node l lv ol 2 r) /\
      Balance_of t' = Some (-1)) \/
     (Balance_of r <> Some 0 /\ height t' = height (Node l lv ol 2 r) - 1 /\
      Balance_of t' = Some 0)).
Proof.
  intros Hl Hr Hd.
  destruct r as [|a alv aol rb c].
  { pose proof (height_nonneg l). cbn in Hd. lia. }
  cbn [avl] in Hr. destruct Hr as (Ha & Hc & Hrb & Hrr).
  cbn [rebalance Balance_of]. change (2 =? -2) with false. change (2 =? 2) with true.
  cbn [mbind option_bind].
  destruct (Z.geb_spec rb 0) as [Hge|Hlt].
  - destruct (rotateLeft_exact l a c lv alv ol aol 2 rb) as (nb & pb' & Hrot & Hnb & Hpb');
      [lia | exact Hrb |].
    rewrite Hrot. eexists. split; [reflexivity|].
    rewrite ?height_Node in *.
    split; [|split].
    + cbn [avl]. rewrite ?height_Node. repeat split; auto; lia.
    + flatten_lists. reflexivity.
    + destruct (Z.eq_dec rb 0) as [Hz|Hne]; [rewrite Hz in *|].
      * left. split; [reflexivity|]. rewrite ?height_Node. cbn [Balance_of].
        split; [lia|]. f_equal. lia.
      * right. split; [congruence|]. rewrite ?height_Node. cbn [Balance_of].
        split; [lia|]. f_equal. lia.
  - assert (Hrb1 : rb = -1) by lia. rewrite Hrb1 in *. clear Hrb1.
    destruct a as [|aa aalv aaol ab ac].
    { pose proof (height_nonneg c). cbn in Hrb. lia. }
    cbn [avl] in Ha. destruct Ha as (Haa & Hac & Hab & Har).
    destruct (rotateRight_exact aa ac c alv aalv aol aaol (-1) ab)
      as (nb & pb' & Hrot & Hnb & Hpb'); [exact Hrb | exact Hab |].
    rewrite Hrot. cbn [mbind option_bind].
    destruct (rotateLeft_exact l aa (Node ac alv aol nb c) lv aalv ol aaol 2 pb')
      as (nb2 & pb2 & Hrot2 & Hnb2 & Hpb2).
    { rewrite ?height_Node in *. lia. }
    { exact Hpb'. }
    rewrite Hrot2. eexists. split; [reflexivity|].
    rewrite ?height_Node in *.
    split; [|split].
    + cbn [avl]. rewrite ?height_Node. repeat split; auto; lia.
    + flatten_lists. reflexivity.
    + right. split; [discriminate|]. rewrite ?height_Node. cbn [Balance_of].
      split; [lia|]. f_equal. lia.
Qed.

End Rotations.

Section Rebalancing.

(** [rebalanceInsert]: below the path hangs an AVL subtree that has just
    grown by one level; unless it is the new leaf its balance is not 0. *)
Lemma rebalanceInsert_spec (path : list Frame) :
  forall (node : LevelNode) (h : Z),
  0 <= h -> avl node -> height node = h + 1 ->
  (Balance_of node <> Some 0 \/ h = 0) ->
  avl_path path h ->
  exists t',
    rebalanceInsert node path = Some t' /\ avl t' /\
    inorder t' = inorder (plug path node).
Proof.
  induction path as [|f rest IH]; intros node h Hh Hn Hhn Hgrown Hp.
  { exists node. cbn. auto. }
  rewrite plug_cons. cbn [rebalanceInsert].
  destruct f as [lv ol b r|l lv ol b]; cbn [avl_path] in Hp;
    destruct Hp as (Hs & Hb & Hbr & Hrest); cbn [Balance_of mbind option_bind plug1].
  - (* the subtree is the left child *)
    pose proof (height_nonneg r) as Hr0.
    destruct (Z.eqb_spec (b - 1) 0) as [H0|H0].
    + eexists. split; [reflexivity|]. split.
      * apply avl_plug.
        -- cbn [avl]. repeat split; auto; lia.
        -- rewrite height_Node. replace (1 + Z.max (height node) (height r))
             with (1 + Z.max h (height r)) by lia. exact Hrest.
      * rewrite !inorder_plug. reflexivity.
    + destruct (Z.eqb_spec (b - 1) (-2)) as [H2|H2]; cbn [orb].
      * assert (Hbal : Balance_of node <> Some 0) by (destruct Hgrown; [assumption|lia]).
        replace (b - 1) with (-2) by lia.
        destruct (rebalance_left_heavy node r lv ol Hn Hs ltac:(lia))
          as (t' & Hreb & Ht' & Hin & [(Hz & _)|(_ & Hht & _)]); [contradiction|].
        rewrite Hreb. cbn [mbind option_bind]. eexists. split; [reflexivity|]. split.
        -- apply avl_plug; [exact Ht'|]. rewrite Hht, height_Node.
           replace (1 + Z.max (height node) (height r) - 1)
             with (1 + Z.max h (height r)) by lia. exact Hrest.
        -- rewrite !inorder_plug, Hin. reflexivity.
      * destruct (Z.eqb_spec (b - 1) 2) as [H3|H3]; [lia|]. cbn match.
        destruct (IH (Node node lv ol (b - 1) r) (1 + Z.max h (height r)))
          as (t' & Hgo & Ht' & Hin).
        -- lia.
        -- cbn [avl]. repeat split; auto; lia.
        -- rewrite height_Node. lia.
        -- left. cbn [Balance_of]. intros [= ?]. lia.
        -- exact Hrest.
        -- exists t'. split; [exact Hgo|]. split; [exact Ht'|]. rewrite Hin.
           rewrite !inorder_plug. reflexivity.
  - (* the subtree is the right child *)
    pose proof (height_nonneg l) as Hl0.
    destruct (Z.eqb_spec (b + 1) 0) as [H0|H0].
    + eexists. split; [reflexivity|]. split.
      * apply avl_plug.
        -- cbn [avl]. repeat split; auto; lia.
        -- rewrite height_Node. replace (1 + Z.max (height l) (height node))
             with (1 + Z.max (height l) h) by lia. exact Hrest.
      * rewrite !inorder_plug. reflexivity.
    + destruct (Z.eqb_spec (b + 1) (-2)) as [H2|H2]; [lia|]. cbn [orb].
      destruct (Z.eqb_spec (b + 1) 2) as [H3|H3].
      * assert (Hbal : Balance_of node <> Some 0) by (destruct Hgrown; [assumption|lia]).
        replace (b + 1) with 2 by lia.
        destruct (rebalance_right_heavy l node lv ol Hs Hn ltac:(lia))
          as (t' & Hreb & Ht' & Hin & [(Hz & _)|(_ & Hht & _)]); [contradiction|].
        rewrite Hreb. cbn [mbind option_bind]. eexists. split; [reflexivity|]. split.
        -- apply avl_plug; [exact Ht'|]. rewrite Hht, height_Node.
           replace (1 + Z.max (height l) (height node) - 1)
             with (1 + Z.max (height l) h) by lia. exact Hrest.
        -- rewrite !inorder_plug, Hin. reflexivity.
      * destruct (IH (Node l lv ol (b + 1) node) (1 + Z.max (height l) h))
          as (t' & Hgo & Ht' & Hin).
        -- lia.
        -- cbn [avl]. repeat split; auto; lia.
        -- rewrite height_Node. lia.
        -- left. cbn [Balance_of]. intros [= ?]. lia.
        -- exact Hrest.
        -- exists t'. split; [exact Hgo|]. split; [exact Ht'|]. rewrite Hin.
           rewrite !inorder_plug. reflexivity.
Qed.

(** [rebalanceRemove]: the node's children are AVL trees, one of them
    one level lower than when the node's balance was last written. *)
Lemma rebalanceRemove_spec (path : list Frame) :
  forall (l r : LevelNode) (lv : Level) (ol : OrderList) (oldBalance l0 r0 : Z),
  avl l -> avl r ->
  oldBalance = r0 - l0 -> -1 <= oldBalance <= 1 ->
  ((height l = l0 - 1 /\ height r = r0) \/ (height l = l0 /\ height r = r0 - 1)) ->
  avl_path path (1 + Z.max l0 r0) ->
  exists t',
    rebalanceRemove (Node l lv ol oldBalance r) path = Some t' /\ avl t' /\
    inorder t' = inorder (plug path (Node l lv ol oldBalance r)).
Proof.
  induction path as [|f rest IH];
    intros l r lv ol oldBalance l0 r0 Hl Hr Hold Hrange Hshrunk Hp.
  - (* the root *)
    cbn [rebalanceRemove].
    pose proof (height_nonneg l) as Hl0. pose proof (height_nonneg r) as Hr0.
    destruct (Z.eqb_spec (height r - height l) (-2)) as [Hm2|Hm2]; cbn [orb].
    { rewrite Hm2.
      destruct (rebalance_left_heavy l r lv ol Hl Hr Hm2)
        as (t' & Hreb & Ht' & Hin & Hcase).
      rewrite Hreb. cbn [mbind option_bind].
      destruct Hcase as [(_ & _ & Hb)|(_ & _ & Hb)]; rewrite Hb; cbn [mbind option_bind];
        cbn; eexists; (split; [reflexivity|]); split; auto. }
    destruct (Z.eqb_spec (height r - height l) 2) as [Hp2|Hp2].
    { rewrite Hp2.
      destruct (rebalance_right_heavy l r lv ol Hl Hr Hp2)
        as (t' & Hreb & Ht' & Hin & Hcase).
      rewrite Hreb. cbn [mbind option_bind].
      destruct Hcase as [(_ & _ & Hb)|(_ & _ & Hb)]; rewrite Hb; cbn [mbind option_bind];
        cbn; eexists; (split; [reflexivity|]); split; auto. }
    assert (Havl : avl (Node l lv ol (height r - height l) r)).
    { cbn [avl]. repeat split; auto; lia. }
    destruct (oldBalance =? 0); eexists; (split; [reflexivity|]); split; auto.
  - cbn [rebalanceRemove].
    pose proof (height_nonneg l) as Hl0. pose proof (height_nonneg r) as Hr0.
    (* what the walk does one level up, once this subtree is [n] and is
       one level lower than it was *)
    assert (Hup : forall n : LevelNode,
              avl n -> height n = Z.max l0 r0 ->
              inorder n = inorder (Node l lv ol oldBalance r) ->
              exists t', rebalanceRemove (plug1 f n) rest = Some t' /\ avl t' /\
                         inorder t' = inorder (plug (f :: rest) (Node l lv ol oldBalance r))).
    { intros n Hn Hhn Hinn. rewrite plug_cons.
      destruct f as [plv pol pb pr|pl plv pol pb]; cbn [avl_path] in Hp;
        destruct Hp as (Hs & Hb & Hbr & Hrest); cbn [plug1].
      - destruct (IH n pr plv pol pb (1 + Z.max l0 r0) (height pr))
          as (t' & Hgo & Ht' & Hin); auto; try lia.
        exists t'. split; [exact Hgo|]. split; [exact Ht'|].
        rewrite Hin, !inorder_plug. cbn [inorder]. now rewrite Hinn.
      - destruct (IH pl n plv pol pb (height pl) (1 + Z.max l0 r0))
          as (t' & Hgo & Ht' & Hin); auto; try lia.
        exists t'. split; [exact Hgo|]. split; [exact Ht'|].
        rewrite Hin, !inorder_plug. cbn [inorder]. now rewrite Hinn. }
    (* the walk stops here: the subtree is as high as it was *)
    assert (Hstop : forall n : LevelNode,
              avl n -> height n = 1 + Z.max l0 r0 ->
              inorder n = inorder (Node l lv ol oldBalance r) ->
              avl (plug (f :: rest) n) /\
              inorder (plug (f :: rest) n)
              = inorder (plug (f :: rest) (Node l lv ol oldBalance r))).
    { intros n Hn Hhn Hinn. split.
      - apply avl_plug; [exact Hn|]. rewrite Hhn. exact Hp.
      - rewrite !inorder_plug. now rewrite Hinn. }
    destruct (Z.eqb_spec (height r - height l) (-2)) as [Hm2|Hm2]; cbn [orb].
    { rewrite Hm2.
      destruct (rebalance_left_heavy l r lv ol Hl Hr Hm2)
        as (t' & Hreb & Ht' & Hin & Hcase).
      rewrite Hreb. cbn [mbind option_bind]. rewrite height_Node in Hcase.
      destruct Hcase as [(_ & Hh & Hb)|(_ & Hh & Hb)]; rewrite Hb; cbn [mbind option_bind].
      - change ((1 =? -1) || (1 =? 1)) with true. cbn match.
        destruct (Hstop t' Ht') as [Ha Hi]; [lia | exact Hin |].
        eexists. split; [reflexivity|]. split; [exact Ha | exact Hi].
      - change ((0 =? -1) || (0 =? 1)) with false. cbn match.
        apply Hup; [exact Ht' | lia | exact Hin]. }
    destruct (Z.eqb_spec (height r - height l) 2) as [Hp2|Hp2].
    { rewrite Hp2.
      destruct (rebalance_right_heavy l r lv ol Hl Hr Hp2)
        as (t' & Hreb & Ht' & Hin & Hcase).
      rewrite Hreb. cbn [mbind option_bind]. rewrite height_Node in Hcase.
      destruct Hcase as [(_ & Hh & Hb)|(_ & Hh & Hb)]; rewrite Hb; cbn [mbind option_bind].
      - change ((-1 =? -1) || (-1 =? 1)) with true. cbn match.
        destruct (Hstop t' Ht') as [Ha Hi]; [lia | exact Hin |].
        eexists. split; [reflexivity|]. split; [exact Ha | exact Hi].
      - change ((0 =? -1) || (0 =? 1)) with false. cbn match.
        apply Hup; [exact Ht' | lia | exact Hin]. }
    assert (Havl : avl (Node l lv ol (height r - height l) r)).
    { cbn [avl]. repeat split; auto; lia. }
    destruct (Z.eqb_spec oldBalance 0) as [Hz|Hnz].
    + destruct (Hstop (Node l lv ol (height r - height l) r) Havl) as [Ha Hi];
        [rewrite height_Node; lia | reflexivity |].
      eexists. split; [reflexivity|]. split; [exact Ha | exact Hi].
    + apply Hup; [exact Havl | rewrite height_Node; lia | reflexivity].
Qed.

End Rebalancing.

Section Order.

Lemma compare_before (desc : bool) (a b : Z) :
  (compare desc a b <? 0) = true <-> before desc a b.
Proof.
  unfold compare, before. destruct desc.
  - destruct (Z.gtb_spec a b); [split; [lia|reflexivity]|].
    destruct (Z.ltb_spec a b); split; cbn; (lia || discriminate).
  - destruct (Z.ltb_spec a b); [split; [lia|reflexivity]|].
    destruct (Z.gtb_spec a b); split; cbn; (lia || discriminate).
Qed.

Lemma compare_not_before (desc : bool) (a b : Z) :
  (compare desc a b <? 0) = false -> a <> b -> before desc b a.
Proof.
  intros Hc Hne. destruct (compare desc a b <? 0) eqn:E; [discriminate|].
  assert (Hnb : ~ before desc a b).
  { intros Hb. apply compare_before in Hb. congruence. }
  unfold before in *. destruct desc; lia.
Qed.

Lemma before_trans (desc : bool) (a b c : Z) :
  before desc a b -> before desc b c -> before desc a c.
Proof. unfold before. destruct desc; lia. Qed.

Lemma before_irrefl (desc : bool) (a : Z) : ~ before desc a a.
Proof. unfold before. destruct desc; lia. Qed.

Lemma before_asym (desc : bool) (a b : Z) : before desc a b -> ~ before desc b a.
Proof. unfold before. destruct desc; lia. Qed.

Lemma before_ne (desc : bool) (a b : Z) : before desc a b -> a <> b.
Proof. unfold before. destruct desc; lia. Qed.

Lemma sorted_app (desc : bool) (l1 l2 : list Z) :
  sorted desc (l1 ++ l2) <->
  sorted desc l1 /\ sorted desc l2 /\
  (forall x y, x ∈ l1 -> y ∈ l2 -> before desc x y).
Proof.
  induction l1 as [|a l1 IH]; cbn [app sorted].
  - split; [intros H; repeat split; auto; intros x y Hx; inversion Hx | tauto].
  - rewrite IH, Forall_app. split.
    + intros ((Ha1 & Ha2) & H1 & H2 & H12). repeat split; auto.
      intros x y Hx Hy. apply elem_of_cons in Hx as [->|Hx]; [|auto].
      rewrite Forall_forall in Ha2. auto.
    + intros ((Ha1 & H1) & H2 & H12). repeat split; auto.
      * apply Forall_forall. intros y Hy. apply H12; [left|exact Hy].
      * intros x y Hx Hy. apply H12; [now right|exact Hy].
Qed.

Lemma sorted_cons (desc : bool) (a : Z) (l : list Z) :
  sorted desc (a :: l) <-> (forall y, y ∈ l -> before desc a y) /\ sorted desc l.
Proof. cbn [sorted]. now rewrite Forall_forall. Qed.

(** Sorted prices are pairwise different. *)
Lemma sorted_NoDup (desc : bool) (l : list Z) : sorted desc l -> NoDup l.
Proof.
  induction l as [|a l IH]; [constructor|].
  intros [Ha Hs]. constructor; [|auto].
  intros Hin. rewrite Forall_forall in Ha. exact (before_irrefl desc a (Ha a Hin)).
Qed.

Lemma keys_Node (l r : LevelNode) (lv : Level) (ol : OrderList) (b : Z) :
  keys (Node l lv ol b r) = keys l ++ Level_Price lv :: keys r.
Proof. unfold keys. cbn [inorder]. now rewrite fmap_app. Qed.

Lemma elem_of_keys (t : LevelNode) (p : Z) :
  p ∈ keys t <-> exists x, x ∈ inorder t /\ price_of x = p.
Proof.
  unfold keys. rewrite list_elem_of_fmap. split; intros (x & H1 & H2); eauto.
Qed.

End Order.

Section Search.

Variable desc : bool.

Lemma Find_node_sound (p : Z) (t : LevelNode) (x : entry) :
  Find_node desc p t = Some x -> x ∈ inorder t /\ price_of x = p.
Proof.
  induction t as [|l IHl lv ol b r IHr]; [discriminate|].
  cbn [Find_node inorder]. destruct (Z.eqb_spec p (Level_Price lv)) as [->|Hne].
  - intros [= <-]. split; [|reflexivity]. apply elem_of_app. right. left.
  - destruct (compare desc p (Level_Price lv) <? 0); intros H.
    + destruct (IHl H). split; [|assumption]. apply elem_of_app. now left.
    + destruct (IHr H). split; [|assumption]. apply elem_of_app. right. now right.
Qed.

Lemma Find_node_complete (t : LevelNode) (x : entry) :
  sorted desc (keys t) -> x ∈ inorder t -> Find_node desc (price_of x) t = Some x.
Proof.
  induction t as [|l IHl lv ol b r IHr]; intros Hs Hx; [inversion Hx|].
  rewrite keys_Node in Hs. apply sorted_app in Hs as (Hsl & Hsr & Hlr).
  apply sorted_cons in Hsr as [Hlvr Hsr].
  cbn [Find_node inorder] in *. apply elem_of_app in Hx as [Hx|Hx].
  - assert (Hb : before desc (price_of x) (Level_Price lv)).
    { apply Hlr; [apply list_elem_of_fmap; eauto | left]. }
    destruct (Z.eqb_spec (price_of x) (Level_Price lv)) as [He|_].
    { exfalso. rewrite He in Hb. exact (before_irrefl _ _ Hb). }
    apply compare_before in Hb. rewrite Hb. auto.
  - apply elem_of_cons in Hx as [->|Hx].
    + unfold price_of. cbn. now rewrite Z.eqb_refl.
    + assert (Hb : before desc (Level_Price lv) (price_of x)).
      { apply Hlvr. apply list_elem_of_fmap; eauto. }
      destruct (Z.eqb_spec (price_of x) (Level_Price lv)) as [He|_].
      { exfalso. rewrite He in Hb. exact (before_irrefl _ _ Hb). }
      destruct (compare desc (price_of x) (Level_Price lv) <? 0) eqn:E.
      { apply compare_before in E. exfalso. exact (before_asym _ _ _ Hb E). }
      auto.
Qed.

Lemma Find_node_None (p : Z) (t : LevelNode) :
  sorted desc (keys t) -> Find_node desc p t = None -> p ∉ keys t.
Proof.
  intros Hs Hn Hin. apply elem_of_keys in Hin as (x & Hx & <-).
  rewrite (Find_node_complete t x Hs Hx) in Hn. discriminate.
Qed.

Lemma First_node_head (t : LevelNode) : First_node t = head (inorder t).
Proof.
  induction t as [|l IHl lv ol b r _]; [reflexivity|].
  cbn [First_node inorder]. destruct l as [|ll llv lol lb lr]; [reflexivity|].
  rewrite IHl. cbn [inorder]. now destruct (inorder ll).
Qed.

(** A write through a level pointer that keeps the price changes one
    level and nothing else. *)
Lemma update_node_spec (f : entry -> entry) (t : LevelNode) (x : entry) :
  (forall y, price_of (f y) = price_of y) ->
  sorted desc (keys t) -> x ∈ inorder t ->
  exists t' L R,
    update_node desc (price_of x) f t = Some t' /\
    inorder t = L ++ x :: R /\ inorder t' = L ++ f x :: R /\
    keys t' = keys t /\ height t' = height t /\ (avl t -> avl t').
Proof.
  intros Hf. induction t as [|l IHl lv ol b r IHr]; intros Hs Hx; [inversion Hx|].
  rewrite keys_Node in Hs. apply sorted_app in Hs as (Hsl & Hsr & Hlr).
  apply sorted_cons in Hsr as [Hlvr Hsr].
  cbn [update_node inorder] in *. apply elem_of_app in Hx as [Hx|Hx].
  - assert (Hb : before desc (price_of x) (Level_Price lv)).
    { apply Hlr; [apply list_elem_of_fmap; eauto | left]. }
    destruct (Z.eqb_spec (price_of x) (Level_Price lv)) as [He|_].
    { exfalso. rewrite He in Hb. exact (before_irrefl _ _ Hb). }
    apply compare_before in Hb. rewrite Hb.
    destruct (IHl Hsl Hx) as (l' & L & R & Hu & Hi & Hi' & Hk & Hh & Ha).
    rewrite Hu. cbn [mbind option_bind].
    exists (Node l' lv ol b r), L, (R ++ (lv, ol) :: inorder r).
    split; [reflexivity|]. cbn [inorder]. rewrite Hi, Hi'. flatten_lists.
    split; [reflexivity|]. split; [reflexivity|]. split; [|split].
    + rewrite !keys_Node. now rewrite Hk.
    + rewrite !height_Node. now rewrite Hh.
    + cbn [avl]. rewrite Hh. tauto.
  - apply elem_of_cons in Hx as [->|Hx].
    + unfold price_of at 1. cbn [fst]. rewrite Z.eqb_refl.
      destruct (f (lv, ol)) as [lv' ol'] eqn:Ef.
      exists (Node l lv' ol' b r), (inorder l), (inorder r).
      split; [reflexivity|]. cbn [inorder].
      assert (Hp : Level_Price lv' = Level_Price lv).
      { specialize (Hf (lv, ol)). rewrite Ef in Hf. exact Hf. }
      split; [reflexivity|]. split; [reflexivity|]. split; [|split].
      * rewrite !keys_Node. now rewrite Hp.
      * reflexivity.
      * cbn [avl]. tauto.
    + assert (Hb : before desc (Level_Price lv) (price_of x)).
      { apply Hlvr. apply list_elem_of_fmap; eauto. }
      destruct (Z.eqb_spec (price_of x) (Level_Price lv)) as [He|_].
      { exfalso. rewrite He in Hb. exact (before_irrefl _ _ Hb). }
      destruct (compare desc (price_of x) (Level_Price lv) <? 0) eqn:E.
      { apply compare_before in E. exfalso. exact (before_asym _ _ _ Hb E). }
      destruct (IHr Hsr Hx) as (r' & L & R & Hu & Hi & Hi' & Hk & Hh & Ha).
      rewrite Hu. cbn [mbind option_bind].
      exists (Node l lv ol b r'), (inorder l ++ (lv, ol) :: L), R.
      split; [reflexivity|]. cbn [inorder]. rewrite Hi, Hi'. flatten_lists.
      split; [reflexivity|]. split; [reflexivity|]. split; [|split].
      * rewrite !keys_Node. now rewrite Hk.
      * rewrite !height_Node. now rewrite Hh.
      * cbn [avl]. rewrite Hh. tauto.
Qed.

End Search.

Section PathHeights.

Lemma height_plug (path : list Frame) (t : LevelNode) :
  height (plug path t) = path_height path (height t).
Proof.
  revert t. induction path as [|f rest IH]; intros t; [reflexivity|].
  rewrite plug_cons, IH. destruct f; cbn [plug1 path_height]; now rewrite height_Node.
Qed.

Lemma avl_plug_inv (path : list Frame) (t : LevelNode) :
  avl (plug path t) -> avl t /\ avl_path path (height t).
Proof.
  revert t. induction path as [|f rest IH]; intros t H; [cbn; auto|].
  rewrite plug_cons in H. apply IH in H as [H1 H2].
  destruct f as [lv ol b r|l lv ol b]; cbn [plug1 avl avl_path] in *;
    rewrite height_Node in H2; tauto.
Qed.

Lemma avl_path_app (p1 p2 : list Frame) (h : Z) :
  avl_path (p1 ++ p2) h <-> avl_path p1 h /\ avl_path p2 (path_height p1 h).
Proof.
  revert h. induction p1 as [|f p1 IH]; intros h; cbn [app avl_path path_height]; [tauto|].
  destruct f as [lv ol b r|l lv ol b]; rewrite IH; tauto.
Qed.

End PathHeights.

Section Descents.

Variable desc : bool.

Lemma locate_spec (x : entry) (t : LevelNode) :
  forall path : list Frame,
  sorted desc (keys t) -> x ∈ inorder t ->
  exists l b r path',
    locate desc (price_of x) t path = Some (Node l x.1 x.2 b r, path') /\
    plug path' (Node l x.1 x.2 b r) = plug path t.
Proof.
  induction t as [|l IHl lv ol b r IHr]; intros path Hs Hx; [inversion Hx|].
  rewrite keys_Node in Hs. apply sorted_app in Hs as (Hsl & Hsr & Hlr).
  apply sorted_cons in Hsr as [Hlvr Hsr].
  cbn [locate inorder] in *. apply elem_of_app in Hx as [Hx|Hx].
  - assert (Hb : before desc (price_of x) (Level_Price lv)).
    { apply Hlr; [apply list_elem_of_fmap; eauto | left]. }
    destruct (Z.eqb_spec (price_of x) (Level_Price lv)) as [He|_].
    { exfalso. rewrite He in Hb. exact (before_irrefl _ _ Hb). }
    apply compare_before in Hb. rewrite Hb.
    destruct (IHl (WentLeft lv ol b r :: path) Hsl Hx) as (l' & b' & r' & path' & Hloc & Hplug).
    exists l', b', r', path'. split; [exact Hloc|]. rewrite Hplug. reflexivity.
  - apply elem_of_cons in Hx as [->|Hx].
    + unfold price_of at 1. cbn [fst]. rewrite Z.eqb_refl.
      exists l, b, r, path. split; reflexivity.
    + assert (Hb : before desc (Level_Price lv) (price_of x)).
      { apply Hlvr. apply list_elem_of_fmap; eauto. }
      destruct (Z.eqb_spec (price_of x) (Level_Price lv)) as [He|_].
      { exfalso. rewrite He in Hb. exact (before_irrefl _ _ Hb). }
      destruct (compare desc (price_of x) (Level_Price lv) <? 0) eqn:E.
      { apply compare_before in E. exfalso. exact (before_asym _ _ _ Hb E). }
      destruct (IHr (WentRight l lv ol b :: path) Hsr Hx)
        as (l' & b' & r' & path' & Hloc & Hplug).
      exists l', b', r', path'. split; [exact Hloc|]. rewrite Hplug. reflexivity.
Qed.

(** The descent of [Insert] ends at a free slot that splits the levels
    into those in front of the new price and those behind it. *)
Lemma insert_path_spec (p : Z) (t : LevelNode) :
  forall path : list Frame,
  sorted desc (keys t) -> p ∉ keys t ->
  exists L R,
    inorder t = L ++ R /\
    plug (insert_path desc p t path) Nil = plug path t /\
    lefts (insert_path desc p t path) = lefts path ++ L /\
    rights (insert_path desc p t path) = R ++ rights path /\
    (forall x, x ∈ L -> before desc (price_of x) p) /\
    (forall y, y ∈ R -> before desc p (price_of y)).
Proof.
  induction t as [|l IHl lv ol b r IHr]; intros path Hs Hp.
  { exists [], []. cbn. rewrite app_nil_r. repeat split; auto; intros ? H; inversion H. }
  rewrite keys_Node in Hs, Hp. apply sorted_app in Hs as (Hsl & Hsr & Hlr).
  apply sorted_cons in Hsr as [Hlvr Hsr].
  assert (Hpl : p ∉ keys l) by (intros H; apply Hp, elem_of_app; now left).
  assert (Hpr : p ∉ keys r) by (intros H; apply Hp, elem_of_app; right; now right).
  assert (Hne : p <> Level_Price lv) by (intros ->; apply Hp, elem_of_app; right; left).
  cbn [insert_path inorder].
  destruct (compare desc p (Level_Price lv) <? 0) eqn:E.
  - apply compare_before in E.
    destruct (IHl (WentLeft lv ol b r :: path) Hsl Hpl) as (L & R & Hi & Hplug & HL & HR & HbL & HbR).
    exists L, (R ++ (lv, ol) :: inorder r). rewrite Hi, Hplug, HL, HR.
    cbn [lefts rights lefts1 rights1 plug fold_left plug1]. flatten_lists.
    repeat split; auto.
    intros y Hy. apply elem_of_app in Hy as [Hy|Hy]; [auto|].
    apply elem_of_cons in Hy as [->|Hy]; [exact E|].
    eapply before_trans; [exact E|]. apply Hlvr. apply list_elem_of_fmap; eauto.
  - apply compare_not_before in E; [|exact Hne].
    destruct (IHr (WentRight l lv ol b :: path) Hsr Hpr) as (L & R & Hi & Hplug & HL & HR & HbL & HbR).
    exists (inorder l ++ (lv, ol) :: L), R. rewrite Hi, Hplug, HL, HR.
    cbn [lefts rights lefts1 rights1 plug fold_left plug1]. flatten_lists.
    repeat split; auto.
    intros x Hx. apply elem_of_app in Hx as [Hx|Hx].
    + eapply before_trans; [|exact E]. apply Hlr; [apply list_elem_of_fmap; eauto | left].
    + apply elem_of_cons in Hx as [->|Hx]; [exact E | auto].
Qed.

(** The successor search: the leftmost node of a subtree. *)
Lemma leftmost_path_spec (t : LevelNode) :
  forall path : list Frame,
  t <> Nil ->
  exists slv sol sb sright spath,
    leftmost_path t path = Some (slv, sol, sright, spath) /\
    plug spath (Node Nil slv sol sb sright) = plug path t /\
    lefts spath = lefts path.
Proof.
  induction t as [|l IHl lv ol b r _]; intros path Hne; [contradiction|].
  cbn [leftmost_path]. destruct l as [|ll llv lol lb lr].
  - exists lv, ol, b, r, path. auto.
  - destruct (IHl (WentLeft lv ol b r :: path) ltac:(discriminate))
      as (slv & sol & sb & sright & spath & Hlm & Hplug & Hl).
    exists slv, sol, sb, sright, spath. split; [exact Hlm|]. split; [exact Hplug|].
    rewrite Hl. cbn [lefts lefts1]. now rewrite app_nil_r.
Qed.

End Descents.

Section InsertRemove.

Lemma lefts_app (p1 p2 : list Frame) : lefts (p1 ++ p2) = lefts p2 ++ lefts p1.
Proof.
  induction p1 as [|f p1 IH]; cbn [app lefts]; [now rewrite app_nil_r|].
  now rewrite IH, app_assoc.
Qed.

Lemma rights_app (p1 p2 : list Frame) : rights (p1 ++ p2) = rights p1 ++ rights p2.
Proof.
  induction p1 as [|f p1 IH]; cbn [app rights]; [reflexivity|].
  now rewrite IH, app_assoc.
Qed.

Lemma sorted_fmap_app (desc : bool) (L R : list entry) :
  sorted desc (price_of <$> (L ++ R)) <->
  sorted desc (price_of <$> L) /\ sorted desc (price_of <$> R) /\
  (forall x y, x ∈ L -> y ∈ R -> before desc (price_of x) (price_of y)).
Proof.
  rewrite fmap_app, sorted_app. split; intros (H1 & H2 & H3); repeat split; auto.
  - intros x y Hx Hy. apply H3; apply list_elem_of_fmap; eauto.
  - intros p q Hp Hq. apply list_elem_of_fmap in Hp as (x & -> & Hx).
    apply list_elem_of_fmap in Hq as (y & -> & Hy). auto.
Qed.

(** Taking one level out of, or putting one into, a sorted sequence. *)
Lemma sorted_remove_middle (desc : bool) (L R : list entry) (x : entry) :
  sorted desc (price_of <$> (L ++ x :: R)) -> sorted desc (price_of <$> (L ++ R)).
Proof.
  rewrite !sorted_fmap_app. intros (HL & HR & HLR).
  change (price_of <$> x :: R) with (price_of x :: (price_of <$> R)) in HR.
  apply sorted_cons in HR as [_ HR].
  repeat split; auto. intros a b Ha Hb. apply HLR; [exact Ha | now right].
Qed.

Lemma sorted_insert_middle (desc : bool) (L R : list entry) (x : entry) :
  sorted desc (price_of <$> (L ++ R)) ->
  (forall a, a ∈ L -> before desc (price_of a) (price_of x)) ->
  (forall b, b ∈ R -> before desc (price_of x) (price_of b)) ->
  sorted desc (price_of <$> (L ++ x :: R)).
Proof.
  rewrite !sorted_fmap_app. intros (HL & HR & HLR) Ha Hb.
  repeat split; auto.
  - change (price_of <$> x :: R) with (price_of x :: (price_of <$> R)).
    apply sorted_cons. split; [|exact HR].
    intros q Hq. apply list_elem_of_fmap in Hq as (y & -> & Hy). auto.
  - intros a b Hina Hinb. apply elem_of_cons in Hinb as [->|Hinb]; auto.
Qed.

Lemma Insert_spec (t : AVLTree) (ty p : Z) :
  tree_wf t -> p ∉ keys (root t) ->
  exists t' L R,
    Insert t (NewLevelNode ty p) = Some t' /\ tree_wf t' /\
    descending t' = descending t /\
    inorder (root t) = L ++ R /\
    inorder (root t') = L ++ (NewLevel ty p, emptyOrderList) :: R /\
    (forall a, a ∈ L -> before (descending t) (price_of a) p).
Proof.
  intros [Havl Hsorted] Hp.
  destruct (insert_path_spec (descending t) p (root t) [] Hsorted Hp)
    as (L & R & Hi & Hplug & HL & HR & HbL & HbR).
  cbn [plug fold_left lefts rights app] in Hplug, HL, HR. rewrite app_nil_r in HR.
  set (leaf := NewLevelNode ty p).
  assert (Hpath : avl_path (insert_path (descending t) p (root t) []) 0).
  { pose proof Havl as H. rewrite <- Hplug in H. apply avl_plug_inv in H as [_ H]. exact H. }
  destruct (rebalanceInsert_spec (insert_path (descending t) p (root t) []) leaf 0)
    as (r' & Hgo & Hr' & Hin); auto; try lia.
  { cbn [avl leaf NewLevelNode height]. repeat split; auto; lia. }
  assert (Hin' : inorder r' = L ++ (NewLevel ty p, emptyOrderList) :: R).
  { rewrite Hin, inorder_plug, HL, HR. reflexivity. }
  assert (Hs' : sorted (descending t) (price_of <$> (L ++ (NewLevel ty p, emptyOrderList) :: R))).
  { apply sorted_insert_middle; auto. unfold keys in Hsorted. now rewrite Hi in Hsorted. }
  subst leaf. unfold Insert, NewLevelNode in *.
  change (Level_Price (NewLevel ty p)) with p.
  destruct (root t) as [|l lv ol b r] eqn:Er.
  - (* the first level of the tree *)
    cbn in Hi. destruct L; [|discriminate]. destruct R; [|discriminate].
    eexists _, [], []. split; [reflexivity|]. cbn [root descending].
    split; [|auto].
    split; cbn [root descending]; [cbn; repeat split; auto; lia|].
    exact Hs'.
  - rewrite Hgo. cbn [mbind option_bind].
    eexists _, L, R. split; [reflexivity|]. cbn [root descending].
    split; [|auto].
    split; cbn [root descending]; [exact Hr'|].
    unfold keys. rewrite Hin'. exact Hs'.
Qed.

(** A subtree one level lower takes the place of the one below the
    first frame. *)
Lemma replace_shrunk (f : Frame) (rest : list Frame) (repl : LevelNode) (hn : Z) :
  avl repl -> height repl = hn - 1 -> avl_path (f :: rest) hn ->
  exists t',
    rebalanceRemove (plug1 f repl) rest = Some t' /\ avl t' /\
    inorder t' = inorder (plug (f :: rest) repl).
Proof.
  intros Hr Hh Hp. rewrite plug_cons.
  destruct f as [plv pol pb pr|pl plv pol pb]; cbn [avl_path] in Hp;
    destruct Hp as (Hs & Hb & Hbr & Hrest); cbn [plug1].
  - apply (rebalanceRemove_spec rest repl pr plv pol pb hn (height pr)); auto.
  - apply (rebalanceRemove_spec rest pl repl plv pol pb (height pl) hn); auto.
Qed.

Lemma Remove_spec (t : AVLTree) (x : entry) :
  tree_wf t -> x ∈ inorder (root t) ->
  exists t' L R,
    Remove t (price_of x) = Some t' /\ tree_wf t' /\
    descending t' = descending t /\
    inorder (root t) = L ++ x :: R /\
    inorder (root t') = L ++ R.
Proof.
  intros [Havl Hsorted] Hx.
  destruct (locate_spec (descending t) x (root t) [] Hsorted Hx)
    as (l & b & r & path & Hloc & Hplug).
  cbn [plug fold_left] in Hplug.
  assert (Hinorder : inorder (root t)
                     = (lefts path ++ inorder l) ++ x :: (inorder r ++ rights path)).
  { rewrite <- Hplug, inorder_plug. cbn [inorder]. destruct x. flatten_lists. reflexivity. }
  pose proof Havl as Hnode. rewrite <- Hplug in Hnode.
  apply avl_plug_inv in Hnode as [Hnode Hpath].
  cbn [avl] in Hnode. destruct Hnode as (Hl & Hr & Hb & Hbr).
  rewrite height_Node in Hpath.
  pose proof (height_nonneg l) as Hl0. pose proof (height_nonneg r) as Hr0.
  (* every case ends with a tree of the remaining levels *)
  assert (Hfinish : forall r' : LevelNode,
            avl r' -> inorder r' = (lefts path ++ inorder l) ++ inorder r ++ rights path ->
            exists t' L R,
              Some {| root := r'; tree_size := tree_size t - 1; descending := descending t |}
              = Some t' /\ tree_wf t' /\ descending t' = descending t /\
              inorder (root t) = L ++ x :: R /\ inorder (root t') = L ++ R).
  { intros r' Hr' Hin. eexists _, _, _. split; [reflexivity|]. cbn [root descending].
    split; [|split; [reflexivity|split; [exact Hinorder|exact Hin]]].
    split; cbn [root descending]; [exact Hr'|].
    unfold keys. rewrite Hin. eapply sorted_remove_middle.
    unfold keys in Hsorted. rewrite Hinorder in Hsorted. exact Hsorted. }
  (* a child, or nothing, takes the place of the node *)
  assert (Hreplace : forall repl : LevelNode,
            avl repl -> height repl = Z.max (height l) (height r) ->
            inorder repl = inorder l ++ inorder r ->
            exists t' L R,
              match path with
              | [] => Some {| root := repl; tree_size := tree_size t - 1;
                              descending := descending t |}
              | f :: rest =>
                  r0 ← rebalanceRemove (plug1 f repl) rest;
                  Some {| root := r0; tree_size := tree_size t - 1;
                          descending := descending t |}
              end = Some t' /\ tree_wf t' /\ descending t' = descending t /\
              inorder (root t) = L ++ x :: R /\ inorder (root t') = L ++ R).
  { intros repl Hrepl Hh Hin. destruct path as [|f rest].
    - apply Hfinish; [exact Hrepl|]. cbn [lefts rights]. rewrite Hin. flatten_lists.
      reflexivity.
    - destruct (replace_shrunk f rest repl (1 + Z.max (height l) (height r)))
        as (r0 & Hgo & Hr0' & Hin0); auto; try lia.
      rewrite Hgo. cbn [mbind option_bind]. apply Hfinish; [exact Hr0'|].
      rewrite Hin0, inorder_plug, Hin. flatten_lists. reflexivity. }
  unfold Remove. rewrite Hloc. cbn [mbind option_bind].
  destruct l as [|ll llv lol lb lr]; destruct r as [|rl rlv rol rb rr].
  - apply Hreplace; cbn; auto.
  - apply Hreplace; auto.
    rewrite !height_Node in *. cbn [height] in *. lia.
  - apply Hreplace; auto.
    + rewrite !height_Node in *. cbn [height] in *. lia.
    + cbn [inorder]. now rewrite app_nil_r.
  - (* two children: the successor moves up *)
    set (rt := Node rl rlv rol rb rr) in *.
    destruct (leftmost_path_spec rt [] ltac:(discriminate))
      as (slv & sol & sb & sright & spath & Hlm & Hsplug & Hsl).
    cbn [plug fold_left lefts] in Hsplug, Hsl.
    rewrite Hlm. cbn [mbind option_bind].
    pose proof Hr as Hsucc. rewrite <- Hsplug in Hsucc.
    apply avl_plug_inv in Hsucc as [Hsucc Hspath].
    cbn [avl] in Hsucc. destruct Hsucc as (_ & Hsr & Hsb & Hsbr).
    rewrite height_Node in Hspath. cbn [height] in Hsb, Hspath.
    pose proof (height_nonneg sright) as Hsr0.
    assert (Hfull : avl_path (spath ++ WentRight (Node ll llv lol lb lr) slv sol b :: path)
                             (1 + Z.max 0 (height sright))).
    { apply avl_path_app. split; [exact Hspath|].
      replace (path_height spath (1 + Z.max 0 (height sright))) with (height rt).
      2:{ rewrite <- Hsplug at 1. rewrite height_plug, height_Node. reflexivity. }
      cbn [avl_path]. split; [exact Hl|]. split; [exact Hb|]. split; [exact Hbr|].
      exact Hpath. }
    assert (Hrt : inorder rt = (slv, sol) :: inorder sright ++ rights spath).
    { rewrite <- Hsplug, inorder_plug, Hsl. reflexivity. }
    destruct (spath ++ WentRight (Node ll llv lol lb lr) slv sol b :: path) as [|f rest] eqn:Efull.
    { exfalso. destruct spath; discriminate. }
    destruct (replace_shrunk f rest sright (1 + Z.max 0 (height sright)))
      as (r0 & Hgo & Hr0' & Hin0); auto; try lia.
    rewrite Hgo. cbn [mbind option_bind]. apply Hfinish; [exact Hr0'|].
    rewrite Hin0, <- Efull, inorder_plug, lefts_app, rights_app, Hsl, Hrt.
    cbn [lefts rights lefts1 rights1]. flatten_lists. reflexivity.
Qed.

End InsertRemove.

Section Lookup.

(** [Find] on a sorted tree is the lookup of a price in its levels. *)
Lemma Find_iff (t : AVLTree) (p : Z) (x : entry) :
  sorted (descending t) (keys (root t)) ->
  Find t p = Some x <-> x ∈ inorder (root t) /\ price_of x = p.
Proof.
  intros Hs. unfold Find. split.
  - apply Find_node_sound.
  - intros [Hx <-]. now apply Find_node_complete.
Qed.

Lemma Find_None_iff (t : AVLTree) (p : Z) :
  sorted (descending t) (keys (root t)) ->
  Find t p = None <-> p ∉ keys (root t).
Proof.
  intros Hs. split.
  - now apply Find_node_None.
  - intros Hp. destruct (Find t p) as [x|] eqn:E; [|reflexivity].
    apply (Find_iff t p x Hs) in E as [Hx Hpx]. exfalso. apply Hp.
    apply elem_of_keys. eauto.
Qed.

(** Two sorted trees with the same levels at price [q] answer [Find q]
    alike. *)
Lemma Find_agree (t t' : AVLTree) (q : Z) :
  sorted (descending t) (keys (root t)) ->
  sorted (descending t') (keys (root t')) ->
  (forall x, price_of x = q -> x ∈ inorder (root t') <-> x ∈ inorder (root t)) ->
  Find t' q = Find t q.
Proof.
  intros Hs Hs' Hsame. destruct (Find t q) as [x|] eqn:E.
  - apply (Find_iff t q x Hs) in E as [Hx Hp]. apply (Find_iff t' q x Hs').
    split; [now apply Hsame|exact Hp].
  - apply (Find_None_iff t' q Hs'). apply (Find_None_iff t q Hs) in E.
    intros Hq. apply E. apply elem_of_keys in Hq as (x & Hx & Hp).
    apply elem_of_keys. exists x. split; [now apply Hsame|exact Hp].
Qed.

Lemma Insert_size (t t' : AVLTree) (level : LevelNode) :
  Insert t level = Some t' -> tree_size t' = tree_size t + 1.
Proof.
  unfold Insert. destruct level as [|l lv ol b r]; [discriminate|].
  destruct (root t); [now intros [= <-]|].
  destruct (rebalanceInsert _ _); [|discriminate]. now intros [= <-].
Qed.

Lemma Remove_size (t t' : AVLTree) (p : Z) :
  Remove t p = Some t' -> tree_size t' = tree_size t - 1.
Proof.
  unfold Remove. destruct (locate _ _ _ _) as [[node path]|]; [|discriminate].
  cbn [mbind option_bind]. intros H.
  assert (Hfin : forall r : option LevelNode,
            (r ≫= (fun r0 => Some {| root := r0; tree_size := tree_size t - 1;
                                     descending := descending t |})) = Some t' ->
            tree_size t' = tree_size t - 1).
  { intros [r0|]; [|discriminate]. now intros [= <-]. }
  destruct node as [|l lv ol b r]; [discriminate|].
  destruct l, r; try (destruct path; [now injection H as <-|exact (Hfin _ H)]).
  destruct (leftmost_path _ _) as [[[[slv sol] sright] spath]|]; [|discriminate].
  cbn [mbind option_bind] in H.
  destruct (spath ++ _); [discriminate|exact (Hfin _ H)].
Qed.

End Lookup.


(* ================================================================== *)
(** * Proofs: the order book *)

Section BookAccess.

Lemma tree_of_set_index (i j : Index) (t : AVLTree) (b : option Z) (ob : OrderBook) :
  tree_of j (set_index i t b ob) = if decide (j = i) then t else tree_of j ob.
Proof. destruct i, j; reflexivity. Qed.

Lemma best_of_set_index (i j : Index) (t : AVLTree) (b : option Z) (ob : OrderBook) :
  best_of j (set_index i t b ob) = if decide (j = i) then b else best_of j ob.
Proof. destruct i, j; reflexivity. Qed.

Lemma symbol_set_index (i : Index) (t : AVLTree) (b : option Z) (ob : OrderBook) :
  symbol (set_index i t b ob) = symbol ob.
Proof. reflexivity. Qed.

Lemma levels_set_index (i j : Index) (t : AVLTree) (b : option Z) (ob : OrderBook) :
  levels j (set_index i t b ob) = if decide (j = i) then inorder (root t) else levels j ob.
Proof. unfold levels. rewrite tree_of_set_index. now destruct (decide (j = i)). Qed.

Lemma improves_before (i : Index) (p b : Z) :
  improves i p b = true <-> before (desc_of i) p b.
Proof.
  destruct i; cbn [improves desc_of before];
    (destruct (Z.gtb_spec p b) || destruct (Z.ltb_spec p b)); split; (lia || discriminate || auto).
Qed.

Lemma NewOrderBook_wf (s : Symbol) : book_wf (NewOrderBook s).
Proof.
  split; intros i; destruct i; try reflexivity; split; cbn; auto.
Qed.

Lemma NewOrderBook_levels (s : Symbol) (i : Index) : levels i (NewOrderBook s) = [].
Proof. destruct i; reflexivity. Qed.

End BookAccess.

Section Levels.

Lemma fmap_injective_on {A B : Type} (f : A -> B) (l : list A) (x y : A) :
  NoDup (f <$> l) -> x ∈ l -> y ∈ l -> f x = f y -> x = y.
Proof.
  induction l as [|a l IH]; intros Hnd Hx Hy Hf; [inversion Hx|].
  rewrite fmap_cons in Hnd. apply NoDup_cons in Hnd as [Ha Hnd].
  apply elem_of_cons in Hx as [->|Hx]; apply elem_of_cons in Hy as [->|Hy]; auto.
  - exfalso. apply Ha. rewrite Hf. apply list_elem_of_fmap. eauto.
  - exfalso. apply Ha. rewrite <- Hf. apply list_elem_of_fmap. eauto.
Qed.

(** A price names one level of an index. *)
Lemma level_unique (ob : OrderBook) (i : Index) (x y : entry) :
  book_wf ob -> x ∈ levels i ob -> y ∈ levels i ob ->
  price_of x = price_of y -> x = y.
Proof.
  intros Hwf Hx Hy Hp. eapply (fmap_injective_on price_of); eauto.
  eapply sorted_NoDup. apply (wf_sorted _ (bw_tree ob Hwf i)).
Qed.

Lemma deref_level (ob : OrderBook) (i : Index) (x : entry) :
  book_wf ob -> x ∈ levels i ob -> deref ob (i, price_of x) = Some x.
Proof.
  intros Hwf Hx. unfold deref, Find. cbn [fst snd].
  apply Find_node_complete; [|exact Hx]. apply (wf_sorted _ (bw_tree ob Hwf i)).
Qed.

Lemma deref_sound (ob : OrderBook) (i : Index) (p : Z) (x : entry) :
  deref ob (i, p) = Some x -> x ∈ levels i ob /\ price_of x = p.
Proof. unfold deref, Find. cbn [fst snd]. apply Find_node_sound. Qed.

Lemma deref_None (ob : OrderBook) (i : Index) (p : Z) :
  book_wf ob -> deref ob (i, p) = None -> forall x, x ∈ levels i ob -> price_of x <> p.
Proof.
  intros Hwf Hn x Hx <-. rewrite (deref_level ob i x Hwf Hx) in Hn. discriminate.
Qed.

(** The first level of a sorted sequence is in front of all others. *)
Lemma head_first (desc : bool) (l : list entry) (h y : entry) :
  sorted desc (price_of <$> l) -> head l = Some h -> y ∈ l ->
  y = h \/ before desc (price_of h) (price_of y).
Proof.
  destruct l as [|a l]; [discriminate|]. intros Hs [= ->] Hy.
  apply elem_of_cons in Hy as [->|Hy]; [now left|right].
  rewrite fmap_cons in Hs. apply sorted_cons in Hs as [Hs _].
  apply Hs. apply list_elem_of_fmap. eauto.
Qed.

Lemma middle_elem (L R : list entry) (x y : entry) :
  NoDup (price_of <$> (L ++ x :: R)) ->
  (y ∈ L ++ R <-> y ∈ L ++ x :: R /\ price_of y <> price_of x).
Proof.
  intros Hnd. rewrite !elem_of_app, elem_of_cons.
  rewrite fmap_app, fmap_cons in Hnd. apply NoDup_app in Hnd as (_ & HLR & HR).
  apply NoDup_cons in HR as [HxR _].
  assert (HL : forall y, y ∈ L -> price_of y <> price_of x).
  { intros z Hz He. apply (HLR (price_of z)); [apply list_elem_of_fmap; eauto|].
    rewrite He. left. }
  assert (HR : forall y, y ∈ R -> price_of y <> price_of x).
  { intros z Hz He. apply HxR. rewrite <- He. apply list_elem_of_fmap; eauto. }
  split.
  - intros [H|H]; split; auto.
  - intros [[H|[->|H]] Hne]; auto. contradiction.
Qed.

End Levels.

Section BookOperations.

Lemma head_fmap_price (l : list entry) : head (price_of <$> l) = price_of <$> head l.
Proof. now destruct l. Qed.

Lemma with_level_spec (ob : OrderBook) (i : Index) (x : entry) (f : entry -> entry) :
  book_wf ob -> x ∈ levels i ob ->
  (forall y, price_of (f y) = price_of y) ->
  exists ob',
    with_level ob (i, price_of x) f = Some ob' /\ book_wf ob' /\
    symbol ob' = symbol ob /\
    (forall j, j <> i -> levels j ob' = levels j ob) /\
    (forall j, best_of j ob' = best_of j ob) /\
    (forall y, y ∈ levels i ob' <-> y = f x \/ (y ∈ levels i ob /\ price_of y <> price_of x)).
Proof.
  intros Hwf Hx Hf.
  pose proof (bw_tree ob Hwf i) as [Havl Hsorted].
  destruct (update_node_spec (descending (tree_of i ob)) f (root (tree_of i ob)) x Hf Hsorted Hx)
    as (t' & L & R & Hu & Hi & Hi' & Hk & Hh & Ha).
  unfold with_level, update_level. cbn [fst snd]. rewrite Hu. cbn [mbind option_bind].
  eexists. split; [reflexivity|].
  set (T := {| root := t'; tree_size := tree_size (tree_of i ob);
               descending := descending (tree_of i ob) |}).
  assert (Hlev : forall j, levels j (set_index i T (best_of i ob) ob)
                           = if decide (j = i) then L ++ f x :: R else levels j ob).
  { intros j. rewrite levels_set_index. destruct (decide (j = i)); [exact Hi'|reflexivity]. }
  split; [|split; [reflexivity|split; [|split]]].
  - split; intros j.
    + rewrite tree_of_set_index. destruct (decide (j = i)) as [->|]; [|apply Hwf].
      split; cbn [root descending T]; [auto|]. now rewrite Hk.
    + rewrite tree_of_set_index. destruct (decide (j = i)) as [->|]; [|apply Hwf].
      cbn [descending T]. apply Hwf.
    + rewrite best_of_set_index, Hlev. destruct (decide (j = i)) as [->|]; [|apply Hwf].
      rewrite (bw_best ob Hwf i). unfold levels. rewrite <- !head_fmap_price.
      fold (keys (root (tree_of i ob))). rewrite <- Hk. unfold keys. now rewrite Hi'.
  - intros j Hj. rewrite Hlev. now destruct (decide (j = i)).
  - intros j. rewrite best_of_set_index. now destruct (decide (j = i)) as [->|].
  - intros y. rewrite Hlev. destruct (decide (i = i)); [|contradiction].
    unfold levels. rewrite Hi.
    assert (Hnd : NoDup (price_of <$> (L ++ x :: R))).
    { rewrite <- Hi. eapply sorted_NoDup. exact Hsorted. }
    rewrite <- (middle_elem L R x y Hnd).
    rewrite !elem_of_app, elem_of_cons. tauto.
Qed.

Lemma OrderBook_AddLevel_spec (ob : OrderBook) (o : Order) :
  book_wf ob ->
  (forall y, y ∈ levels (index_of o) ob -> price_of y <> route_price o) ->
  exists ob',
    OrderBook_AddLevel ob o = Some (ob', (index_of o, route_price o)) /\ book_wf ob' /\
    symbol ob' = symbol ob /\
    (forall j, j <> index_of o -> levels j ob' = levels j ob) /\
    (forall j, j <> index_of o -> best_of j ob' = best_of j ob) /\
    (forall y, y ∈ levels (index_of o) ob' <->
       y = (NewLevel (if IsBuy o then LevelTypeBid else LevelTypeAsk) (route_price o),
            emptyOrderList) \/ y ∈ levels (index_of o) ob).
Proof.
  intros Hwf Hfresh. set (i := index_of o) in *. set (p := route_price o) in *.
  set (ty := if IsBuy o then LevelTypeBid else LevelTypeAsk).
  assert (Hp : p ∉ keys (root (tree_of i ob))).
  { intros Hin. apply elem_of_keys in Hin as (y & Hy & He). exact (Hfresh y Hy He). }
  destruct (Insert_spec (tree_of i ob) ty p (bw_tree ob Hwf i) Hp)
    as (t' & L & R & Hins & Hwf' & Hd & Hi & Hi' & HbL).
  unfold OrderBook_AddLevel. fold i p ty. rewrite Hins. cbn [mbind option_bind].
  eexists. split; [reflexivity|].
  set (best' := match best_of i ob with
                | Some b => if improves i p b then Some p else Some b
                | None => Some p
                end).
  assert (Hlev : forall j, levels j (set_index i t' best' ob)
                           = if decide (j = i)
                             then L ++ (NewLevel ty p, emptyOrderList) :: R
                             else levels j ob).
  { intros j. rewrite levels_set_index. destruct (decide (j = i)); [exact Hi'|reflexivity]. }
  split; [|split; [reflexivity|split; [|split]]].
  - split; intros j.
    + rewrite tree_of_set_index. destruct (decide (j = i)) as [->|]; [exact Hwf'|apply Hwf].
    + rewrite tree_of_set_index. destruct (decide (j = i)) as [->|]; [|apply Hwf].
      rewrite Hd. apply Hwf.
    + rewrite best_of_set_index, Hlev. destruct (decide (j = i)) as [->|]; [|apply Hwf].
      subst best'. rewrite (bw_best ob Hwf i). unfold levels. rewrite Hi.
      destruct L as [|a L']; cbn [app head fmap option_fmap option_map].
      * destruct R as [|y R']; cbn [head fmap option_fmap option_map]; [reflexivity|].
        assert (Hb : before (desc_of i) p (price_of y)).
        { destruct Hwf' as [_ Hs]. unfold keys in Hs. rewrite Hi' in Hs.
          cbn [app] in Hs. rewrite fmap_cons in Hs. apply sorted_cons in Hs as [Hs _].
          rewrite Hd, (bw_desc ob Hwf i) in Hs.
          apply (Hs (price_of y)). rewrite fmap_cons. left. }
        apply improves_before in Hb. now rewrite Hb.
      * assert (Hb : before (desc_of i) (price_of a) p).
        { rewrite <- (bw_desc ob Hwf i). apply HbL. left. }
        destruct (improves i p (price_of a)) eqn:E; [|reflexivity].
        apply improves_before in E. exfalso. exact (before_asym _ _ _ Hb E).
  - intros j Hj. rewrite Hlev. now destruct (decide (j = i)).
  - intros j Hj. rewrite best_of_set_index. now destruct (decide (j = i)).
  - intros y. rewrite Hlev. destruct (decide (i = i)); [|contradiction].
    unfold levels. rewrite Hi. rewrite !elem_of_app, elem_of_cons. tauto.
Qed.

(** The writes of [AddOrder], [ReduceOrder] and [DeleteOrder] to a level. *)
Lemma add_volumes_price (lv : Level) (t h v n : Z) :
  Level_Price (add_volumes lv t h v n) = Level_Price lv.
Proof. reflexivity. Qed.

Lemma OrderBook_AddOrder_spec (ob : OrderBook) (o : Order) :
  book_wf ob ->
  exists ob' x0,
    OrderBook_AddOrder ob o = Some (ob', (index_of o, route_price o)) /\ book_wf ob' /\
    symbol ob' = symbol ob /\
    (forall j, j <> index_of o -> levels j ob' = levels j ob) /\
    (forall j, j <> index_of o -> best_of j ob' = best_of j ob) /\
    price_of x0 = route_price o /\
    (x0 ∈ levels (index_of o) ob \/
     (x0 = (NewLevel (if IsBuy o then LevelTypeBid else LevelTypeAsk) (route_price o),
            emptyOrderList) /\
      forall y, y ∈ levels (index_of o) ob -> price_of y <> route_price o)) /\
    (forall y, y ∈ levels (index_of o) ob' <->
       y = (add_volumes x0.1 (LeavesQuantity o) (HiddenQuantity o) (VisibleQuantity o) 1,
            PushBack x0.2 (ID o)) \/
       (y ∈ levels (index_of o) ob /\ price_of y <> route_price o)).
Proof.
  intros Hwf. set (i := index_of o). set (p := route_price o).
  set (f := fun '(lv, ol) =>
              (add_volumes lv (LeavesQuantity o) (HiddenQuantity o) (VisibleQuantity o) 1,
               PushBack ol (ID o))).
  assert (Hf : forall y, price_of (f y) = price_of y) by (now intros [lv ol]).
  unfold OrderBook_AddOrder. fold i p. fold f.
  destruct (Find (tree_of i ob) p) as [x|] eqn:HF.
  - apply (deref_sound ob i p x) in HF as [Hx Hp].
    destruct (with_level_spec ob i x f Hwf Hx Hf) as (ob' & Hw & Hwf' & Hsym & Hoth & Hbest & Hlev).
    rewrite Hp in Hw. cbn [mbind option_bind]. rewrite Hw. cbn [mbind option_bind].
    exists ob', x. split; [reflexivity|]. split; [exact Hwf'|]. split; [exact Hsym|].
    split; [exact Hoth|]. split; [intros; apply Hbest|]. split; [exact Hp|].
    split; [now left|]. intros y. rewrite Hlev, Hp. now destruct x.
  - assert (Hfresh : forall y, y ∈ levels i ob -> price_of y <> p).
    { apply deref_None; assumption. }
    destruct (OrderBook_AddLevel_spec ob o Hwf Hfresh)
      as (ob1 & Ha & Hwf1 & Hsym1 & Hoth1 & Hbest1 & Hlev1).
    fold i p in Ha, Hoth1, Hbest1, Hlev1. rewrite Ha. cbn [mbind option_bind].
    set (x0 := (NewLevel (if IsBuy o then LevelTypeBid else LevelTypeAsk) p, emptyOrderList)
               : entry) in *.
    assert (Hx0 : x0 ∈ levels i ob1) by (apply Hlev1; now left).
    destruct (with_level_spec ob1 i x0 f Hwf1 Hx0 Hf)
      as (ob' & Hw & Hwf' & Hsym & Hoth & Hbest & Hlev).
    change (price_of x0) with p in Hw, Hlev. rewrite Hw. cbn [mbind option_bind].
    exists ob', x0. split; [reflexivity|]. split; [exact Hwf'|].
    split; [now rewrite Hsym|].
    split; [intros j Hj; now rewrite Hoth, Hoth1|].
    split; [intros j Hj; now rewrite Hbest, Hbest1|].
    split; [reflexivity|]. split; [right; split; [reflexivity|exact Hfresh]|].
    intros y. rewrite Hlev, Hlev1. split.
    + intros [->|[[->|Hy] Hne]]; [now left|contradiction|now right].
    + intros [->|[Hy Hne]]; [now left|right; split; [now right|exact Hne]].
Qed.

Lemma OrderBook_ReduceOrder_spec (ob : OrderBook) (n : OrderNode) (i : Index) (x : entry)
    (q h v : Z) :
  book_wf ob -> node_Level n = Some (i, price_of x) -> x ∈ levels i ob ->
  exists ob',
    OrderBook_ReduceOrder ob n q h v = Some ob' /\ book_wf ob' /\
    symbol ob' = symbol ob /\
    (forall j, j <> i -> levels j ob' = levels j ob) /\
    (forall j, best_of j ob' = best_of j ob) /\
    (forall y, y ∈ levels i ob' <->
       y = (add_volumes x.1 (- q) (- h) (- v) 0, x.2) \/
       (y ∈ levels i ob /\ price_of y <> price_of x)).
Proof.
  intros Hwf Hn Hx. unfold OrderBook_ReduceOrder. rewrite Hn. cbn [mbind option_bind].
  set (f := fun '(lv, ol) => (add_volumes lv (- q) (- h) (- v) 0, ol)).
  assert (Hf : forall y, price_of (f y) = price_of y) by (now intros [lv ol]).
  destruct (with_level_spec ob i x f Hwf Hx Hf) as (ob' & Hw & Hrest).
  exists ob'. split; [exact Hw|]. destruct x. exact Hrest.
Qed.

Lemma OrderBook_DeleteLevel_spec (ob : OrderBook) (o : Order) (x : entry) :
  book_wf ob -> x ∈ levels (index_of o) ob ->
  exists ob',
    OrderBook_DeleteLevel ob o (index_of o, price_of x) = Some ob' /\ book_wf ob' /\
    symbol ob' = symbol ob /\
    (forall j, j <> index_of o -> levels j ob' = levels j ob) /\
    (forall j, j <> index_of o -> best_of j ob' = best_of j ob) /\
    (forall y, y ∈ levels (index_of o) ob' <->
       y ∈ levels (index_of o) ob /\ price_of y <> price_of x).
Proof.
  intros Hwf Hx. set (i := index_of o) in *.
  destruct (Remove_spec (tree_of i ob) x (bw_tree ob Hwf i) Hx)
    as (t' & L & R & Hrm & Hwf' & Hd & Hi & Hi').
  unfold OrderBook_DeleteLevel. fold i. cbn [fst snd].
  destruct (decide (i = i)); [|contradiction]. rewrite Hrm. cbn [mbind option_bind].
  eexists. split; [reflexivity|].
  set (best' := if decide (best_of i ob = Some (price_of x))
                then (fun '(lv, _) => Level_Price lv) <$> First t'
                else best_of i ob).
  assert (Hnd : NoDup (price_of <$> (L ++ x :: R))).
  { rewrite <- Hi. eapply sorted_NoDup. apply (wf_sorted _ (bw_tree ob Hwf i)). }
  assert (Hlev : forall j, levels j (set_index i t' best' ob)
                           = if decide (j = i) then L ++ R else levels j ob).
  { intros j. rewrite levels_set_index. destruct (decide (j = i)); [exact Hi'|reflexivity]. }
  split; [|split; [reflexivity|split; [|split]]].
  - split; intros j.
    + rewrite tree_of_set_index. destruct (decide (j = i)) as [->|]; [exact Hwf'|apply Hwf].
    + rewrite tree_of_set_index. destruct (decide (j = i)) as [->|]; [|apply Hwf].
      rewrite Hd. apply Hwf.
    + rewrite best_of_set_index, Hlev. destruct (decide (j = i)) as [->|]; [|apply Hwf].
      subst best'. rewrite (bw_best ob Hwf i). unfold levels. rewrite Hi.
      destruct L as [|a L']; cbn [app head fmap option_fmap option_map].
      * destruct (decide (Some (price_of x) = Some (price_of x))); [|contradiction].
        unfold First. rewrite First_node_head, Hi'. cbn [app].
        destruct R as [|[lv ol] R']; reflexivity.
      * destruct (decide (Some (price_of a) = Some (price_of x))) as [[= He]|]; [|reflexivity].
        exfalso. cbn [app] in Hnd. rewrite fmap_cons in Hnd.
        apply NoDup_cons in Hnd as [Hnd _]. apply Hnd. rewrite He.
        apply list_elem_of_fmap. exists x. split; [reflexivity|].
        apply elem_of_app. right. left.
  - intros j Hj. rewrite Hlev. now destruct (decide (j = i)).
  - intros j Hj. rewrite best_of_set_index. now destruct (decide (j = i)).
  - intros y. rewrite Hlev. destruct (decide (i = i)); [|contradiction].
    unfold levels. rewrite Hi. apply middle_elem. exact Hnd.
Qed.

Lemma OrderBook_DeleteOrder_spec (ob : OrderBook) (n : OrderNode) (x : entry) :
  let o := node_Order n in
  let x' := (add_volumes x.1 (- LeavesQuantity o) (- HiddenQuantity o)
               (- VisibleQuantity o) (-1),
             OrderList_Remove x.2 (ID o)) in
  book_wf ob -> node_Level n = Some (index_of o, price_of x) ->
  x ∈ levels (index_of o) ob ->
  exists ob',
    OrderBook_DeleteOrder ob n = Some ob' /\ book_wf ob' /\
    symbol ob' = symbol ob /\
    (forall j, j <> index_of o -> levels j ob' = levels j ob) /\
    (forall j, j <> index_of o -> best_of j ob' = best_of j ob) /\
    (forall y, y ∈ levels (index_of o) ob' <->
       (y = x' /\ Size x'.2 <> 0) \/
       (y ∈ levels (index_of o) ob /\ price_of y <> price_of x)).
Proof.
  intros o x' Hwf Hn Hx. set (i := index_of o) in *.
  set (f := fun '(lv, ol) =>
              (add_volumes lv (- LeavesQuantity o) (- HiddenQuantity o)
                 (- VisibleQuantity o) (-1),
               OrderList_Remove ol (ID o))).
  assert (Hf : forall y, price_of (f y) = price_of y) by (now intros [lv ol]).
  assert (Hfx : f x = x') by (now destruct x).
  destruct (with_level_spec ob i x f Hwf Hx Hf) as (ob1 & Hw & Hwf1 & Hsym1 & Hoth1 & Hbest1 & Hlev1).
  unfold OrderBook_DeleteOrder. fold o. rewrite Hn. cbn [mbind option_bind]. fold f.
  rewrite Hw. cbn [mbind option_bind].
  assert (Hx1 : f x ∈ levels i ob1) by (apply Hlev1; now left).
  pose proof (deref_level ob1 i (f x) Hwf1 Hx1) as Hd. rewrite Hf in Hd. rewrite Hd.
  rewrite Hfx in *. subst x'. cbn [mbind option_bind snd] in *.
  set (x' := (add_volumes x.1 (- LeavesQuantity o) (- HiddenQuantity o)
                (- VisibleQuantity o) (-1), OrderList_Remove x.2 (ID o))) in *.
  unfold Empty. destruct (Z.eqb_spec (Size (OrderList_Remove x.2 (ID o))) 0) as [He|Hne].
  - destruct (OrderBook_DeleteLevel_spec ob1 o x' Hwf1 Hx1)
      as (ob' & Hdl & Hwf' & Hsym & Hoth & Hbest & Hlev).
    fold i in Hdl, Hoth, Hbest, Hlev. change (price_of x') with (price_of x) in Hdl, Hlev.
    exists ob'. split; [exact Hdl|]. split; [exact Hwf'|]. split; [now rewrite Hsym|].
    split; [intros j Hj; now rewrite Hoth, Hoth1|].
    split; [intros j Hj; now rewrite Hbest, Hbest1|].
    intros y. rewrite Hlev, Hlev1. split.
    + intros [[->|Hy] Hp]; [exfalso; now apply Hp|now right].
    + intros [[_ Hs]|[Hy Hp]]; [contradiction|]. split; [now right|exact Hp].
  - exists ob1. split; [reflexivity|]. split; [exact Hwf1|]. split; [exact Hsym1|].
    split; [exact Hoth1|]. split; [intros; apply Hbest1|].
    intros y. rewrite Hlev1. split.
    + intros [->|Hy]; [now left|now right].
    + intros [[-> _]|Hy]; [now left|now right].
Qed.

(** The level an order is on after [AddOrder], from the level that was
    at its price before. *)
Lemma OrderBook_AddOrder_level (ob : OrderBook) (o : Order) :
  book_wf ob ->
  let x0 := default (NewLevel (if IsBuy o then LevelTypeBid else LevelTypeAsk)
                       (route_price o), emptyOrderList)
              (deref ob (index_of o, route_price o)) in
  exists ob',
    OrderBook_AddOrder ob o = Some (ob', (index_of o, route_price o)) /\
    deref ob' (index_of o, route_price o)
    = Some (add_volumes x0.1 (LeavesQuantity o) (HiddenQuantity o) (VisibleQuantity o) 1,
            PushBack x0.2 (ID o)).
Proof.
  intros Hwf x0.
  destruct (OrderBook_AddOrder_spec ob o Hwf)
    as (ob' & y0 & Hadd & Hwf' & _ & _ & _ & Hp0 & Hy0 & Hlev).
  exists ob'. split; [exact Hadd|].
  assert (Ex : x0 = y0).
  { subst x0. destruct Hy0 as [Hy0|[-> Hfresh]].
    - rewrite <- Hp0, (deref_level ob _ y0 Hwf Hy0). reflexivity.
    - destruct (deref ob (index_of o, route_price o)) as [z|] eqn:E; [|reflexivity].
      apply deref_sound in E as [Hz Hpz]. exfalso. exact (Hfresh z Hz Hpz). }
  rewrite Ex.
  set (y := (add_volumes y0.1 (LeavesQuantity o) (HiddenQuantity o) (VisibleQuantity o) 1,
             PushBack y0.2 (ID o))).
  assert (Hy : y ∈ levels (index_of o) ob') by (apply Hlev; now left).
  rewrite <- Hp0. change (price_of y0) with (price_of y). now apply deref_level.
Qed.

End BookOperations.

Section Crossing.

(** A book whose price levels are among those of an uncrossed book is
    uncrossed. *)
Lemma uncrossed_shrink (ob ob' : OrderBook) :
  book_wf ob -> book_wf ob' ->
  (forall i y, y ∈ levels i ob' -> exists z, z ∈ levels i ob /\ price_of z = price_of y) ->
  uncrossed ob -> uncrossed ob'.
Proof.
  intros Hwf Hwf' Hsub Hun b a Hb Ha.
  change (bestBid ob') with (best_of Bids ob') in Hb.
  change (bestAsk ob') with (best_of Asks ob') in Ha.
  rewrite (bw_best ob' Hwf') in Hb, Ha.
  destruct (head (levels Bids ob')) as [hb|] eqn:Ehb; [|discriminate].
  destruct (head (levels Asks ob')) as [ha|] eqn:Eha; [|discriminate].
  injection Hb as <-. injection Ha as <-.
  destruct (Hsub Bids hb) as (zb & Hzb & Epb); [eapply head_Some_elem_of; eauto|].
  destruct (Hsub Asks ha) as (za & Hza & Epa); [eapply head_Some_elem_of; eauto|].
  rewrite <- Epb, <- Epa.
  destruct (head (levels Bids ob)) as [b0|] eqn:Eb0;
    [|apply head_None in Eb0; rewrite Eb0 in Hzb; inversion Hzb].
  destruct (head (levels Asks ob)) as [a0|] eqn:Ea0;
    [|apply head_None in Ea0; rewrite Ea0 in Hza; inversion Hza].
  assert (Hba : price_of b0 < price_of a0).
  { apply Hun.
    - change (bestBid ob) with (best_of Bids ob). rewrite (bw_best ob Hwf), Eb0. reflexivity.
    - change (bestAsk ob) with (best_of Asks ob). rewrite (bw_best ob Hwf), Ea0. reflexivity. }
  pose proof (wf_sorted _ (bw_tree ob Hwf Bids)) as HsB.
  pose proof (wf_sorted _ (bw_tree ob Hwf Asks)) as HsA.
  rewrite (bw_desc ob Hwf) in HsB, HsA.
  destruct (head_first _ _ _ zb HsB Eb0 Hzb) as [->|HB];
    destruct (head_first _ _ _ za HsA Ea0 Hza) as [->|HA];
    cbn [desc_of before] in *; lia.
Qed.

(** What the matching loop leaves when it breaks on the price test. *)
Lemma uncrossed_break (ob : OrderBook) :
  match bestBid ob, bestAsk ob with
  | Some b, Some a => b < a
  | _, _ => True
  end -> uncrossed ob.
Proof.
  intros H b a Hb Ha. now rewrite Hb, Ha in H.
Qed.

End Crossing.


(* ================================================================== *)
(** * Proofs: the market manager *)

Section OrderLists.

Lemma unlink_elem (id y : Z) (l : list Z) :
  NoDup l -> y ∈ unlink id l <-> y ∈ l /\ y <> id.
Proof.
  induction l as [|a l IH]; intros Hnd; cbn [unlink].
  - split; [intros H; inversion H|intros [H _]; inversion H].
  - apply NoDup_cons in Hnd as [Ha Hnd]. destruct (Z.eqb_spec a id) as [->|Hne].
    + rewrite elem_of_cons. split.
      * intros Hy. split; [now right|]. intros ->. contradiction.
      * intros [[->|Hy] Hn]; [contradiction|exact Hy].
    + rewrite !elem_of_cons, IH by exact Hnd. split.
      * intros [->|[Hy Hn]]; [split; [now left|exact Hne]|split; [now right|exact Hn]].
      * intros [[->|Hy] Hn]; [now left|right; now split].
Qed.

Lemma unlink_NoDup (id : Z) (l : list Z) : NoDup l -> NoDup (unlink id l).
Proof.
  induction l as [|a l IH]; intros Hnd; cbn [unlink]; [constructor|].
  pose proof Hnd as Hnd0. apply NoDup_cons in Hnd as [Ha Hnd].
  destruct (Z.eqb_spec a id); [exact Hnd|].
  apply NoDup_cons. split; [|auto]. rewrite unlink_elem by exact Hnd. tauto.
Qed.

Lemma unlink_length (id : Z) (l : list Z) :
  id ∈ l -> S (length (unlink id l)) = length l.
Proof.
  induction l as [|a l IH]; intros Hin; [inversion Hin|]. cbn [unlink].
  destruct (Z.eqb_spec a id) as [->|Hne]; [reflexivity|].
  apply elem_of_cons in Hin as [->|Hin]; [contradiction|].
  cbn [length]. now rewrite IH.
Qed.

End OrderLists.

Section LevelInvariant.

(** [level_ok] looks at the order list and the price of a level only, and
    at the level pointer and the symbol of the registered nodes. *)
Lemma level_ok_transfer (os os' : gmap Z OrderNode) (k : Z) (i : Index) (x y : entry) :
  level_ok os k i x -> y.2 = x.2 -> price_of y = price_of x ->
  (forall id n, id ∈ nodes x.2 -> os !! id = Some n ->
     exists n', os' !! id = Some n' /\ node_Level n' = node_Level n /\
                SymbolID (node_Order n') = SymbolID (node_Order n)) ->
  level_ok os' k i y.
Proof.
  intros (Hne & Hnd & Hsz & Hreg) H2 Hp Hos. unfold level_ok. rewrite H2, Hp.
  split; [exact Hne|]. split; [exact Hnd|]. split; [exact Hsz|].
  intros id Hid. destruct (Hreg id Hid) as (n & Hn & HL & HS).
  destruct (Hos id n Hid Hn) as (n' & Hn' & HL' & HS').
  exists n'. split; [exact Hn'|]. split; congruence.
Qed.

(** The levels an order is not on do not list it. *)
Lemma not_listed (bs : gmap Z OrderBook) (os : gmap Z OrderNode)
    (id : Z) (n : OrderNode) (k : Z) (ob : OrderBook) (i : Index) (y : entry) :
  Inv_on bs os -> os !! id = Some n -> bs !! k = Some ob -> y ∈ levels i ob ->
  id ∈ nodes y.2 ->
  k = SymbolID (node_Order n) /\ node_Level n = Some (i, price_of y).
Proof.
  intros HI Hn Hk Hy Hid.
  destruct (inv_levels _ _ HI k ob i y Hk Hy) as (_ & _ & _ & Hreg).
  destruct (Hreg id Hid) as (n' & Hn' & HL & HS). rewrite Hn in Hn'.
  injection Hn' as <-. auto.
Qed.

(** The level a registered order is on. *)
Lemma order_level (bs : gmap Z OrderBook) (os : gmap Z OrderNode)
    (id : Z) (n : OrderNode) (ob : OrderBook) :
  Inv_on bs os -> os !! id = Some n -> bs !! SymbolID (node_Order n) = Some ob ->
  exists x, x ∈ levels (index_of (node_Order n)) ob /\
    node_Level n = Some (index_of (node_Order n), price_of x) /\
    price_of x = route_price (node_Order n) /\
    id ∈ nodes x.2 /\ ID (node_Order n) = id /\ book_wf ob /\
    level_ok os (SymbolID (node_Order n)) (index_of (node_Order n)) x.
Proof.
  intros HI Hn Hb.
  destruct (inv_orders _ _ HI id n Hn) as (HID & HL & ob0 & x & Hob0 & Hx & Hp & Hin).
  rewrite Hb in Hob0. injection Hob0 as <-.
  exists x. split; [exact Hx|]. split; [now rewrite Hp|]. split; [exact Hp|].
  split; [exact Hin|]. split; [exact HID|].
  split; [exact (inv_books _ _ HI _ _ Hb)|]. exact (inv_levels _ _ HI _ _ _ _ Hb Hx).
Qed.

(** A level lists registered orders, each once: no more than the
    registry holds. *)
Lemma level_length_le (os : gmap Z OrderNode) (k : Z) (i : Index) (x : entry) :
  level_ok os k i x -> (length (nodes x.2) <= size os)%nat.
Proof.
  intros (_ & Hnd & _ & Hreg).
  rewrite <- (size_list_to_set (C := gset Z) (nodes x.2) Hnd).
  rewrite <- (size_dom (D := gset Z) os).
  apply subseteq_size. intros id Hid. apply elem_of_list_to_set in Hid.
  destruct (Hreg id Hid) as (n & Hn & _). apply elem_of_dom. eauto.
Qed.

Lemma u64_small (z : Z) : 0 <= z < 2 ^ 64 -> u64 z = z.
Proof. intros Hz. unfold u64. now apply Z.mod_small. Qed.

End LevelInvariant.


Section Primitives.

(** Taking an order off its book and out of the registry. *)
Lemma Inv_unlink (bs : gmap Z OrderBook) (os : gmap Z OrderNode)
    (id : Z) (n : OrderNode) (ob : OrderBook) :
  Inv_on bs os -> os !! id = Some n -> bs !! SymbolID (node_Order n) = Some ob ->
  exists ob', OrderBook_DeleteOrder ob n = Some ob' /\
    Inv_on (<[SymbolID (node_Order n) := ob']> bs) (delete id os) /\
    book_wf ob /\ book_wf ob' /\ shrunk ob ob'.
Proof.
  intros HI Hn Hb.
  destruct (order_level bs os id n ob HI Hn Hb)
    as (x & Hx & HL & Hp & Hin & HID & Hwf & Hlx).
  destruct (OrderBook_DeleteOrder_spec ob n x Hwf HL Hx)
    as (ob' & Hdel & Hwf' & Hsym & Hoth & Hbest & Hlev).
  cbn [snd] in Hlev. rewrite HID in Hlev.
  set (o := node_Order n) in *. set (b := SymbolID o) in *. set (i := index_of o) in *.
  set (x' := (add_volumes x.1 (- LeavesQuantity o) (- HiddenQuantity o)
                (- VisibleQuantity o) (-1), OrderList_Remove x.2 id)) in *.
  exists ob'. split; [exact Hdel|].
  pose proof (level_length_le _ _ _ _ Hlx) as Hle.
  pose proof (inv_size _ _ HI) as Hbound.
  destruct Hlx as (Hne & Hnd & Hsz & Hreg).
  pose proof (unlink_length id (nodes x.2) Hin) as Hlen.
  assert (Hsz' : Size (OrderList_Remove x.2 id)
                 = Z.of_nat (length (unlink id (nodes x.2)))).
  { cbn [OrderList_Remove Size]. rewrite Hsz, u64_small by lia. lia. }
  assert (Hkeep : forall k obk j y, bs !! k = Some obk -> y ∈ levels j obk ->
            (k, j, price_of y) <> (b, i, price_of x) -> level_ok (delete id os) k j y).
  { intros k obk j y Hk Hy Hdiff.
    eapply level_ok_transfer;
      [exact (inv_levels _ _ HI _ _ _ _ Hk Hy)|reflexivity|reflexivity|].
    intros id' n' Hid' Hn'. exists n'. split; [|auto].
    rewrite lookup_delete_ne; [exact Hn'|]. intros <-.
    destruct (not_listed bs os id n k obk j y HI Hn Hk Hy Hid') as [Ek HL'].
    apply Hdiff. rewrite HL in HL'. injection HL' as Ei Ep. now rewrite Ek, <- Ei, <- Ep. }
  assert (Hx'ok : forall id', id' ∈ nodes x.2 -> id' <> id ->
            Size (OrderList_Remove x.2 id) <> 0 /\ id' ∈ unlink id (nodes x.2)).
  { intros id' Hid' Hneq.
    assert (Hu : id' ∈ unlink id (nodes x.2)) by (apply unlink_elem; auto).
    split; [|exact Hu]. rewrite Hsz'.
    destruct (unlink id (nodes x.2)); [inversion Hu|]. cbn [length]. lia. }
  split; [|split; [exact Hwf|split; [exact Hwf'|]]].
  - split.
    + rewrite map_size_delete, Hn. lia.
    + intros k obk Hk. apply lookup_insert_Some in Hk as [[<- <-]|[_ Hk]];
        [exact Hwf'|exact (inv_books _ _ HI _ _ Hk)].
    + intros k obk j y Hk Hy. apply lookup_insert_Some in Hk as [[<- <-]|[Hnek Hk]].
      * destruct (decide (j = i)) as [->|Hj].
        -- apply Hlev in Hy as [[-> Hs]|[Hy Hpy]].
           ++ unfold level_ok.
              change (nodes x'.2) with (unlink id (nodes x.2)).
              change (Size x'.2) with (Size (OrderList_Remove x.2 id)).
              change (price_of x') with (price_of x).
              split; [intros He; rewrite Hsz', He in Hs; now apply Hs|].
              split; [now apply unlink_NoDup|]. split; [exact Hsz'|].
              intros id' Hid'. apply unlink_elem in Hid' as [Hid' Hneq]; [|exact Hnd].
              destruct (Hreg id' Hid') as (n' & Hn' & HL' & HS').
              exists n'. split; [now rewrite lookup_delete_ne by congruence|].
              split; [exact HL'|exact HS'].
           ++ apply (Hkeep b ob i y Hb Hy). intros [=]. contradiction.
        -- rewrite (Hoth j Hj) in Hy. apply (Hkeep b ob j y Hb Hy). intros [=]. contradiction.
      * apply (Hkeep k obk j y Hk Hy). intros [=]. congruence.
    + intros id' n' Hn'. apply lookup_delete_Some in Hn' as [Hneq Hn'].
      destruct (inv_orders _ _ HI id' n' Hn')
        as (HID' & HL' & ob1 & x1 & Hob1 & Hx1 & Hp1 & Hin1).
      split; [exact HID'|]. split; [exact HL'|].
      destruct (decide (SymbolID (node_Order n') = b)) as [Eb|Nb].
      * rewrite Eb in *. rewrite Hb in Hob1. injection Hob1 as <-. exists ob'.
        destruct (decide (index_of (node_Order n') = i)) as [Ei|Ni].
        -- rewrite Ei in *. destruct (decide (price_of x1 = price_of x)) as [Ep|Np].
           ++ assert (x1 = x) by exact (level_unique ob i x1 x Hwf Hx1 Hx Ep). subst x1.
              destruct (Hx'ok id' Hin1 ltac:(congruence)) as [Hs Hu].
              exists x'. split; [apply lookup_insert_eq|].
              split; [apply Hlev; left; split; [reflexivity|exact Hs]|].
              split; [exact Hp1|exact Hu].
           ++ exists x1. split; [apply lookup_insert_eq|].
              split; [apply Hlev; right; auto|]. auto.
        -- exists x1. split; [apply lookup_insert_eq|].
           split; [rewrite Hoth by exact Ni; exact Hx1|auto].
      * exists ob1, x1. split; [rewrite lookup_insert_ne by congruence; exact Hob1|auto].
  - intros j y Hy. destruct (decide (j = i)) as [->|Hj].
    + apply Hlev in Hy as [[-> _]|[Hy _]]; [exists x; split; [exact Hx|reflexivity]|eauto].
    + rewrite Hoth in Hy by exact Hj. eauto.
Qed.

(** Linking an order that is not registered into its book, and
    registering it. *)
Lemma Inv_link (bs : gmap Z OrderBook) (os : gmap Z OrderNode) (o : Order) (ob : OrderBook) :
  Inv_on bs os -> Z.of_nat (size os) + 1 < 2 ^ 64 ->
  os !! ID o = None -> bs !! SymbolID o = Some ob ->
  exists ob', OrderBook_AddOrder ob o = Some (ob', (index_of o, route_price o)) /\
    Inv_on (<[SymbolID o := ob']> bs)
           (<[ID o := {| node_Order := o;
                         node_Level := Some (index_of o, route_price o) |}]> os) /\
    book_wf ob'.
Proof.
  intros HI Hroom Hn Hb. pose proof (inv_books _ _ HI _ _ Hb) as Hwf.
  destruct (OrderBook_AddOrder_spec ob o Hwf)
    as (ob' & x0 & Hadd & Hwf' & Hsym & Hoth & Hbest & Hp0 & Hx0 & Hlev).
  set (b := SymbolID o) in *. set (i := index_of o) in *. set (p := route_price o) in *.
  set (id := ID o) in *.
  set (n := {| node_Order := o; node_Level := Some (i, p) |}).
  set (y0 := (add_volumes x0.1 (LeavesQuantity o) (HiddenQuantity o) (VisibleQuantity o) 1,
              PushBack x0.2 id)) in *.
  exists ob'. split; [exact Hadd|]. split; [|exact Hwf'].
  assert (Hkeep : forall k obk j y, bs !! k = Some obk -> y ∈ levels j obk ->
            level_ok (<[id := n]> os) k j y).
  { intros k obk j y Hk Hy.
    eapply level_ok_transfer;
      [exact (inv_levels _ _ HI _ _ _ _ Hk Hy)|reflexivity|reflexivity|].
    intros id' n' Hid' Hn'. exists n'. split; [|auto].
    rewrite lookup_insert_ne; [exact Hn'|]. intros <-. rewrite Hn in Hn'. discriminate. }
  assert (Hy0 : y0 ∈ levels i ob') by (apply Hlev; now left).
  assert (Hold : forall x1, x1 ∈ levels i ob -> price_of x1 = p -> x1 = x0).
  { intros x1 Hx1 Hp1. destruct Hx0 as [Hx0|[_ Hfresh]].
    - apply (level_unique ob i x1 x0 Hwf Hx1 Hx0). congruence.
    - exfalso. exact (Hfresh x1 Hx1 Hp1). }
  assert (Hx0ok : NoDup (nodes x0.2) /\ Size x0.2 = Z.of_nat (length (nodes x0.2)) /\
            (length (nodes x0.2) <= size os)%nat /\
            forall id', id' ∈ nodes x0.2 ->
              exists n', os !! id' = Some n' /\ node_Level n' = Some (i, p) /\
                         SymbolID (node_Order n') = b).
  { destruct Hx0 as [Hx0|[He _]].
    - pose proof (inv_levels _ _ HI _ _ _ _ Hb Hx0) as Hok.
      pose proof (level_length_le _ _ _ _ Hok) as Hle.
      destruct Hok as (_ & Hnd & Hsz & Hreg). rewrite Hp0 in Hreg. auto.
    - rewrite He. cbn [snd emptyOrderList nodes Size length].
      split; [constructor|]. split; [reflexivity|]. split; [lia|].
      intros id' Hid'. inversion Hid'. }
  destruct Hx0ok as (Hnd0 & Hsz0 & Hle0 & Hreg0).
  assert (Hfresh : id ∉ nodes x0.2).
  { intros Hid. destruct (Hreg0 id Hid) as (n' & Hn' & _). rewrite Hn in Hn'.
    discriminate. }
  split.
  - rewrite map_size_insert_None by exact Hn. lia.
  - intros k obk Hk. apply lookup_insert_Some in Hk as [[<- <-]|[_ Hk]];
      [exact Hwf'|exact (inv_books _ _ HI _ _ Hk)].
  - intros k obk j y Hk Hy. apply lookup_insert_Some in Hk as [[<- <-]|[Hnek Hk]].
    + destruct (decide (j = i)) as [->|Hj].
      * apply Hlev in Hy as [->|[Hy Hpy]]; [|exact (Hkeep b ob i y Hb Hy)].
        unfold level_ok.
        change (nodes y0.2) with (nodes x0.2 ++ [id]).
        change (Size y0.2) with (u64 (Size x0.2 + 1)).
        change (price_of y0) with (price_of x0). rewrite Hp0.
        split; [now destruct (nodes x0.2)|]. split; [|split].
        -- apply NoDup_app. split; [exact Hnd0|]. split; [|apply NoDup_singleton].
           intros z Hz Hz'. apply list_elem_of_singleton in Hz'. subst z. contradiction.
        -- rewrite length_app. cbn [length]. rewrite Hsz0, u64_small by lia. lia.
        -- intros id' Hid'. apply elem_of_app in Hid' as [Hid'|Hid'].
           ++ destruct (Hreg0 id' Hid') as (n' & Hn' & HL' & HS').
              exists n'. split; [|auto]. rewrite lookup_insert_ne; [exact Hn'|].
              intros <-. contradiction.
           ++ apply list_elem_of_singleton in Hid'. subst id'.
              exists n. split; [apply lookup_insert_eq|]. split; reflexivity.
      * rewrite (Hoth j Hj) in Hy. exact (Hkeep b ob j y Hb Hy).
    + exact (Hkeep k obk j y Hk Hy).
  - intros id' n' Hn'. apply lookup_insert_Some in Hn' as [[<- <-]|[Hneq Hn']].
    + split; [reflexivity|]. split; [reflexivity|].
      exists ob', y0. split; [apply lookup_insert_eq|]. split; [exact Hy0|].
      split; [exact Hp0|]. change (nodes y0.2) with (nodes x0.2 ++ [id]).
      apply elem_of_app. right. left.
    + destruct (inv_orders _ _ HI id' n' Hn')
        as (HID' & HL' & ob1 & x1 & Hob1 & Hx1 & Hp1 & Hin1).
      split; [exact HID'|]. split; [exact HL'|].
      destruct (decide (SymbolID (node_Order n') = b)) as [Eb|Nb].
      * rewrite Eb in *. rewrite Hb in Hob1. injection Hob1 as <-. exists ob'.
        destruct (decide (index_of (node_Order n') = i)) as [Ei|Ni].
        -- rewrite Ei in *. destruct (decide (price_of x1 = p)) as [Ep|Np].
           ++ pose proof (Hold x1 Hx1 Ep) as ->.
              exists y0. split; [apply lookup_insert_eq|]. split; [exact Hy0|].
              split; [exact Hp1|]. change (nodes y0.2) with (nodes x0.2 ++ [id]).
              apply elem_of_app. now left.
           ++ exists x1. split; [apply lookup_insert_eq|].
              split; [apply Hlev; right; auto|]. auto.
        -- exists x1. split; [apply lookup_insert_eq|].
           split; [rewrite Hoth by exact Ni; exact Hx1|auto].
      * exists ob1, x1. split; [rewrite lookup_insert_ne by congruence; exact Hob1|auto].
Qed.

(** A write to the quantities of a registered order and to the volumes
    of its level: the order keeps its place. *)
Lemma Inv_reduce (bs : gmap Z OrderBook) (os : gmap Z OrderNode)
    (id : Z) (n : OrderNode) (o' : Order) (q h v : Z) (ob : OrderBook) :
  Inv_on bs os -> os !! id = Some n -> bs !! SymbolID (node_Order n) = Some ob ->
  ID o' = ID (node_Order n) -> SymbolID o' = SymbolID (node_Order n) ->
  index_of o' = index_of (node_Order n) -> route_price o' = route_price (node_Order n) ->
  exists ob1, OrderBook_ReduceOrder ob (with_Order n o') q h v = Some ob1 /\
    Inv_on (<[SymbolID (node_Order n) := ob1]> bs) (<[id := with_Order n o']> os) /\
    book_wf ob1 /\ shrunk ob ob1 /\ (forall j, best_of j ob1 = best_of j ob).
Proof.
  intros HI Hn Hb EID ESym Eidx Eprice.
  destruct (order_level bs os id n ob HI Hn Hb)
    as (x & Hx & HL & Hp & Hin & HID & Hwf & Hlx).
  set (o := node_Order n) in *. set (b := SymbolID o) in *. set (i := index_of o) in *.
  set (n' := with_Order n o').
  destruct (OrderBook_ReduceOrder_spec ob n' i x q h v Hwf HL Hx)
    as (ob1 & Hred & Hwf1 & Hsym & Hoth & Hbest & Hlev).
  set (x1 := (add_volumes x.1 (- q) (- h) (- v) 0, x.2)) in *.
  exists ob1. split; [exact Hred|].
  assert (Hreg : forall id0 n0, os !! id0 = Some n0 ->
            exists n1, <[id := n']> os !! id0 = Some n1 /\
              node_Level n1 = node_Level n0 /\
              SymbolID (node_Order n1) = SymbolID (node_Order n0)).
  { intros id0 n0 Hn0. destruct (decide (id0 = id)) as [->|Hneq].
    - rewrite Hn in Hn0. injection Hn0 as <-. exists n'.
      split; [apply lookup_insert_eq|]. split; [reflexivity|exact ESym].
    - exists n0. split; [now rewrite lookup_insert_ne by congruence|]. auto. }
  assert (Hkeep : forall k obk j y z, bs !! k = Some obk -> y ∈ levels j obk ->
            z.2 = y.2 -> price_of z = price_of y -> level_ok (<[id := n']> os) k j z).
  { intros k obk j y z Hk Hy Hz2 Hzp.
    eapply level_ok_transfer;
      [exact (inv_levels _ _ HI _ _ _ _ Hk Hy)|exact Hz2|exact Hzp|].
    intros id0 n0 _ Hn0. exact (Hreg id0 n0 Hn0). }
  assert (Hx1 : x1 ∈ levels i ob1) by (apply Hlev; now left).
  split; [|split; [exact Hwf1|split]].
  - split.
    + rewrite map_size_insert_Some by eauto. exact (inv_size _ _ HI).
    + intros k obk Hk. apply lookup_insert_Some in Hk as [[<- <-]|[_ Hk]];
        [exact Hwf1|exact (inv_books _ _ HI _ _ Hk)].
    + intros k obk j y Hk Hy. apply lookup_insert_Some in Hk as [[<- <-]|[Hnek Hk]].
      * destruct (decide (j = i)) as [->|Hj].
        -- apply Hlev in Hy as [->|[Hy Hpy]].
           ++ exact (Hkeep b ob i x x1 Hb Hx eq_refl eq_refl).
           ++ exact (Hkeep b ob i y y Hb Hy eq_refl eq_refl).
        -- rewrite (Hoth j Hj) in Hy. exact (Hkeep b ob j y y Hb Hy eq_refl eq_refl).
      * exact (Hkeep k obk j y y Hk Hy eq_refl eq_refl).
    + intros id0 n0 Hn0. apply lookup_insert_Some in Hn0 as [[<- <-]|[Hneq Hn0]].
      * unfold order_ok. change (node_Order n') with o'.
        change (node_Level n') with (node_Level n).
        rewrite EID, ESym, Eidx, Eprice. fold o b i.
        split; [exact HID|]. split; [now rewrite HL, Hp|].
        exists ob1, x1. split; [apply lookup_insert_eq|]. split; [exact Hx1|].
        split; [exact Hp|exact Hin].
      * destruct (inv_orders _ _ HI id0 n0 Hn0)
          as (HID0 & HL0 & ob0 & x0 & Hob0 & Hx0 & Hp0 & Hin0).
        split; [exact HID0|]. split; [exact HL0|].
        destruct (decide (SymbolID (node_Order n0) = b)) as [Eb|Nb].
        -- rewrite Eb in *. rewrite Hb in Hob0. injection Hob0 as <-. exists ob1.
           destruct (decide (index_of (node_Order n0) = i)) as [Ei|Ni].
           ++ rewrite Ei in *. destruct (decide (price_of x0 = price_of x)) as [Ep|Np].
              ** assert (x0 = x) by exact (level_unique ob i x0 x Hwf Hx0 Hx Ep). subst x0.
                 exists x1. split; [apply lookup_insert_eq|]. split; [exact Hx1|].
                 split; [exact Hp0|exact Hin0].
              ** exists x0. split; [apply lookup_insert_eq|].
                 split; [apply Hlev; right; auto|]. auto.
           ++ exists x0. split; [apply lookup_insert_eq|].
              split; [rewrite Hoth by exact Ni; exact Hx0|auto].
        -- exists ob0, x0. split; [rewrite lookup_insert_ne by congruence; exact Hob0|auto].
  - intros j y Hy. destruct (decide (j = i)) as [->|Hj].
    + apply Hlev in Hy as [->|[Hy _]]; [exists x; split; [exact Hx|reflexivity]|eauto].
    + rewrite Hoth in Hy by exact Hj. eauto.
  - exact Hbest.
Qed.

End Primitives.

Section Callbacks.

Lemma touches_book_refl (b : Z) (m : MarketManager) : touches_book b m m.
Proof. split; auto. exists []. now rewrite app_nil_r. Qed.

Lemma touches_book_trans (b : Z) (m1 m2 m3 : MarketManager) :
  touches_book b m1 m2 -> touches_book b m2 m3 -> touches_book b m1 m3.
Proof.
  intros [S1 M1 B1 [e1 T1]] [S2 M2 B2 [e2 T2]]. split; try congruence.
  - intros k Hk. now rewrite B2, B1.
  - exists (e1 ++ e2). now rewrite T2, T1, app_assoc.
Qed.

(** [updateLevel] for an order whose level pointer leads to a level of
    its book: the level callback for [ut] with the level as it is, then
    [OnUpdateOrderBook]; nothing but the trace changes. *)
Lemma updateLevel_spec (book : Z) (n : OrderNode) (ut : UpdateType) (m : MarketManager)
    (ob : OrderBook) (i : Index) (x : entry) :
  orderBooks m !! book = Some ob -> book_wf ob ->
  node_Level n = Some (i, price_of x) -> x ∈ levels i ob ->
  updateLevel book n ut m
  = Some (emits (level_events book ut x.1 (top_of ob (node_Order n) (i, price_of x))) m).
Proof.
  intros Hb Hwf HL Hx. unfold updateLevel. rewrite HL, Hb. cbn [mbind option_bind].
  rewrite (deref_level ob i x Hwf Hx). destruct x as [lv ol]. cbn [mbind option_bind fst snd].
  unfold top_of, level_events, emits, emit. cbn [fst snd].
  destruct ut; cbn [handler symbols orderBooks orders matching app];
    rewrite <- ?app_assoc; reflexivity.
Qed.

(** Whatever [updateLevel] returns differs from the state it was called
    in by the trace only. *)
Lemma updateLevel_fields (book : Z) (n : OrderNode) (ut : UpdateType)
    (m m' : MarketManager) :
  updateLevel book n ut m = Some m' ->
  symbols m' = symbols m /\ orderBooks m' = orderBooks m /\
  orders m' = orders m /\ matching m' = matching m.
Proof.
  unfold updateLevel. destruct (node_Level n) as [ref|]; [|now intros [= <-]].
  destruct (orderBooks m !! book) as [ob|]; [|discriminate]. cbn [mbind option_bind].
  destruct (deref ob ref) as [[lv ol]|]; [|discriminate]. cbn [mbind option_bind].
  intros [= <-]. destruct ut; auto.
Qed.

End Callbacks.

Section OrderOperations.

Lemma emit_emits (e : Event) (evs : list Event) (m : MarketManager) :
  emit e (emits evs m) = emits (evs ++ [e]) m.
Proof. unfold emit, emits. cbn. now rewrite app_assoc. Qed.

Lemma emits_emit (e : Event) (evs : list Event) (m : MarketManager) :
  emits evs (emit e m) = emits (e :: evs) m.
Proof. unfold emit, emits. cbn. now rewrite <- app_assoc. Qed.

Lemma emits_emits (evs1 evs2 : list Event) (m : MarketManager) :
  emits evs2 (emits evs1 m) = emits (evs1 ++ evs2) m.
Proof. unfold emits. cbn. now rewrite app_assoc. Qed.

Lemma emit_as_emits (e : Event) (m : MarketManager) : emit e m = emits [e] m.
Proof. reflexivity. Qed.

(** [DeleteOrder] of a registered order: the level callback with the
    level as it was before the removal, the order off its book and out
    of the registry, then [OnDeleteOrder]. *)
Lemma DeleteOrder_spec (id : Z) (m : MarketManager) (n : OrderNode) :
  Inv m -> orders m !! id = Some n ->
  exists ob ob' x,
    orderBooks m !! SymbolID (node_Order n) = Some ob /\
    x ∈ levels (index_of (node_Order n)) ob /\
    node_Level n = Some (index_of (node_Order n), price_of x) /\
    id ∈ nodes x.2 /\
    OrderBook_DeleteOrder ob n = Some ob' /\
    DeleteOrder id m
    = Some (ErrorOK,
        emits (level_events (SymbolID (node_Order n)) UpdateDelete x.1
                 (top_of ob (node_Order n) (index_of (node_Order n), price_of x))
               ++ [OnDeleteOrder (node_Order n)])
          (set_orders (delete id (orders m))
             (set_book (SymbolID (node_Order n)) ob' m))) /\
    Inv_on (<[SymbolID (node_Order n) := ob']> (orderBooks m)) (delete id (orders m)) /\
    book_wf ob /\ book_wf ob' /\ shrunk ob ob'.
Proof.
  intros HI Hn.
  destruct (inv_orders _ _ HI id n Hn) as (_ & _ & ob & _ & Hb & _).
  destruct (order_level _ _ id n ob HI Hn Hb) as (x & Hx & HL & Hp & Hin & HID & Hwf & Hlx).
  destruct (Inv_unlink _ _ id n ob HI Hn Hb) as (ob' & Hdel & HI' & _ & Hwf' & Hsh).
  exists ob, ob', x. split; [exact Hb|]. split; [exact Hx|]. split; [exact HL|].
  split; [exact Hin|]. split; [exact Hdel|]. split; [|auto].
  unfold DeleteOrder. rewrite Hn, Hb. cbn [mbind option_bind].
  rewrite (updateLevel_spec _ n UpdateDelete m ob _ x Hb Hwf HL Hx).
  cbn [mbind option_bind]. rewrite Hdel. cbn [mbind option_bind].
  do 2 f_equal. unfold emit, emits, set_orders, set_book, set_orderBooks. cbn.
  now rewrite <- app_assoc.
Qed.

Lemma shrunk_refl (ob : OrderBook) : shrunk ob ob.
Proof. intros i y Hy. eauto. Qed.

Lemma shrunk_trans (ob1 ob2 ob3 : OrderBook) :
  shrunk ob1 ob2 -> shrunk ob2 ob3 -> shrunk ob1 ob3.
Proof.
  intros H12 H23 i y Hy. destruct (H23 i y Hy) as (z & Hz & Ez).
  destruct (H12 i z Hz) as (w & Hw & Ew). exists w. split; [exact Hw|congruence].
Qed.

Ltac fields := cbn [orderBooks orders symbols matching handler emits emit
                    set_orders set_book set_orderBooks set_order set_symbols].

(** [executeOrder] on a registered order: the quantities move, the
    level follows, [OnExecuteOrder] is dispatched; the order leaves the
    book and the registry when nothing is left of it. *)
Lemma executeOrder_spec (id price q : Z) (m : MarketManager) (n : OrderNode) :
  let o := node_Order n in
  let o' := set_quantities o (Price o) (Quantity o)
              (u64 (ExecutedQuantity o + q)) (u64 (LeavesQuantity o - q)) in
  Inv m -> orders m !! id = Some n ->
  exists m' ob ob',
    executeOrder id price q m = Some (ErrorOK, m') /\ Inv m' /\
    touches_book (SymbolID o) m m' /\
    orderBooks m !! SymbolID o = Some ob /\ orderBooks m' !! SymbolID o = Some ob' /\
    shrunk ob ob' /\
    orders m' = (if LeavesQuantity o' =? 0 then delete id (orders m)
                 else <[id := with_Order n o']> (orders m)) /\
    exists evs, handler m' = handler m ++ OnExecuteOrder o' price q :: evs.
Proof.
  intros o o' HI Hn.
  destruct (inv_orders _ _ HI id n Hn) as (HID & _ & ob & _ & Hb & _).
  fold o in HID, Hb.
  set (n' := with_Order n o').
  destruct (Inv_reduce _ _ id n o' q
              (u64 (HiddenQuantity o - HiddenQuantity o'))
              (u64 (VisibleQuantity o - VisibleQuantity o')) ob HI Hn Hb
              eq_refl eq_refl eq_refl eq_refl)
    as (ob1 & Hred & HI1 & Hwf1 & Hsh1 & Hbest1).
  fold o n' in Hred, HI1.
  assert (Hn1 : <[id := n']> (orders m) !! id = Some n') by apply lookup_insert_eq.
  assert (Hb1 : <[SymbolID o := ob1]> (orderBooks m) !! SymbolID (node_Order n') = Some ob1)
    by apply lookup_insert_eq.
  destruct (order_level _ _ id n' ob1 HI1 Hn1 Hb1)
    as (x1 & Hx1 & HL1 & Hp1 & Hin1 & _ & _ & _).
  unfold executeOrder. rewrite Hn. cbn [mbind option_bind]. fold o. rewrite Hb.
  cbn [mbind option_bind]. fold o'. fold n'. rewrite Hred. cbn [mbind option_bind].
  set (m1 := emit (OnExecuteOrder o' price q) (set_order n' (set_book (SymbolID o) ob1 m))).
  assert (Hm1b : orderBooks m1 !! SymbolID o = Some ob1) by apply lookup_insert_eq.
  assert (Hm1o : orders m1 = <[id := n']> (orders m)).
  { unfold m1. fields. change (ID (node_Order n')) with (ID o). now rewrite HID. }
  destruct (Z.eqb_spec (LeavesQuantity o') 0) as [Hz|Hnz].
  - destruct (Inv_unlink _ _ id n' ob1 HI1 Hn1 Hb1) as (ob2 & Hdel & HI2 & _ & Hwf2 & Hsh2).
    rewrite (updateLevel_spec (SymbolID o) n' UpdateDelete m1 ob1 _ x1 Hm1b Hwf1 HL1 Hx1).
    cbn [mbind option_bind]. rewrite Hdel. cbn [mbind option_bind].
    subst m1. eexists. exists ob, ob2. split; [reflexivity|].
    split; [|split; [|split; [first [exact Hb|reflexivity]|split; [apply lookup_insert_eq|split;
      [exact (shrunk_trans _ _ _ Hsh1 Hsh2)|split]]]]].
    + unfold Inv. fields. change (ID o') with (ID o). rewrite HID.
      change (ID (node_Order n')) with (ID o). rewrite HID. exact HI2.
    + split; fields; try reflexivity.
      * intros k Hk. now rewrite !lookup_insert_ne by congruence.
      * eexists. rewrite <- !app_assoc. reflexivity.
    + fields. change (ID o') with (ID o). change (ID (node_Order n')) with (ID o).
      rewrite HID. apply delete_insert_eq.
    + fields. eexists. rewrite <- !app_assoc. reflexivity.
  - rewrite emit_as_emits.
    rewrite (updateLevel_spec (SymbolID o) n' UpdateUpdate (emits [OnUpdateOrder o'] m1)
               ob1 _ x1 Hm1b Hwf1 HL1 Hx1).
    cbn [mbind option_bind].
    subst m1. eexists. exists ob, ob1. split; [reflexivity|].
    split; [|split; [|split; [first [exact Hb|reflexivity]|split; [apply lookup_insert_eq|split;
      [exact Hsh1|split]]]]].
    + unfold Inv. fields. change (ID (node_Order n')) with (ID o). rewrite HID. exact HI1.
    + split; fields; try reflexivity.
      * intros k Hk. now rewrite !lookup_insert_ne by congruence.
      * eexists. rewrite <- !app_assoc. reflexivity.
    + fields. change (ID (node_Order n')) with (ID o). now rewrite HID.
    + fields. eexists. rewrite <- !app_assoc. reflexivity.
Qed.

End OrderOperations.

Section Matching.

Lemma best_level (ob : OrderBook) (i : Index) (p : Z) :
  book_wf ob -> best_of i ob = Some p ->
  exists x, head (levels i ob) = Some x /\ x ∈ levels i ob /\ price_of x = p.
Proof.
  intros Hwf Hbest. rewrite (bw_best ob Hwf i) in Hbest.
  destruct (head (levels i ob)) as [x|] eqn:Hh; [|discriminate].
  injection Hbest as <-. exists x. split; [reflexivity|]. split; [|reflexivity].
  eapply head_Some_elem_of. exact Hh.
Qed.

(** The order in front of a level of a consistent state. *)
Lemma front_order (m : MarketManager) (book : Z) (ob : OrderBook) (i : Index) (x : entry) :
  Inv m -> orderBooks m !! book = Some ob -> x ∈ levels i ob ->
  exists id n, Front x.2 = Some id /\ orders m !! id = Some n /\
    node_Level n = Some (i, price_of x) /\ SymbolID (node_Order n) = book.
Proof.
  intros HI Hb Hx. destruct (inv_levels _ _ HI _ _ _ _ Hb Hx) as (Hne & _ & _ & Hreg).
  unfold Front. destruct (nodes x.2) as [|id l] eqn:E; [contradiction|].
  destruct (Hreg id ltac:(left)) as (n & Hn & HL & HS). exists id, n. auto.
Qed.

Lemma size_delete_le (os : gmap Z OrderNode) (id : Z) :
  (size (delete id os) <= size os)%nat.
Proof. rewrite map_size_delete. destruct (os !! id); cbn; lia. Qed.

Lemma size_delete_lt (os : gmap Z OrderNode) (id : Z) (n : OrderNode) :
  os !! id = Some n -> (size (delete id os) < size os)%nat.
Proof.
  intros Hn. rewrite map_size_delete, Hn. cbn.
  assert (size os <> 0%nat); [|lia].
  intros H0. apply map_size_empty_inv in H0. rewrite H0 in Hn. discriminate.
Qed.

Lemma size_insert_same (os : gmap Z OrderNode) (id : Z) (n n' : OrderNode) :
  os !! id = Some n -> size (<[id := n']> os) = size os.
Proof. intros Hn. apply map_size_insert_Some. eauto. Qed.

(** One round of the matching loop in a consistent state: it breaks on
    an uncrossed book, or executes the two front orders and removes at
    least one of them. *)
Lemma match_step_spec (book : Z) (m : MarketManager) (ob : OrderBook) :
  Inv m -> orderBooks m !! book = Some ob ->
  (match_step book m = Some None /\ uncrossed ob) \/
  (exists m' ob', match_step book m = Some (Some m') /\ Inv m' /\
     touches_book book m m' /\ orderBooks m' !! book = Some ob' /\
     shrunk ob ob' /\ (size (orders m') < size (orders m))%nat).
Proof.
  intros HI Hb. pose proof (inv_books _ _ HI _ _ Hb) as Hwf.
  unfold match_step. rewrite Hb. cbn [mbind option_bind].
  destruct (bestBid ob) as [bp|] eqn:Ebid;
    [|left; split; [reflexivity|intros b a Hb' Ha'; congruence]].
  destruct (bestAsk ob) as [ap|] eqn:Eask;
    [|left; split; [reflexivity|intros b a Hb' Ha'; congruence]].
  destruct (Z.ltb_spec bp ap) as [Hlt|Hge];
    [left; split; [reflexivity|intros b a Hb' Ha'; congruence]|].
  right.
  destruct (best_level ob Bids bp Hwf Ebid) as (xb & _ & Hxb & Hpb).
  destruct (best_level ob Asks ap Hwf Eask) as (xa & _ & Hxa & Hpa).
  change (Find (bids ob) bp) with (deref ob (Bids, bp)).
  change (Find (asks ob) ap) with (deref ob (Asks, ap)).
  rewrite <- Hpb, <- Hpa, (deref_level ob Bids xb Hwf Hxb), (deref_level ob Asks xa Hwf Hxa).
  destruct (front_order m book ob Bids xb HI Hb Hxb) as (bidID & bn & Hfb & Hbn & HLb & HSb).
  destruct (front_order m book ob Asks xa HI Hb Hxa) as (askID & an & Hfa & Han & HLa & HSa).
  destruct xb as [lvb olb], xa as [lva ola]. cbn [mbind option_bind snd] in *.
  rewrite Hfb, Hfa, Hbn, Han. cbn [mbind option_bind].
  set (q := if LeavesQuantity (node_Order an) <? LeavesQuantity (node_Order bn)
            then LeavesQuantity (node_Order an) else LeavesQuantity (node_Order bn)).
  set (price := Price (node_Order an)).
  assert (Hne : askID <> bidID).
  { intros ->. rewrite Hbn in Han. injection Han as <-. rewrite HLb in HLa. discriminate. }
  destruct (executeOrder_spec bidID price q m bn HI Hbn)
    as (m1 & ob0 & ob1 & He1 & HI1 & Ht1 & Hb0 & Hb1 & Hsh1 & Ho1 & _).
  rewrite HSb in Ht1, Hb0, Hb1. rewrite Hb in Hb0. injection Hb0 as <-.
  rewrite He1. cbn [mbind option_bind].
  assert (Han1 : orders m1 !! askID = Some an).
  { rewrite Ho1. cbn [set_quantities LeavesQuantity].
    destruct (u64 (LeavesQuantity (node_Order bn) - q) =? 0).
    - now rewrite lookup_delete_ne by congruence.
    - now rewrite lookup_insert_ne by congruence. }
  destruct (executeOrder_spec askID price q m1 an HI1 Han1)
    as (m2 & ob1' & ob2 & He2 & HI2 & Ht2 & Hb1' & Hb2 & Hsh2 & Ho2 & _).
  rewrite HSa in Ht2, Hb1', Hb2. rewrite Hb1 in Hb1'. injection Hb1' as <-.
  rewrite He2. cbn [mbind option_bind].
  exists m2, ob2. split; [reflexivity|]. split; [exact HI2|].
  split; [exact (touches_book_trans _ _ _ _ Ht1 Ht2)|]. split; [exact Hb2|].
  split; [exact (shrunk_trans _ _ _ Hsh1 Hsh2)|].
  cbn [set_quantities LeavesQuantity] in Ho1, Ho2.
  assert (Hs1 : (size (orders m1) <= size (orders m))%nat).
  { rewrite Ho1. destruct (u64 (LeavesQuantity (node_Order bn) - q) =? 0);
      [apply size_delete_le|rewrite (size_insert_same _ _ _ _ Hbn); lia]. }
  assert (Hs2 : (size (orders m2) <= size (orders m1))%nat).
  { rewrite Ho2. destruct (u64 (LeavesQuantity (node_Order an) - q) =? 0);
      [apply size_delete_le|rewrite (size_insert_same _ _ _ _ Han1); lia]. }
  subst q. destruct (Z.ltb_spec (LeavesQuantity (node_Order an))
                       (LeavesQuantity (node_Order bn))) as [Hl|Hl].
  - rewrite Z.sub_diag in Ho2. change (u64 0 =? 0) with true in Ho2. cbn iota in Ho2.
    pose proof (size_delete_lt _ _ _ Han1) as Hd. rewrite <- Ho2 in Hd. lia.
  - rewrite Z.sub_diag in Ho1. change (u64 0 =? 0) with true in Ho1. cbn iota in Ho1.
    pose proof (size_delete_lt _ _ _ Hbn) as Hd. rewrite <- Ho1 in Hd. lia.
Qed.

(** The loop with enough rounds: it ends, and ends on an uncrossed
    book. *)
Lemma match_loop_spec (book : Z) (fuel : nat) :
  forall (m : MarketManager) (ob : OrderBook),
  Inv m -> orderBooks m !! book = Some ob -> (size (orders m) < fuel)%nat ->
  exists m' ob', match_loop fuel book m = Some m' /\ Inv m' /\
    touches_book book m m' /\ orderBooks m' !! book = Some ob' /\
    uncrossed ob' /\ shrunk ob ob' /\ (size (orders m') <= size (orders m))%nat.
Proof.
  induction fuel as [|fuel IH]; intros m ob HI Hb Hfuel; [lia|].
  cbn [match_loop].
  destruct (match_step_spec book m ob HI Hb)
    as [[Hstep Hun]|(m1 & ob1 & Hstep & HI1 & Ht1 & Hb1 & Hsh1 & Hsz1)];
    rewrite Hstep; cbn [mbind option_bind].
  - exists m, ob. split; [reflexivity|]. split; [exact HI|].
    split; [apply touches_book_refl|]. split; [exact Hb|]. split; [exact Hun|].
    split; [apply shrunk_refl|lia].
  - destruct (IH m1 ob1 HI1 Hb1 ltac:(lia))
      as (m' & ob' & Hl & HI' & Ht' & Hb' & Hun' & Hsh' & Hsz').
    exists m', ob'. split; [exact Hl|]. split; [exact HI'|].
    split; [exact (touches_book_trans _ _ _ _ Ht1 Ht')|]. split; [exact Hb'|].
    split; [exact Hun'|]. split; [exact (shrunk_trans _ _ _ Hsh1 Hsh')|lia].
Qed.

Lemma match_spec (book : Z) (m : MarketManager) (ob : OrderBook) :
  Inv m -> orderBooks m !! book = Some ob ->
  exists m' ob', match_ book m = Some m' /\ Inv m' /\
    touches_book book m m' /\ orderBooks m' !! book = Some ob' /\
    uncrossed ob' /\ shrunk ob ob' /\ (size (orders m') <= size (orders m))%nat.
Proof. intros HI Hb. apply match_loop_spec; [exact HI|exact Hb|lia]. Qed.

End Matching.

Section Operations.

Ltac fields := cbn [orderBooks orders symbols matching handler emits emit
                    set_orders set_book set_orderBooks set_order set_symbols].

Lemma op_ok_error (m : MarketManager) (code : ErrorCode) :
  Inv m -> op_ok m code m.
Proof.
  intros HI. split; auto. exists []. now rewrite app_nil_r.
Qed.

(** A change to one book that leaves it uncrossed leaves all books
    uncrossed. *)
Lemma AllUncrossed_touch (b : Z) (m m' : MarketManager) :
  touches_book b m m' ->
  (forall ob', orderBooks m' !! b = Some ob' -> uncrossed ob') ->
  AllUncrossed (orderBooks m) -> AllUncrossed (orderBooks m').
Proof.
  intros Ht Hb Hall k obk Hk. destruct (decide (k = b)) as [->|Hne]; [now apply Hb|].
  rewrite (tb_books _ _ _ Ht k Hne) in Hk. exact (Hall k obk Hk).
Qed.

Lemma AllUncrossed_shrunk (b : Z) (m m' : MarketManager) (ob ob' : OrderBook) :
  touches_book b m m' -> orderBooks m !! b = Some ob -> orderBooks m' !! b = Some ob' ->
  book_wf ob -> book_wf ob' -> shrunk ob ob' ->
  AllUncrossed (orderBooks m) -> AllUncrossed (orderBooks m').
Proof.
  intros Ht Hb Hb' Hwf Hwf' Hsh Hall. apply (AllUncrossed_touch b m m' Ht); [|exact Hall].
  intros ob0 Hb0. rewrite Hb' in Hb0. injection Hb0 as <-.
  exact (uncrossed_shrink ob ob' Hwf Hwf' Hsh (Hall b ob Hb)).
Qed.

Lemma match_if_enabled_spec (book : Z) (m : MarketManager) (ob : OrderBook) :
  Inv m -> orderBooks m !! book = Some ob ->
  exists m' ob', match_if_enabled book m = Some m' /\ Inv m' /\
    touches_book book m m' /\ orderBooks m' !! book = Some ob' /\
    (matching m = true -> uncrossed ob') /\
    (matching m = false -> m' = m) /\
    (size (orders m') <= size (orders m))%nat.
Proof.
  intros HI Hb. unfold match_if_enabled. destruct (matching m) eqn:Em.
  - destruct (match_spec book m ob HI Hb) as (m' & ob' & H1 & H2 & H3 & H4 & H5 & _ & H7).
    exists m', ob'. split; [exact H1|]. split; [exact H2|]. split; [exact H3|].
    split; [exact H4|]. split; [auto|]. split; [discriminate|exact H7].
  - exists m, ob. split; [reflexivity|]. split; [exact HI|].
    split; [apply touches_book_refl|]. split; [exact Hb|]. split; [discriminate|].
    split; [reflexivity|lia].
Qed.

(** The insertion [AddOrder], [ModifyOrder], [MitigateOrder],
    [ReplaceOrder] and [RestoreOrder] share, in a state [m0] whose book
    [ob] and registry [os] are the ones the operation has prepared, and
    the [updateLevel] call that follows it. *)
Lemma link_spec (bs : gmap Z OrderBook) (os : gmap Z OrderNode)
    (o : Order) (ob : OrderBook) (m0 : MarketManager) (e : Event) :
  Inv_on bs os -> Z.of_nat (size os) + 1 < 2 ^ 64 ->
  os !! ID o = None -> bs !! SymbolID o = Some ob ->
  (forall ob', <[SymbolID o := ob']> (orderBooks m0) = <[SymbolID o := ob']> bs) ->
  (forall n, <[ID o := n]> (orders m0) = <[ID o := n]> os) ->
  let n := {| node_Order := o; node_Level := Some (index_of o, route_price o) |} in
  exists ob' x m1,
    OrderBook_AddOrder ob o = Some (ob', (index_of o, route_price o)) /\
    m1 = set_order n (set_book (SymbolID o) ob' m0) /\
    link_order (SymbolID o) ob o m0 = Some (n, m1) /\
    Inv m1 /\ orderBooks m1 !! SymbolID o = Some ob' /\
    orders m1 = <[ID o := n]> os /\
    x ∈ levels (index_of o) ob' /\ price_of x = route_price o /\
    updateLevel (SymbolID o) n UpdateAdd (emit e m1)
    = Some (emits (e :: level_events (SymbolID o) UpdateAdd x.1
                          (top_of ob' o (index_of o, route_price o))) m1).
Proof.
  intros HI Hroom Hn Hb Hbs Hos n.
  destruct (Inv_link bs os o ob HI Hroom Hn Hb) as (ob' & Hadd & HI' & Hwf').
  fold n in HI'.
  assert (Hn' : <[ID o := n]> os !! ID o = Some n) by apply lookup_insert_eq.
  assert (Hb' : <[SymbolID o := ob']> bs !! SymbolID (node_Order n) = Some ob')
    by apply lookup_insert_eq.
  destruct (order_level _ _ (ID o) n ob' HI' Hn' Hb') as (x & Hx & HL & Hp & _).
  change (node_Order n) with o in Hx, HL, Hp.
  exists ob', x, (set_order n (set_book (SymbolID o) ob' m0)).
  split; [exact Hadd|]. split; [reflexivity|].
  split; [unfold link_order; rewrite Hadd; reflexivity|].
  assert (Hbooks : orderBooks (set_order n (set_book (SymbolID o) ob' m0))
                   = <[SymbolID o := ob']> bs) by (fields; apply Hbs).
  assert (Hords : orders (set_order n (set_book (SymbolID o) ob' m0))
                  = <[ID o := n]> os) by (fields; apply Hos).
  split; [unfold Inv; rewrite Hbooks, Hords; exact HI'|].
  split; [rewrite Hbooks; apply lookup_insert_eq|]. split; [exact Hords|].
  split; [exact Hx|]. split; [exact Hp|].
  rewrite (updateLevel_spec (SymbolID o) n UpdateAdd _ ob' (index_of o) x);
    [|fields; rewrite Hbs; apply lookup_insert_eq|exact Hwf'|exact HL|exact Hx].
  rewrite emits_emit. now rewrite Hp.
Qed.

Ltac fields_in H :=
  cbn [orderBooks orders symbols matching handler emits emit
       set_orders set_book set_orderBooks set_order set_symbols] in H.

Ltac error_return HI :=
  eexists _, _; split; [reflexivity|split; [apply op_ok_error; exact HI|reflexivity]].

Lemma touches_book_link (b : Z) (ob' : OrderBook) (n : OrderNode) (evs : list Event)
    (m m1 : MarketManager) :
  m1 = set_order n (set_book b ob' m) -> touches_book b m (emits evs m1).
Proof.
  intros ->. split; fields; try reflexivity.
  - intros k Hk. now rewrite lookup_insert_ne by congruence.
  - eauto.
Qed.

Lemma AddOrder_ok (o : Order) (m : MarketManager) :
  Inv m -> Z.of_nat (size (orders m)) + 1 < 2 ^ 64 ->
  exists code m', AddOrder o m = Some (code, m') /\ op_ok m code m' /\
    matching m' = matching m.
Proof.
  intros HI Hroom. unfold AddOrder.
  destruct (validateOrder o) eqn:Ev; try error_return HI.
  destruct (orders m !! ID o) as [n0|] eqn:Hn; [error_return HI|].
  destruct (orderBooks m !! SymbolID o) as [ob|] eqn:Hb; [|error_return HI].
  destruct (link_spec (orderBooks m) (orders m) o ob m (OnAddOrder o) HI Hroom Hn Hb
              ltac:(reflexivity) ltac:(reflexivity))
    as (ob' & x & m1 & Hadd & Em1 & Hlink & HI1 & Hb1 & Ho1 & Hx & Hp & Hup).
  rewrite Hlink. cbn [mbind option_bind]. rewrite Hup. cbn [mbind option_bind].
  set (evs := OnAddOrder o :: _) in *.
  destruct (match_if_enabled_spec (SymbolID o) (emits evs m1) ob' HI1 Hb1)
    as (m3 & ob3 & Hm & HI3 & Ht3 & Hb3 & Hun3 & _ & Hsz3).
  rewrite Hm. cbn [mbind option_bind]. exists ErrorOK, m3. split; [reflexivity|].
  pose proof (touches_book_trans _ _ _ _ (touches_book_link _ ob' _ evs m m1 Em1) Ht3) as Ht.
  split; [|exact (tb_matching _ _ _ Ht)]. split.
  - exact HI3.
  - change (orders (emits evs m1)) with (orders m1) in Hsz3. rewrite Ho1 in Hsz3.
    rewrite map_size_insert_None in Hsz3 by exact Hn. exact Hsz3.
  - exact (tb_trace _ _ _ Ht).
  - intros Hc. now contradiction Hc.
  - intros Hmat Hall. apply (AllUncrossed_touch (SymbolID o) m m3 Ht); [|exact Hall].
    intros ob0 Hb0. rewrite Hb3 in Hb0. injection Hb0 as <-. apply Hun3.
    rewrite Em1. exact Hmat.
Qed.

Lemma DeleteOrder_ok (id : Z) (m : MarketManager) :
  Inv m ->
  exists code m', DeleteOrder id m = Some (code, m') /\ op_ok m code m' /\
    matching m' = matching m /\ (size (orders m') <= size (orders m))%nat.
Proof.
  intros HI. destruct (orders m !! id) as [n|] eqn:Hn.
  - destruct (DeleteOrder_spec id m n HI Hn)
      as (ob & ob' & x & Hb & Hx & HL & Hin & Hdel & Heq & HI' & Hwf & Hwf' & Hsh).
    rewrite Heq. eexists _, _. split; [reflexivity|].
    assert (Ht : touches_book (SymbolID (node_Order n)) m
                   (emits (level_events (SymbolID (node_Order n)) UpdateDelete x.1
                             (top_of ob (node_Order n)
                                (index_of (node_Order n), price_of x))
                           ++ [OnDeleteOrder (node_Order n)])
                      (set_orders (delete id (orders m))
                         (set_book (SymbolID (node_Order n)) ob' m)))).
    { split; fields; try reflexivity.
      - intros k Hk. now rewrite lookup_insert_ne by congruence.
      - eauto. }
    split; [|split; [reflexivity|fields; apply size_delete_le]]. split.
    + exact HI'.
    + fields. pose proof (size_delete_le (orders m) id). lia.
    + exact (tb_trace _ _ _ Ht).
    + intros Hc. now contradiction Hc.
    + intros _. apply (AllUncrossed_shrunk _ _ _ ob ob' Ht Hb); auto.
      fields. apply lookup_insert_eq.
  - unfold DeleteOrder. rewrite Hn. eexists _, _. split; [reflexivity|].
    split; [apply op_ok_error; exact HI|]. split; [reflexivity|lia].
Qed.

Lemma executeOrder_ok (id price q : Z) (m : MarketManager) (n : OrderNode) :
  Inv m -> orders m !! id = Some n ->
  exists m', executeOrder id price q m = Some (ErrorOK, m') /\ op_ok m ErrorOK m' /\
    matching m' = matching m /\ (size (orders m') <= size (orders m))%nat.
Proof.
  intros HI Hn.
  destruct (executeOrder_spec id price q m n HI Hn)
    as (m' & ob & ob' & He & HI' & Ht & Hb & Hb' & Hsh & Ho & _).
  assert (Hsz : (size (orders m') <= size (orders m))%nat).
  { rewrite Ho. destruct (_ =? 0);
      [apply size_delete_le|rewrite (size_insert_same _ _ _ _ Hn); lia]. }
  exists m'. split; [exact He|]. split; [|split; [exact (tb_matching _ _ _ Ht)|exact Hsz]].
  split.
  - exact HI'.
  - lia.
  - exact (tb_trace _ _ _ Ht).
  - intros Hc. now contradiction Hc.
  - intros _. apply (AllUncrossed_shrunk _ _ _ ob ob' Ht Hb Hb'); auto.
    + exact (inv_books _ _ HI _ _ Hb).
    + exact (inv_books _ _ HI' _ _ Hb').
Qed.

Lemma ExecuteOrder_ok (id q : Z) (m : MarketManager) :
  Inv m ->
  exists code m', ExecuteOrder id q m = Some (code, m') /\ op_ok m code m' /\
    matching m' = matching m /\ (size (orders m') <= size (orders m))%nat.
Proof.
  intros HI. unfold ExecuteOrder. destruct (orders m !! id) as [n|] eqn:Hn.
  - destruct ((q =? 0) || (q >? LeavesQuantity (node_Order n))).
    + eexists _, _. split; [reflexivity|]. split; [apply op_ok_error; exact HI|].
      split; [reflexivity|lia].
    + destruct (executeOrder_ok id (Price (node_Order n)) q m n HI Hn) as (m' & H1 & H2).
      eauto.
  - eexists _, _. split; [reflexivity|]. split; [apply op_ok_error; exact HI|].
    split; [reflexivity|lia].
Qed.

Lemma ExecuteOrderWithPrice_ok (id price q : Z) (m : MarketManager) :
  Inv m ->
  exists code m', ExecuteOrderWithPrice id price q m = Some (code, m') /\
    op_ok m code m' /\ matching m' = matching m /\
    (size (orders m') <= size (orders m))%nat.
Proof.
  intros HI. unfold ExecuteOrderWithPrice. destruct (orders m !! id) as [n|] eqn:Hn.
  - destruct ((q =? 0) || (q >? LeavesQuantity (node_Order n))).
    + eexists _, _. split; [reflexivity|]. split; [apply op_ok_error; exact HI|].
      split; [reflexivity|lia].
    + destruct (executeOrder_ok id price q m n HI Hn) as (m' & H1 & H2). eauto.
  - eexists _, _. split; [reflexivity|]. split; [apply op_ok_error; exact HI|].
    split; [reflexivity|lia].
Qed.

Lemma Match_ok (symbolID : Z) (m : MarketManager) :
  Inv m ->
  exists code m', Match symbolID m = Some (code, m') /\ op_ok m code m' /\
    matching m' = matching m /\ (size (orders m') <= size (orders m))%nat.
Proof.
  intros HI. unfold Match. destruct (orderBooks m !! symbolID) as [ob|] eqn:Hb.
  - destruct (match_spec symbolID m ob HI Hb)
      as (m' & ob' & Hm & HI' & Ht & Hb' & Hun & Hsh & Hsz).
    rewrite Hm. cbn [mbind option_bind]. eexists _, _. split; [reflexivity|].
    split; [|split; [exact (tb_matching _ _ _ Ht)|exact Hsz]]. split.
    + exact HI'.
    + lia.
    + exact (tb_trace _ _ _ Ht).
    + intros Hc. now contradiction Hc.
    + intros _. apply (AllUncrossed_touch symbolID m m' Ht).
      intros ob0 Hb0. rewrite Hb' in Hb0. now injection Hb0 as <-.
  - eexists _, _. split; [reflexivity|]. split; [apply op_ok_error; exact HI|].
    split; [reflexivity|lia].
Qed.

Lemma ReduceOrder_ok (id q : Z) (m : MarketManager) :
  Inv m ->
  exists code m', ReduceOrder id q m = Some (code, m') /\ op_ok m code m' /\
    matching m' = matching m /\ (size (orders m') <= size (orders m))%nat.
Proof.
  intros HI. unfold ReduceOrder. destruct (orders m !! id) as [n|] eqn:Hn;
    [|eexists _, _; split; [reflexivity|]; split; [apply op_ok_error; exact HI|];
      split; [reflexivity|lia]].
  destruct (q =? 0);
    [eexists _, _; split; [reflexivity|]; split; [apply op_ok_error; exact HI|];
      split; [reflexivity|lia]|].
  destruct (q >=? LeavesQuantity (node_Order n)); [exact (DeleteOrder_ok id m HI)|].
  destruct (inv_orders _ _ HI id n Hn) as (HID & _ & ob & _ & Hb & _).
  set (o := node_Order n) in *.
  set (o' := set_quantities o (Price o) (Quantity o) (ExecutedQuantity o)
               (u64 (LeavesQuantity o - q))).
  set (n' := with_Order n o').
  destruct (Inv_reduce _ _ id n o' q
              (u64 (HiddenQuantity o - HiddenQuantity o'))
              (u64 (VisibleQuantity o - VisibleQuantity o')) ob HI Hn Hb
              eq_refl eq_refl eq_refl eq_refl)
    as (ob1 & Hred & HI1 & Hwf1 & Hsh1 & Hbest1).
  fold o n' in Hred, HI1.
  assert (Hn1 : <[id := n']> (orders m) !! id = Some n') by apply lookup_insert_eq.
  assert (Hb1 : <[SymbolID o := ob1]> (orderBooks m) !! SymbolID (node_Order n') = Some ob1)
    by apply lookup_insert_eq.
  destruct (order_level _ _ id n' ob1 HI1 Hn1 Hb1)
    as (x1 & Hx1 & HL1 & Hp1 & Hin1 & _ & _ & _).
  rewrite Hb. cbn [mbind option_bind]. rewrite Hred. cbn [mbind option_bind].
  rewrite emit_as_emits.
  rewrite (updateLevel_spec (SymbolID o) n' UpdateUpdate _ ob1
             (index_of (node_Order n')) x1);
    [|apply lookup_insert_eq|exact Hwf1|exact HL1|exact Hx1].
  cbn [mbind option_bind]. eexists _, _. split; [reflexivity|].
  assert (Hords : <[ID (node_Order n') := n']> (orders m) = <[id := n']> (orders m)).
  { change (ID (node_Order n')) with (ID o). now rewrite HID. }
  split; [|split; [reflexivity|]].
  - split.
    + unfold Inv. fields. rewrite Hords. exact HI1.
    + fields. rewrite Hords, (size_insert_same _ _ _ _ Hn). lia.
    + fields. eexists. rewrite <- !app_assoc. reflexivity.
    + intros Hc. now contradiction Hc.
    + intros _ Hall k obk Hk. fields_in Hk.
      apply lookup_insert_Some in Hk as [[<- <-]|[Hne Hk]]; [|exact (Hall k obk Hk)].
      exact (uncrossed_shrink ob ob1 (inv_books _ _ HI _ _ Hb) Hwf1 Hsh1 (Hall _ _ Hb)).
  - fields. rewrite Hords, (size_insert_same _ _ _ _ Hn). lia.
Qed.

Lemma relink_ok (id : Z) (m : MarketManager) (n : OrderNode) (o' : Order) :
  Inv m -> orders m !! id = Some n ->
  ID o' = id -> SymbolID o' = SymbolID (node_Order n) ->
  exists m', relink n o' m = Some (ErrorOK, m') /\ op_ok m ErrorOK m' /\
    matching m' = matching m /\ (size (orders m') <= size (orders m))%nat /\
    exists n', orders m' !! id = Some n' \/ matching m = true.
Proof.
  intros HI Hn EID ESym.
  destruct (DeleteOrder_spec id m n HI Hn)
    as (ob & ob1 & x & Hb & Hx & HL & Hin & Hdel & _ & HI1 & Hwf & Hwf1 & Hsh).
  set (b := SymbolID (node_Order n)) in *.
  unfold relink. fold b. rewrite Hb. cbn [mbind option_bind].
  rewrite (updateLevel_spec b n UpdateDelete m ob _ x Hb Hwf HL Hx).
  cbn [mbind option_bind]. rewrite Hdel. cbn [mbind option_bind].
  set (evs1 := level_events b UpdateDelete x.1 _).
  pose proof (size_delete_lt _ _ _ Hn) as Hlt. pose proof (inv_size _ _ HI) as Hbound.
  destruct (link_spec (<[b := ob1]> (orderBooks m)) (delete id (orders m)) o' ob1
              (emits evs1 m) (OnUpdateOrder o') HI1)
    as (ob2 & x2 & m2 & Hadd & Em2 & Hlink & HI2 & Hb2 & Ho2 & Hx2 & Hp2 & Hup).
  { lia. }
  { rewrite EID. apply lookup_delete_eq. }
  { rewrite ESym. apply lookup_insert_eq. }
  { intros ob'. rewrite ESym. fields. symmetry. apply insert_insert_eq. }
  { intros n0. rewrite EID. fields. symmetry. apply insert_delete_eq. }
  rewrite ESym in Hlink, Hb2, Hup, Em2. rewrite EID in Ho2.
  rewrite Hlink. cbn [mbind option_bind]. rewrite Hup. cbn [mbind option_bind].
  set (evs2 := OnUpdateOrder o' :: _) in *.
  destruct (match_if_enabled_spec b (emits evs2 m2) ob2 HI2 Hb2)
    as (m4 & ob4 & Hm & HI4 & Ht4 & Hb4 & Hun4 & Hoff & Hsz4).
  rewrite Hm. cbn [mbind option_bind]. exists m4. split; [reflexivity|].
  assert (Ht : touches_book b m m4).
  { refine (touches_book_trans _ _ _ _ _ Ht4). rewrite Em2. split; fields; try reflexivity.
    - intros k Hk. now rewrite lookup_insert_ne by congruence.
    - exists (evs1 ++ evs2). now rewrite app_assoc. }
  assert (Hsz : (size (orders m4) <= size (orders m))%nat).
  { change (orders (emits evs2 m2)) with (orders m2) in Hsz4. rewrite Ho2 in Hsz4.
    rewrite map_size_insert_None in Hsz4 by apply lookup_delete_eq. lia. }
  split; [|split; [exact (tb_matching _ _ _ Ht)|split; [exact Hsz|]]].
  - split.
    + exact HI4.
    + lia.
    + exact (tb_trace _ _ _ Ht).
    + intros Hc. now contradiction Hc.
    + intros Hmat Hall. apply (AllUncrossed_touch b m m4 Ht); [|exact Hall].
      intros ob0 Hb0. rewrite Hb4 in Hb0. injection Hb0 as <-. apply Hun4.
      rewrite Em2. exact Hmat.
  - eexists. destruct (matching m) eqn:Emat; [now right|left].
    rewrite Hoff by (rewrite Em2; exact Emat).
    change (orders (emits evs2 m2)) with (orders m2). rewrite Ho2. apply lookup_insert_eq.
Qed.

Lemma ModifyOrder_ok (id newPrice newQuantity : Z) (m : MarketManager) :
  Inv m ->
  exists code m', ModifyOrder id newPrice newQuantity m = Some (code, m') /\
    op_ok m code m' /\ matching m' = matching m /\
    (size (orders m') <= size (orders m))%nat.
Proof.
  intros HI. unfold ModifyOrder. destruct (orders m !! id) as [n|] eqn:Hn;
    [|eexists _, _; split; [reflexivity|]; split; [apply op_ok_error; exact HI|];
      split; [reflexivity|lia]].
  destruct (newQuantity =? 0);
    [eexists _, _; split; [reflexivity|]; split; [apply op_ok_error; exact HI|];
      split; [reflexivity|lia]|].
  destruct (inv_orders _ _ HI id n Hn) as (HID & _).
  destruct (relink_ok id m n
              (set_quantities (node_Order n) newPrice newQuantity 0 newQuantity)
              HI Hn HID eq_refl) as (m' & Hr & Hok & Hmat & Hsz & _).
  exists ErrorOK, m'. split; [exact Hr|]. auto.
Qed.

Lemma MitigateOrder_ok (id newPrice newQuantity : Z) (m : MarketManager) :
  Inv m ->
  exists code m', MitigateOrder id newPrice newQuantity m = Some (code, m') /\
    op_ok m code m' /\ matching m' = matching m /\
    (size (orders m') <= size (orders m))%nat.
Proof.
  intros HI. unfold MitigateOrder. destruct (orders m !! id) as [n|] eqn:Hn;
    [|eexists _, _; split; [reflexivity|]; split; [apply op_ok_error; exact HI|];
      split; [reflexivity|lia]].
  destruct (newQuantity <=? ExecutedQuantity (node_Order n));
    [exact (DeleteOrder_ok id m HI)|].
  destruct (inv_orders _ _ HI id n Hn) as (HID & _).
  destruct (relink_ok id m n
              (set_quantities (node_Order n) newPrice newQuantity
                 (ExecutedQuantity (node_Order n))
                 (u64 (newQuantity - ExecutedQuantity (node_Order n))))
              HI Hn HID eq_refl) as (m' & Hr & Hok & Hmat & Hsz & _).
  exists ErrorOK, m'. split; [exact Hr|]. auto.
Qed.

Lemma ReplaceOrder_ok (id newID newPrice newQuantity : Z) (m : MarketManager) :
  Inv m ->
  exists code m', ReplaceOrder id newID newPrice newQuantity m = Some (code, m') /\
    op_ok m code m' /\ matching m' = matching m /\
    (size (orders m') <= size (orders m))%nat.
Proof.
  intros HI. unfold ReplaceOrder. destruct (orders m !! id) as [n|] eqn:Hn;
    [|eexists _, _; split; [reflexivity|]; split; [apply op_ok_error; exact HI|];
      split; [reflexivity|lia]].
  destruct (newQuantity =? 0);
    [eexists _, _; split; [reflexivity|]; split; [apply op_ok_error; exact HI|];
      split; [reflexivity|lia]|].
  destruct (orders m !! newID) as [n0|] eqn:Hnew;
    [eexists _, _; split; [reflexivity|]; split; [apply op_ok_error; exact HI|];
      split; [reflexivity|lia]|].
  destruct (DeleteOrder_spec id m n HI Hn)
    as (ob & ob1 & x & Hb & Hx & HL & Hin & Hdel & _ & HI1 & Hwf & Hwf1 & Hsh).
  set (o := node_Order n) in *. set (b := SymbolID o) in *.
  rewrite Hb. cbn [mbind option_bind].
  rewrite (updateLevel_spec b n UpdateDelete m ob _ x Hb Hwf HL Hx).
  cbn [mbind option_bind]. rewrite Hdel. cbn [mbind option_bind].
  set (evs1 := level_events b UpdateDelete x.1 _).
  set (newOrder := {| ID := newID; SymbolID := b; Type_ := Type_ o;
                      Side := Side o; Price := newPrice; StopPrice := StopPrice o;
                      Quantity := newQuantity; ExecutedQuantity := 0;
                      LeavesQuantity := newQuantity; TimeInForce := TimeInForce o;
                      MaxVisible := MaxVisible o; Slippage := Slippage o;
                      TrailingDistance := TrailingDistance o;
                      TrailingStep := TrailingStep o |}).
  set (m2 := emit (OnDeleteOrder o)
               (set_orders (delete id (orders (emits evs1 m)))
                  (set_book b ob1 (emits evs1 m)))).
  pose proof (size_delete_lt _ _ _ Hn) as Hlt. pose proof (inv_size _ _ HI) as Hbound.
  destruct (link_spec (<[b := ob1]> (orderBooks m)) (delete id (orders m)) newOrder ob1
              m2 (OnAddOrder newOrder) HI1)
    as (ob2 & x2 & m3 & Hadd & Em3 & Hlink & HI3 & Hb3 & Ho3 & Hx3 & Hp3 & Hup).
  { lia. }
  { apply lookup_delete_None. now right. }
  { apply lookup_insert_eq. }
  { reflexivity. }
  { reflexivity. }
  change (SymbolID newOrder) with b in Hlink, Hb3, Hup, Em3.
  change (ID newOrder) with newID in Ho3.
  rewrite Hlink. cbn [mbind option_bind]. rewrite Hup. cbn [mbind option_bind].
  set (evs2 := OnAddOrder newOrder :: _) in *.
  destruct (match_if_enabled_spec b (emits evs2 m3) ob2 HI3 Hb3)
    as (m5 & ob5 & Hm & HI5 & Ht5 & Hb5 & Hun5 & Hoff & Hsz5).
  rewrite Hm. cbn [mbind option_bind]. exists ErrorOK, m5. split; [reflexivity|].
  assert (Ht : touches_book b m m5).
  { refine (touches_book_trans _ _ _ _ _ Ht5). rewrite Em3. unfold m2.
    split; fields; try reflexivity.
    - intros k Hk. now rewrite !lookup_insert_ne by congruence.
    - eexists. rewrite <- !app_assoc. reflexivity. }
  assert (Hsz : (size (orders m5) <= size (orders m))%nat).
  { change (orders (emits evs2 m3)) with (orders m3) in Hsz5. rewrite Ho3 in Hsz5.
    rewrite map_size_insert_None in Hsz5 by (apply lookup_delete_None; now right). lia. }
  split; [|split; [exact (tb_matching _ _ _ Ht)|exact Hsz]].
  split.
  - exact HI5.
  - lia.
  - exact (tb_trace _ _ _ Ht).
  - intros Hc. now contradiction Hc.
  - intros Hmat Hall. apply (AllUncrossed_touch b m m5 Ht); [|exact Hall].
    intros ob0 Hb0. rewrite Hb5 in Hb0. injection Hb0 as <-. apply Hun5.
    rewrite Em3. exact Hmat.
Qed.

Lemma AddSymbol_ok (s : Symbol) (m : MarketManager) :
  Inv m -> op_ok m (AddSymbol s m).1 (AddSymbol s m).2 /\
           matching (AddSymbol s m).2 = matching m /\
           orders (AddSymbol s m).2 = orders m.
Proof.
  intros HI. unfold AddSymbol. destruct (symbols m !! Symbol_ID s); cbn [fst snd].
  - split; [apply op_ok_error; exact HI|split; reflexivity].
  - split; [|split; reflexivity]. split; fields.
    + exact HI.
    + lia.
    + eauto.
    + intros Hc. now contradiction Hc.
    + auto.
Qed.

Lemma Inv_add_book (bs : gmap Z OrderBook) (os : gmap Z OrderNode) (s : Symbol) :
  Inv_on bs os -> bs !! Symbol_ID s = None ->
  Inv_on (<[Symbol_ID s := NewOrderBook s]> bs) os.
Proof.
  intros HI Hnone. split.
  - exact (inv_size _ _ HI).
  - intros k ob Hk. apply lookup_insert_Some in Hk as [[_ <-]|[_ Hk]];
      [apply NewOrderBook_wf|exact (inv_books _ _ HI _ _ Hk)].
  - intros k ob i x Hk Hx. apply lookup_insert_Some in Hk as [[_ <-]|[_ Hk]].
    + rewrite NewOrderBook_levels in Hx. inversion Hx.
    + exact (inv_levels _ _ HI _ _ _ _ Hk Hx).
  - intros id n Hn. destruct (inv_orders _ _ HI id n Hn) as (H1 & H2 & ob & x & Hb & H3).
    split; [exact H1|]. split; [exact H2|]. exists ob, x. split; [|exact H3].
    rewrite lookup_insert_ne; [exact Hb|]. intros E. rewrite <- E, Hnone in Hb. discriminate.
Qed.

Lemma AddOrderBook_ok (s : Symbol) (m : MarketManager) :
  Inv m -> op_ok m (AddOrderBook s m).1 (AddOrderBook s m).2 /\
           matching (AddOrderBook s m).2 = matching m /\
           orders (AddOrderBook s m).2 = orders m.
Proof.
  intros HI. unfold AddOrderBook.
  destruct (orderBooks m !! Symbol_ID s) eqn:Hb; cbn [fst snd].
  - split; [apply op_ok_error; exact HI|split; reflexivity].
  - split; [|split; reflexivity]. split; fields.
    + exact (Inv_add_book _ _ s HI Hb).
    + lia.
    + eauto.
    + intros Hc. now contradiction Hc.
    + intros _ Hall k ob Hk. apply lookup_insert_Some in Hk as [[_ <-]|[_ Hk]];
        [|exact (Hall k ob Hk)].
      intros b a Hbid. discriminate.
Qed.

(** [DeleteOrder] on an ID whose order, if there is one, is on book [b]. *)
Lemma DeleteOrder_in_book (id b : Z) (m : MarketManager) :
  Inv m -> (forall n, orders m !! id = Some n -> SymbolID (node_Order n) = b) ->
  exists code m', DeleteOrder id m = Some (code, m') /\ Inv m' /\
    touches_book b m m' /\ orders m' = delete id (orders m) /\
    (AllUncrossed (orderBooks m) -> AllUncrossed (orderBooks m')).
Proof.
  intros HI Hbook. destruct (orders m !! id) as [n|] eqn:Hn.
  - destruct (DeleteOrder_spec id m n HI Hn)
      as (ob & ob' & x & Hb & Hx & HL & Hin & Hdel & Heq & HI' & Hwf & Hwf' & Hsh).
    rewrite Heq, (Hbook n eq_refl) in *. eexists _, _. split; [reflexivity|].
    split; [exact HI'|].
    match goal with |- touches_book b m ?M /\ _ => assert (Ht : touches_book b m M) end.
    { split; fields; try reflexivity.
      - intros k Hk. now rewrite lookup_insert_ne by congruence.
      - eauto. }
    split; [exact Ht|]. split; [reflexivity|].
    apply (AllUncrossed_shrunk _ _ _ ob ob' Ht Hb); auto. fields. apply lookup_insert_eq.
  - unfold DeleteOrder. rewrite Hn. eexists _, _. split; [reflexivity|].
    split; [exact HI|]. split; [apply touches_book_refl|].
    split; [symmetry; now apply delete_id|auto].
Qed.

Lemma lookup_foldl_delete {A B : Type} (f : B -> Z) (l : list B) :
  forall (os : gmap Z A) (k : Z) (n : A),
  foldl (fun os kn => delete (f kn) os) os l !! k = Some n <->
  os !! k = Some n /\ k ∉ f <$> l.
Proof.
  induction l as [|a l IH]; intros os k n; cbn [foldl fmap list_fmap].
  - split; [intros H; split; [exact H|inversion 1]|tauto].
  - rewrite IH, lookup_delete_Some, not_elem_of_cons. split.
    + intros [[Hne H] Hl]. split; [exact H|]. split; [congruence|exact Hl].
    + intros [H [Hne Hl]]. split; [split; [congruence|exact H]|exact Hl].
Qed.

Lemma size_foldl_delete {B : Type} (f : B -> Z) (l : list B) :
  forall os : gmap Z OrderNode,
  (size (foldl (fun os kn => delete (f kn) os) os l) <= size os)%nat.
Proof.
  induction l as [|a l IH]; intros os; cbn [foldl]; [lia|].
  etransitivity; [apply IH|apply size_delete_le].
Qed.

(** The loop of [DeleteOrderBook] over orders of book [b]. *)
Lemma DeleteOrders_fold (b : Z) (l : list (Z * OrderNode)) :
  forall m : MarketManager,
  Inv m ->
  (forall kn n, kn ∈ l -> orders m !! ID (node_Order kn.2) = Some n ->
     SymbolID (node_Order n) = b) ->
  exists m',
    foldl (fun acc kn => m' ← acc; snd <$> DeleteOrder (ID (node_Order kn.2)) m')
          (Some m) l = Some m' /\
    Inv m' /\ touches_book b m m' /\
    orders m' = foldl (fun os kn => delete (ID (node_Order kn.2)) os) (orders m) l /\
    (AllUncrossed (orderBooks m) -> AllUncrossed (orderBooks m')).
Proof.
  induction l as [|kn l IH]; intros m HI Hl; cbn [foldl].
  - exists m. split; [reflexivity|]. split; [exact HI|].
    split; [apply touches_book_refl|]. split; [reflexivity|auto].
  - destruct (DeleteOrder_in_book (ID (node_Order kn.2)) b m HI)
      as (code & m1 & Hd & HI1 & Ht1 & Ho1 & Hun1).
    { intros n Hn. apply (Hl kn n); [left|exact Hn]. }
    cbn [mbind option_bind]. rewrite Hd. cbn [fmap option_fmap option_map snd].
    destruct (IH m1 HI1) as (m' & Hf & HI' & Ht' & Ho' & Hun').
    { intros kn' n Hin Hn. rewrite Ho1 in Hn. apply lookup_delete_Some in Hn as [_ Hn].
      apply (Hl kn' n); [now right|exact Hn]. }
    exists m'. split; [exact Hf|]. split; [exact HI'|].
    split; [exact (touches_book_trans _ _ _ _ Ht1 Ht')|].
    split; [now rewrite Ho', Ho1|auto].
Qed.

Lemma DeleteOrderBook_ok (id : Z) (m : MarketManager) :
  Inv m ->
  exists code m', DeleteOrderBook id m = Some (code, m') /\ op_ok m code m' /\
    matching m' = matching m /\ symbols m' = symbols m /\
    (size (orders m') <= size (orders m))%nat /\
    (code = ErrorOK -> orderBooks m' !! id = None /\
       forall k n, orders m' !! k = Some n ->
         orders m !! k = Some n /\ SymbolID (node_Order n) <> id) /\
    (code = ErrorOK ->
       (forall k, k <> id -> orderBooks m' !! k = orderBooks m !! k) /\
       (forall k n, orders m !! k = Some n -> SymbolID (node_Order n) <> id ->
          orders m' !! k = Some n) /\
       exists evs, handler m' = handler m ++ evs ++ [OnDeleteOrderBook id]).
Proof.
  intros HI. unfold DeleteOrderBook. destruct (orderBooks m !! id) as [ob|] eqn:Hb;
    [|eexists _, _; split; [reflexivity|]; split; [apply op_ok_error; exact HI|];
      split; [reflexivity|]; split; [reflexivity|]; split; [lia|split; discriminate]].
  set (l := filter _ _).
  destruct (DeleteOrders_fold id l m HI) as (m1 & Hf & HI1 & Ht1 & Ho1 & Hun1).
  { intros [k n0] n Hin Hn. cbn [snd] in Hn. subst l.
    apply list_elem_of_filter in Hin as [HS Hin]. cbn [snd] in HS.
    apply elem_of_map_to_list in Hin.
    destruct (inv_orders _ _ HI k n0 Hin) as (HID & _). rewrite HID, Hin in Hn.
    now injection Hn as <-. }
  rewrite Hf. cbn [mbind option_bind]. eexists _, _. split; [reflexivity|].
  assert (Hleft : forall k n, orders m1 !! k = Some n ->
            orders m !! k = Some n /\ SymbolID (node_Order n) <> id).
  { intros k n Hn. rewrite Ho1 in Hn. apply lookup_foldl_delete in Hn as [Hn Hnot].
    split; [exact Hn|]. intros HS. apply Hnot. apply list_elem_of_fmap.
    exists (k, n). cbn [snd]. split; [now destruct (inv_orders _ _ HI k n Hn)|].
    subst l. apply list_elem_of_filter. split; [exact HS|].
    now apply elem_of_map_to_list. }
  assert (Hkept : forall k n, orders m !! k = Some n -> SymbolID (node_Order n) <> id ->
            orders m1 !! k = Some n).
  { intros k n Hn Hne. rewrite Ho1. apply lookup_foldl_delete. split; [exact Hn|].
    intros Hin. apply list_elem_of_fmap in Hin as ([k0 n0] & Ek & Hin). cbn [snd] in Ek.
    subst l. apply list_elem_of_filter in Hin as [HS Hin]. cbn [snd] in HS.
    apply elem_of_map_to_list in Hin.
    destruct (inv_orders _ _ HI k0 n0 Hin) as (HID & _).
    assert (Ek0 : k0 = k) by congruence. rewrite Ek0, Hn in Hin. injection Hin as <-.
    contradiction. }
  split; [|split; [exact (tb_matching _ _ _ Ht1)|split; [exact (tb_symbols _ _ _ Ht1)|
    split; [fields; rewrite Ho1; apply size_foldl_delete|
    split; [intros _; split; [fields; apply lookup_delete_eq|exact Hleft]|]]]]];
    [|intros _; split; [|split; [exact Hkept|]]];
    [|intros k Hk; fields; rewrite lookup_delete_ne by congruence;
      exact (tb_books _ _ _ Ht1 k Hk)
     |fields; destruct (tb_trace _ _ _ Ht1) as [evs Hevs]; exists evs;
      rewrite Hevs, <- app_assoc; reflexivity].
  split.
  - unfold Inv. fields. split.
    + exact (inv_size _ _ HI1).
    + intros k obk Hk. apply lookup_delete_Some in Hk as [_ Hk].
      exact (inv_books _ _ HI1 _ _ Hk).
    + intros k obk i x Hk Hx. apply lookup_delete_Some in Hk as [_ Hk].
      exact (inv_levels _ _ HI1 _ _ _ _ Hk Hx).
    + intros k n Hn. destruct (inv_orders _ _ HI1 k n Hn) as (H1 & H2 & obk & x & Hk & H3).
      split; [exact H1|]. split; [exact H2|]. exists obk, x. split; [|exact H3].
      rewrite lookup_delete_ne; [exact Hk|]. intros E.
      destruct (Hleft k n Hn) as [_ Hne]. congruence.
  - fields. rewrite Ho1. pose proof (size_foldl_delete (fun kn : Z * OrderNode =>
      ID (node_Order kn.2)) l (orders m)). lia.
  - fields. destruct (tb_trace _ _ _ Ht1) as [evs Hevs]. rewrite Hevs.
    eexists. rewrite <- app_assoc. reflexivity.
  - intros Hc. now contradiction Hc.
  - intros _ Hall k obk Hk. fields_in Hk. apply lookup_delete_Some in Hk as [_ Hk].
    exact (Hun1 Hall k obk Hk).
Qed.

Lemma DeleteSymbol_ok (id : Z) (m : MarketManager) :
  Inv m ->
  exists code m', DeleteSymbol id m = Some (code, m') /\ op_ok m code m' /\
    matching m' = matching m /\ (size (orders m') <= size (orders m))%nat.
Proof.
  intros HI. unfold DeleteSymbol. destruct (symbols m !! id) as [s|] eqn:Hs;
    [|eexists _, _; split; [reflexivity|]; split; [apply op_ok_error; exact HI|];
      split; [reflexivity|lia]].
  destruct (orderBooks m !! id) as [ob|] eqn:Hb.
  - destruct (DeleteOrderBook_ok id m HI)
      as (code & m1 & Hd & Hok & Hmat & Hsym & Hsz & _ & _).
    rewrite Hd. cbn [fmap option_fmap option_map snd mbind option_bind].
    eexists _, _. split; [reflexivity|]. split; [|split; [exact Hmat|exact Hsz]].
    destruct Hok as [H1 H2 [evs H3] H4 H5]. split; fields.
    + exact H1.
    + exact H2.
    + eexists. rewrite H3, <- app_assoc. reflexivity.
    + intros Hc. now contradiction Hc.
    + exact H5.
  - cbn [mbind option_bind]. eexists _, _. split; [reflexivity|].
    split; [|split; [reflexivity|fields; lia]]. split; fields.
    + exact HI.
    + lia.
    + eauto.
    + intros Hc. now contradiction Hc.
    + auto.
Qed.

Lemma RestoreOrder_ok (o : Order) (m : MarketManager) :
  Inv m -> Z.of_nat (size (orders m)) + 1 < 2 ^ 64 ->
  exists code m', RestoreOrder o m = Some (code, m') /\ Inv m' /\
    (code <> ErrorOK -> m' = m) /\
    (code = ErrorOK ->
       orders m !! ID o = None /\
       symbols m' = symbols m /\ matching m' = matching m /\
       orders m' = <[ID o := {| node_Order := o;
                                node_Level := Some (index_of o, route_price o) |}]>
                     (orders m) /\
       forall k, is_Some (orderBooks m' !! k) <-> is_Some (orderBooks m !! k)).
Proof.
  intros HI Hroom. unfold RestoreOrder.
  destruct (orders m !! ID o) as [n0|] eqn:Hn;
    [eexists _, _; split; [reflexivity|]; split; [exact HI|];
      split; [reflexivity|discriminate]|].
  destruct (orderBooks m !! SymbolID o) as [ob|] eqn:Hb;
    [|eexists _, _; split; [reflexivity|]; split; [exact HI|];
      split; [reflexivity|discriminate]].
  destruct (link_spec (orderBooks m) (orders m) o ob m (OnAddOrder o) HI Hroom Hn Hb
              ltac:(reflexivity) ltac:(reflexivity))
    as (ob' & x & m1 & Hadd & Em1 & Hlink & HI1 & Hb1 & Ho1 & Hx & Hp & Hup).
  rewrite Hlink. cbn [mbind option_bind]. rewrite Hup. cbn [mbind option_bind].
  eexists _, _. split; [reflexivity|]. split; [exact HI1|].
  split; [intros Hc; now contradiction Hc|]. intros _. split; [reflexivity|].
  rewrite Em1. fields. split; [reflexivity|]. split; [reflexivity|].
  split; [reflexivity|]. intros k. destruct (decide (k = SymbolID o)) as [->|Hne].
  - rewrite lookup_insert_eq, Hb. split; eauto.
  - now rewrite lookup_insert_ne by congruence.
Qed.

(** Every operation returns, and returns in a consistent state. *)
Lemma run_op_spec (op : Op) (m : MarketManager) :
  Inv m -> Z.of_nat (size (orders m)) + 1 < 2 ^ 64 ->
  exists code m', run_op op m = Some (code, m') /\ op_ok m code m' /\
    (op <> OpDisableMatching -> matching m = true -> matching m' = true).
Proof.
  intros HI Hroom. destruct op; cbn [run_op].
  - eexists _, _. split; [reflexivity|]. split; [|reflexivity].
    split; cbn [EnableMatching orders orderBooks handler].
    + exact HI.
    + lia.
    + exists []. now rewrite app_nil_r.
    + intros Hc. now contradiction Hc.
    + auto.
  - eexists _, _. split; [reflexivity|]. split; [|intros Hc; now contradiction Hc].
    split; cbn [DisableMatching orders orderBooks handler].
    + exact HI.
    + lia.
    + exists []. now rewrite app_nil_r.
    + intros Hc. now contradiction Hc.
    + auto.
  - destruct (AddSymbol_ok s m HI) as (Hok & Hmat & _).
    destruct (AddSymbol s m) as [code m']. exists code, m'.
    split; [reflexivity|]. split; [exact Hok|]. cbn [snd] in Hmat. intros _. congruence.
  - destruct (DeleteSymbol_ok id m HI) as (code & m' & H1 & H2 & H3 & _).
    exists code, m'. split; [exact H1|]. split; [exact H2|]. intros _. congruence.
  - destruct (AddOrderBook_ok s m HI) as (Hok & Hmat & _).
    destruct (AddOrderBook s m) as [code m']. exists code, m'.
    split; [reflexivity|]. split; [exact Hok|]. cbn [snd] in Hmat. intros _. congruence.
  - destruct (DeleteOrderBook_ok id m HI) as (code & m' & H1 & H2 & H3 & _).
    exists code, m'. split; [exact H1|]. split; [exact H2|]. intros _. congruence.
  - destruct (AddOrder_ok o m HI Hroom) as (code & m' & H1 & H2 & H3).
    exists code, m'. split; [exact H1|]. split; [exact H2|]. intros _. congruence.
  - destruct (ReduceOrder_ok id quantity m HI) as (code & m' & H1 & H2 & H3 & _).
    exists code, m'. split; [exact H1|]. split; [exact H2|]. intros _. congruence.
  - destruct (ModifyOrder_ok id newPrice newQuantity m HI) as (code & m' & H1 & H2 & H3 & _).
    exists code, m'. split; [exact H1|]. split; [exact H2|]. intros _. congruence.
  - destruct (MitigateOrder_ok id newPrice newQuantity m HI)
      as (code & m' & H1 & H2 & H3 & _).
    exists code, m'. split; [exact H1|]. split; [exact H2|]. intros _. congruence.
  - destruct (ReplaceOrder_ok id newID newPrice newQuantity m HI)
      as (code & m' & H1 & H2 & H3 & _).
    exists code, m'. split; [exact H1|]. split; [exact H2|]. intros _. congruence.
  - destruct (DeleteOrder_ok id m HI) as (code & m' & H1 & H2 & H3 & _).
    exists code, m'. split; [exact H1|]. split; [exact H2|]. intros _. congruence.
  - destruct (ExecuteOrder_ok id quantity m HI) as (code & m' & H1 & H2 & H3 & _).
    exists code, m'. split; [exact H1|]. split; [exact H2|]. intros _. congruence.
  - destruct (ExecuteOrderWithPrice_ok id price quantity m HI)
      as (code & m' & H1 & H2 & H3 & _).
    exists code, m'. split; [exact H1|]. split; [exact H2|]. intros _. congruence.
  - destruct (Match_ok symbolID m HI) as (code & m' & H1 & H2 & H3 & _).
    exists code, m'. split; [exact H1|]. split; [exact H2|]. intros _. congruence.
Qed.

Lemma Inv_new : Inv NewMarketManager.
Proof.
  split; cbn [NewMarketManager orderBooks orders].
  - rewrite map_size_empty. lia.
  - intros k ob Hk. now rewrite lookup_empty in Hk.
  - intros k ob i x Hk. now rewrite lookup_empty in Hk.
  - intros id n Hn. now rewrite lookup_empty in Hn.
Qed.

(** A sequence of operations short enough for the registry's bound runs
    to its end, through consistent states. *)
Lemma run_ops_spec (ops : list Op) :
  forall m : MarketManager,
  Inv m -> Z.of_nat (size (orders m)) + Z.of_nat (length ops) < 2 ^ 64 ->
  exists m', run_ops ops m = Some m' /\ Inv m' /\
    (size (orders m') <= size (orders m) + length ops)%nat /\
    (exists evs, handler m' = handler m ++ evs) /\
    (OpDisableMatching ∉ ops -> matching m = true -> AllUncrossed (orderBooks m) ->
     matching m' = true /\ AllUncrossed (orderBooks m')).
Proof.
  induction ops as [|op ops IH]; intros m HI Hroom; cbn [run_ops].
  - exists m. split; [reflexivity|]. split; [exact HI|]. split; [lia|].
    split; [exists []; now rewrite app_nil_r|auto].
  - cbn [length] in Hroom.
    destruct (run_op_spec op m HI ltac:(lia)) as (code & m1 & Hop & Hok & Hmat).
    rewrite Hop. cbn [mbind option_bind].
    destruct Hok as [HI1 Hsz1 [evs1 Ht1] _ Hun1].
    destruct (IH m1 HI1 ltac:(lia)) as (m' & Hrun & HI' & Hsz' & [evs' Ht'] & Hun').
    exists m'. split; [exact Hrun|]. split; [exact HI'|]. split; [cbn [length]; lia|].
    split; [exists (evs1 ++ evs'); now rewrite Ht', Ht1, app_assoc|].
    intros Hno Hm Hall. apply not_elem_of_cons in Hno as [Hop' Hno].
    apply Hun'; auto.
Qed.

(** The states the operations reach from a new manager. *)
Lemma reachable_Inv (ops : list Op) (m : MarketManager) :
  Z.of_nat (length ops) < 2 ^ 64 -> run_ops ops NewMarketManager = Some m ->
  Inv m /\ (size (orders m) <= length ops)%nat.
Proof.
  intros Hlen Hrun.
  destruct (run_ops_spec ops NewMarketManager Inv_new) as (m' & Hrun' & HI & Hsz & _).
  { cbn [NewMarketManager orders]. rewrite map_size_empty. lia. }
  rewrite Hrun in Hrun'. injection Hrun' as <-.
  cbn [NewMarketManager orders] in Hsz. rewrite map_size_empty in Hsz. auto.
Qed.

Lemma sample_reachable : run_ops sample_ops NewMarketManager = Some sample_manager.
Proof. vm_compute. reflexivity. Qed.

Lemma sample_Inv : Inv sample_manager.
Proof. apply (reachable_Inv sample_ops); [vm_compute; reflexivity|exact sample_reachable]. Qed.

Lemma sample_book_wf : book_wf sample_book.
Proof. apply (inv_books _ _ sample_Inv 1). vm_compute. reflexivity. Qed.

End Operations.

Section Validation.

Lemma validateOrder_codes (o : Order) :
  validateOrder o = ErrorOK \/ validateOrder o = ErrorOrderIDInvalid \/
  validateOrder o = ErrorOrderQuantityInvalid \/
  validateOrder o = ErrorOrderParameterInvalid.
Proof.
  unfold validateOrder.
  repeat match goal with
         | |- context [if ?c then _ else _] => destruct c
         end; auto.
Qed.

(** An order [validateOrder] rejects is rejected by [AddOrder] in every
    state, with that code and no change. *)
Lemma AddOrder_rejected (o : Order) (m : MarketManager) :
  validateOrder o <> ErrorOK -> AddOrder o m = Some (validateOrder o, m).
Proof.
  intros Hrej. unfold AddOrder. destruct (validateOrder o); try reflexivity.
  now contradiction Hrej.
Qed.

End Validation.


(* ================================================================== *)
(** * The claims *)

(** C8. The 87-byte big-endian order codec is a bijection on its
    domain: re-encoding what any 87-byte payload decodes to gives the
    payload back, and decoding what any [Order] of Go's types encodes to
    gives the order back, all fourteen fields (the two signed ones
    included) and exactly 87 bytes. *)
Theorem order_codec_bijection (buf : list byte) (o : Order)
    (Hbuf : length buf = orderWireSize) (Ho : wf_Order o) :
  (exists o', unmarshalOrder buf = Some o' /\ wf_Order o' /\ marshalOrder o' = buf) /\
  (length (marshalOrder o) = orderWireSize /\ unmarshalOrder (marshalOrder o) = Some o).
Proof.
  split.
  - destruct (marshal_unmarshal buf Hbuf) as (o' & Hdec & Henc).
    exists o'. split; [exact Hdec|]. split; [|exact Henc].
    eapply unmarshalOrder_wf; exact Hdec.
  - split; [apply marshalOrder_length | apply unmarshal_marshal; exact Ho].
Qed.

Definition sample_order : Order :=
  {| ID := 7; SymbolID := 1; Type_ := OrderTypeTrailingStopLimit; Side := OrderSideSell;
     Price := 10000; StopPrice := 9900; Quantity := 100; ExecutedQuantity := 40;
     LeavesQuantity := 60; TimeInForce := 3; MaxVisible := MaxVisibleQuantity;
     Slippage := MaxSlippage; TrailingDistance := -250; TrailingStep := -1 |}.

Lemma sample_order_wf : wf_Order sample_order.
Proof.
  split; split; vm_compute; congruence.
Defined.

Lemma order_codec_bijection_witness :
  (exists o', unmarshalOrder (repeat xff 87) = Some o' /\ wf_Order o' /\
              marshalOrder o' = repeat xff 87) /\
  (length (marshalOrder sample_order) = orderWireSize /\
   unmarshalOrder (marshalOrder sample_order) = Some sample_order).
Proof.
  apply (order_codec_bijection (repeat xff 87) sample_order).
  - reflexivity.
  - exact sample_order_wf.
Defined.

(** C9. [ReadAll] returns every whole record in order. After the whole
    records: a tail that ends inside the 4-byte length prefix (or no tail)
    is tolerated, the records read so far come back with no error; a
    complete prefix whose length is below 9, a payload cut short after a
    complete prefix, and an unknown tag are errors, returned beside the
    records read so far. A missing file reads as no records. *)
Theorem ReadAll_records_and_tails (evs : list MatchingEvent)
    (Hwf : Forall wf_event evs) :
  let whole := journal_bytes (appended evs) in
  ReadAll None = ([], None) /\
  (forall tail : list byte, (length tail < 4)%nat ->
     ReadAll (Some (whole ++ tail)) = (stored <$> evs, None)) /\
  (forall lenBuf rest : list byte,
     length lenBuf = 4%nat -> Uint32 lenBuf < 9 ->
     ReadAll (Some (whole ++ lenBuf ++ rest))
     = (stored <$> evs, Some (ErrInvalidRecordLength (Uint32 lenBuf)))) /\
  (forall lenBuf rest : list byte,
     length lenBuf = 4%nat -> 9 <= Uint32 lenBuf ->
     (length rest < Z.to_nat (Uint32 lenBuf))%nat ->
     ReadAll (Some (whole ++ lenBuf ++ rest))
     = (stored <$> evs,
        Some (ErrReadingPayload (if (length rest =? 0)%nat then EOF else ErrUnexpectedEOF)))) /\
  (forall lenBuf payload rest : list byte,
     length lenBuf = 4%nat -> 9 <= Uint32 lenBuf ->
     length payload = Z.to_nat (Uint32 lenBuf) ->
     byte_to_Z (nth 0 payload x00) <> EventNewOrder ->
     byte_to_Z (nth 0 payload x00) <> EventCancelOrder ->
     ReadAll (Some (whole ++ lenBuf ++ payload ++ rest))
     = (stored <$> evs, Some (ErrUnknownEventType (byte_to_Z (nth 0 payload x00))))).
Proof.
  intros whole. subst whole. split; [reflexivity|]. repeat split.
  - intros tail Ht.
    destruct (ReadAll_records_then evs tail Hwf) as [fuel ->].
    cbn [ReadAll_loop]. rewrite decodeEvent_short_prefix by exact Ht.
    now destruct (length tail =? 0)%nat.
  - intros lenBuf rest Hl Hlt.
    destruct (ReadAll_records_then evs (lenBuf ++ rest) Hwf) as [fuel ->].
    cbn [ReadAll_loop]. now rewrite decodeEvent_bad_length.
  - intros lenBuf rest Hl Hge Hshort.
    destruct (ReadAll_records_then evs (lenBuf ++ rest) Hwf) as [fuel ->].
    cbn [ReadAll_loop]. now rewrite decodeEvent_short_payload.
  - intros lenBuf payload rest Hl Hge Hp Hn1 Hn2.
    destruct (ReadAll_records_then evs (lenBuf ++ payload ++ rest) Hwf) as [fuel ->].
    cbn [ReadAll_loop]. now rewrite decodeEvent_unknown_tag.
Qed.

Definition sample_events : list MatchingEvent :=
  [ {| ev_Type := EventNewOrder; ev_Timestamp := 500;
       ev_Order := sample_order; ev_OrderID := 0 |};
    {| ev_Type := EventCancelOrder; ev_Timestamp := 2000;
       ev_Order := zeroOrder; ev_OrderID := 7 |} ].

Lemma sample_events_wf : Forall wf_event sample_events.
Proof.
  constructor; [|constructor; [|constructor]].
  - split; [split; vm_compute; congruence|].
    left. split; [reflexivity | exact sample_order_wf].
  - split; [split; vm_compute; congruence|].
    right. split; [reflexivity | split; vm_compute; congruence].
Defined.

Lemma ReadAll_records_and_tails_witness :
  ReadAll (Some (journal_bytes (appended sample_events) ++ [x00; x00]))
  = (stored <$> sample_events, None).
Proof.
  apply (ReadAll_records_and_tails sample_events sample_events_wf). cbn. lia.
Defined.


(* ================================================================== *)
(** * Further properties of the code *)

(* ------------------------------------------------------------------ *)
(** ** The AVL tree of price levels *)

Lemma sample_tree_wf : tree_wf sample_tree.
Proof.
  split.
  - cbn. repeat split; lia.
  - cbn. repeat constructor; cbn; lia.
Defined.

Lemma sample_tree_fresh : 25 ∉ keys (root sample_tree).
Proof.
  cbn. intros H. repeat (apply elem_of_cons in H as [H|H]; [lia|]). inversion H.
Defined.

Lemma sample_tree_has : sample_level 30 ∈ inorder (root sample_tree).
Proof. cbn. do 2 right. left. Defined.

(** X1. [AVLTree.Insert] of a level whose price is not in a well-formed
    tree (balance factors right and within -1..1, prices strictly sorted
    in the tree's direction) returns a well-formed tree of the same
    direction, one larger, that holds the new level besides the old
    ones; [Find] then finds the new level at its price and answers as
    before at every other price. *)
Theorem AVL_Insert_spec (t : AVLTree) (ty p : Z)
    (Hwf : tree_wf t) (Hfresh : p ∉ keys (root t)) :
  exists t', Insert t (NewLevelNode ty p) = Some t' /\ tree_wf t' /\
    descending t' = descending t /\ tree_size t' = tree_size t + 1 /\
    (forall x, x ∈ inorder (root t') <->
       x = (NewLevel ty p, emptyOrderList) \/ x ∈ inorder (root t)) /\
    Find t' p = Some (NewLevel ty p, emptyOrderList) /\
    (forall q, q <> p -> Find t' q = Find t q).
Proof.
  destruct (Insert_spec t ty p Hwf Hfresh) as (t' & L & R & Hins & Hwf' & Hd & Hi & Hi' & _).
  assert (Hin : forall x, x ∈ inorder (root t') <->
            x = (NewLevel ty p, emptyOrderList) \/ x ∈ inorder (root t)).
  { intros x. rewrite Hi', Hi, !elem_of_app, elem_of_cons. tauto. }
  exists t'. split; [exact Hins|]. split; [exact Hwf'|]. split; [exact Hd|].
  split; [exact (Insert_size _ _ _ Hins)|]. split; [exact Hin|]. split.
  - apply (Find_iff t' p _ (wf_sorted _ Hwf')). split; [apply Hin; now left|reflexivity].
  - intros q Hq. apply Find_agree; [apply Hwf|apply Hwf'|].
    intros x Hx. rewrite Hin. split; [|tauto]. intros [->|H]; [|exact H].
    now contradiction Hq.
Qed.

Lemma AVL_Insert_spec_witness :
  exists t', Insert sample_tree (NewLevelNode LevelTypeAsk 25) = Some t' /\ tree_wf t' /\
    descending t' = descending sample_tree /\ tree_size t' = tree_size sample_tree + 1 /\
    (forall x, x ∈ inorder (root t') <->
       x = (NewLevel LevelTypeAsk 25, emptyOrderList) \/ x ∈ inorder (root sample_tree)) /\
    Find t' 25 = Some (NewLevel LevelTypeAsk 25, emptyOrderList) /\
    (forall q, q <> 25 -> Find t' q = Find sample_tree q).
Proof.
  exact (AVL_Insert_spec sample_tree LevelTypeAsk 25 sample_tree_wf sample_tree_fresh).
Defined.

(** X2. [AVLTree.Remove] of a level of a well-formed tree returns a
    well-formed tree of the same direction, one smaller, that holds the
    other levels unchanged (also when the node has two children and the
    successor's fields are copied into it); [Find] then finds nothing at
    the removed price and answers as before at every other price. *)
Theorem AVL_Remove_spec (t : AVLTree) (x : entry)
    (Hwf : tree_wf t) (Hx : x ∈ inorder (root t)) :
  exists t', Remove t (price_of x) = Some t' /\ tree_wf t' /\
    descending t' = descending t /\ tree_size t' = tree_size t - 1 /\
    (forall y, y ∈ inorder (root t') <->
       y ∈ inorder (root t) /\ price_of y <> price_of x) /\
    Find t' (price_of x) = None /\
    (forall q, q <> price_of x -> Find t' q = Find t q).
Proof.
  destruct (Remove_spec t x Hwf Hx) as (t' & L & R & Hrm & Hwf' & Hd & Hi & Hi').
  assert (Hnd : NoDup (price_of <$> (L ++ x :: R))).
  { rewrite <- Hi. eapply sorted_NoDup. apply (wf_sorted _ Hwf). }
  assert (Hin : forall y, y ∈ inorder (root t') <->
            y ∈ inorder (root t) /\ price_of y <> price_of x).
  { intros y. rewrite Hi', Hi. now apply middle_elem. }
  exists t'. split; [exact Hrm|]. split; [exact Hwf'|]. split; [exact Hd|].
  split; [exact (Remove_size _ _ _ Hrm)|]. split; [exact Hin|]. split.
  - apply (Find_None_iff t' _ (wf_sorted _ Hwf')). intros Hk.
    apply elem_of_keys in Hk as (y & Hy & Hp). apply Hin in Hy as [_ Hne]. contradiction.
  - intros q Hq. apply Find_agree; [apply Hwf|apply Hwf'|].
    intros y Hy. rewrite Hin. split; [tauto|]. intros H. split; [exact H|congruence].
Qed.

Lemma AVL_Remove_spec_witness :
  exists t', Remove sample_tree (price_of (sample_level 30)) = Some t' /\ tree_wf t' /\
    descending t' = descending sample_tree /\ tree_size t' = tree_size sample_tree - 1 /\
    (forall y, y ∈ inorder (root t') <->
       y ∈ inorder (root sample_tree) /\ price_of y <> price_of (sample_level 30)) /\
    Find t' (price_of (sample_level 30)) = None /\
    (forall q, q <> price_of (sample_level 30) -> Find t' q = Find sample_tree q).
Proof.
  exact (AVL_Remove_spec sample_tree (sample_level 30) sample_tree_wf sample_tree_has).
Defined.

(** X3. [AVLTree.Find] in a tree whose prices are sorted in its
    direction returns the level with the given price when the tree has
    one, and nil exactly when it has none. *)
Theorem AVL_Find_spec (t : AVLTree) (p : Z)
    (Hs : sorted (descending t) (keys (root t))) :
  (forall x, Find t p = Some x <-> x ∈ inorder (root t) /\ price_of x = p) /\
  (Find t p = None <-> p ∉ keys (root t)).
Proof.
  split; [intros x; now apply Find_iff|now apply Find_None_iff].
Qed.

Lemma AVL_Find_spec_witness :
  (forall x, Find sample_tree 40 = Some x <->
     x ∈ inorder (root sample_tree) /\ price_of x = 40) /\
  (Find sample_tree 40 = None <-> 40 ∉ keys (root sample_tree)).
Proof.
  exact (AVL_Find_spec sample_tree 40 (wf_sorted _ sample_tree_wf)).
Defined.

(** X4. [AVLTree.First] of a tree whose prices are sorted in its
    direction is nil exactly when the tree is empty, and otherwise the
    level with the highest price in a descending tree and the lowest in
    an ascending one. *)
Theorem AVL_First_spec (t : AVLTree)
    (Hs : sorted (descending t) (keys (root t))) :
  (First t = None <-> inorder (root t) = []) /\
  (forall x, First t = Some x ->
     x ∈ inorder (root t) /\
     forall y, y ∈ inorder (root t) ->
       if descending t then price_of y <= price_of x else price_of x <= price_of y).
Proof.
  unfold First. rewrite First_node_head. split.
  - apply head_None.
  - intros x Hh. split; [eapply head_Some_elem_of; exact Hh|].
    intros y Hy. destruct (head_first _ _ x y Hs Hh Hy) as [->|Hb].
    + destruct (descending t); lia.
    + unfold before in Hb. destruct (descending t); lia.
Qed.

Lemma AVL_First_spec_witness :
  (First sample_tree = None <-> inorder (root sample_tree) = []) /\
  (forall x, First sample_tree = Some x ->
     x ∈ inorder (root sample_tree) /\
     forall y, y ∈ inorder (root sample_tree) ->
       if descending sample_tree then price_of y <= price_of x
       else price_of x <= price_of y).
Proof.
  exact (AVL_First_spec sample_tree (wf_sorted _ sample_tree_wf)).
Defined.

(* ------------------------------------------------------------------ *)
(** ** The order book *)

Lemma sample_bid_level_in :
  sample_bid_level ∈ levels (index_of (node_Order sample_bid1_node)) sample_book.
Proof. vm_compute. left. Defined.

(** X5. [OrderBook.AddOrder] on a well-formed book (every index a
    well-formed tree of its direction, every best pointer on the first
    level of its index) returns a well-formed book in which the order is
    at the back of the list of the level at its routed price (the stop
    price for stop and trailing-stop orders, the price otherwise), that
    level created empty when there was none, with the order's leaves,
    hidden and visible quantities added to the level's volumes and one
    to its order count; the other levels, the other indexes and their
    best pointers are as before. *)
Theorem Book_AddOrder_spec (ob : OrderBook) (o : Order) (Hwf : book_wf ob) :
  exists ob' x0,
    OrderBook_AddOrder ob o = Some (ob', (index_of o, route_price o)) /\ book_wf ob' /\
    symbol ob' = symbol ob /\
    (forall j, j <> index_of o -> levels j ob' = levels j ob) /\
    (forall j, j <> index_of o -> best_of j ob' = best_of j ob) /\
    price_of x0 = route_price o /\
    (x0 ∈ levels (index_of o) ob \/
     (x0 = (NewLevel (if IsBuy o then LevelTypeBid else LevelTypeAsk) (route_price o),
            emptyOrderList) /\
      forall y, y ∈ levels (index_of o) ob -> price_of y <> route_price o)) /\
    (forall y, y ∈ levels (index_of o) ob' <->
       y = (add_volumes x0.1 (LeavesQuantity o) (HiddenQuantity o) (VisibleQuantity o) 1,
            PushBack x0.2 (ID o)) \/
       (y ∈ levels (index_of o) ob /\ price_of y <> route_price o)).
Proof.
  destruct (OrderBook_AddOrder_spec ob o Hwf) as (ob' & x0 & H). exists ob', x0. exact H.
Qed.

Lemma Book_AddOrder_spec_witness :
  exists ob' x0,
    OrderBook_AddOrder sample_book sample_ask
    = Some (ob', (index_of sample_ask, route_price sample_ask)) /\ book_wf ob' /\
    symbol ob' = symbol sample_book /\
    (forall j, j <> index_of sample_ask -> levels j ob' = levels j sample_book) /\
    (forall j, j <> index_of sample_ask -> best_of j ob' = best_of j sample_book) /\
    price_of x0 = route_price sample_ask /\
    (x0 ∈ levels (index_of sample_ask) sample_book \/
     (x0 = (NewLevel (if IsBuy sample_ask then LevelTypeBid else LevelTypeAsk)
              (route_price sample_ask), emptyOrderList) /\
      forall y, y ∈ levels (index_of sample_ask) sample_book ->
                price_of y <> route_price sample_ask)) /\
    (forall y, y ∈ levels (index_of sample_ask) ob' <->
       y = (add_volumes x0.1 (LeavesQuantity sample_ask) (HiddenQuantity sample_ask)
              (VisibleQuantity sample_ask) 1,
            PushBack x0.2 (ID sample_ask)) \/
       (y ∈ levels (index_of sample_ask) sample_book /\
        price_of y <> route_price sample_ask)).
Proof.
  exact (Book_AddOrder_spec sample_book sample_ask sample_book_wf).
Defined.

(** X6. [OrderBook.DeleteOrder] of an order whose level pointer leads to
    a level of a well-formed book returns a well-formed book: the order
    is unlinked from the level's list, its leaves, hidden and visible
    quantities are taken off the level's volumes and one off its order
    count, and the level itself is removed from its tree exactly when the
    list's [Size] has become 0 (the best pointer then moves to the next
    level); the other levels, the other indexes and their best pointers
    are as before. *)
Theorem Book_DeleteOrder_spec (ob : OrderBook) (n : OrderNode) (x : entry)
    (Hwf : book_wf ob)
    (HL : node_Level n = Some (index_of (node_Order n), price_of x))
    (Hx : x ∈ levels (index_of (node_Order n)) ob) :
  let o := node_Order n in
  let x' := (add_volumes x.1 (- LeavesQuantity o) (- HiddenQuantity o)
               (- VisibleQuantity o) (-1),
             OrderList_Remove x.2 (ID o)) in
  exists ob',
    OrderBook_DeleteOrder ob n = Some ob' /\ book_wf ob' /\
    symbol ob' = symbol ob /\
    (forall j, j <> index_of o -> levels j ob' = levels j ob) /\
    (forall j, j <> index_of o -> best_of j ob' = best_of j ob) /\
    (forall y, y ∈ levels (index_of o) ob' <->
       (y = x' /\ Size x'.2 <> 0) \/
       (y ∈ levels (index_of o) ob /\ price_of y <> price_of x)).
Proof.
  exact (OrderBook_DeleteOrder_spec ob n x Hwf HL Hx).
Qed.

Lemma Book_DeleteOrder_spec_witness :
  let o := node_Order sample_bid1_node in
  let x' := (add_volumes sample_bid_level.1 (- LeavesQuantity o) (- HiddenQuantity o)
               (- VisibleQuantity o) (-1),
             OrderList_Remove sample_bid_level.2 (ID o)) in
  exists ob',
    OrderBook_DeleteOrder sample_book sample_bid1_node = Some ob' /\ book_wf ob' /\
    symbol ob' = symbol sample_book /\
    (forall j, j <> index_of o -> levels j ob' = levels j sample_book) /\
    (forall j, j <> index_of o -> best_of j ob' = best_of j sample_book) /\
    (forall y, y ∈ levels (index_of o) ob' <->
       (y = x' /\ Size x'.2 <> 0) \/
       (y ∈ levels (index_of o) sample_book /\ price_of y <> price_of sample_bid_level)).
Proof.
  apply (Book_DeleteOrder_spec sample_book sample_bid1_node sample_bid_level).
  - exact sample_book_wf.
  - vm_compute. reflexivity.
  - exact sample_bid_level_in.
Defined.

(* ------------------------------------------------------------------ *)
(** ** The market manager: states reached from a new manager *)

(** X7. No sequence of fewer than 2^64 calls of the state-changing
    methods of [MarketManager] (the matching switches, [AddSymbol],
    [DeleteSymbol], [AddOrderBook], [DeleteOrderBook], [AddOrder],
    [ReduceOrder], [ModifyOrder], [MitigateOrder], [ReplaceOrder],
    [DeleteOrder], [ExecuteOrder], [ExecuteOrderWithPrice], [Match]), with
    any arguments, on a new manager panics: every call returns (no nil
    book, level or front order is dereferenced, and every matching loop
    ends), and the handler's trace only grows. *)
Theorem MarketManager_never_panics (ops : list Op)
    (Hlen : Z.of_nat (length ops) < 2 ^ 64) :
  exists m, run_ops ops NewMarketManager = Some m /\
    exists evs, handler m = handler NewMarketManager ++ evs.
Proof.
  destruct (run_ops_spec ops NewMarketManager Inv_new) as (m & Hrun & _ & _ & Ht & _).
  { cbn [NewMarketManager orders]. rewrite map_size_empty. lia. }
  exists m. auto.
Qed.

Lemma MarketManager_never_panics_witness :
  exists m, run_ops sample_ops NewMarketManager = Some m /\
    exists evs, handler m = handler NewMarketManager ++ evs.
Proof.
  apply (MarketManager_never_panics sample_ops). vm_compute. reflexivity.
Defined.

(** X8. In every state the operations reach from a new manager, an
    order found in the registry under [id] carries that ID, its book
    exists, its level pointer is the level of the index and price its
    type, side and prices route it to, that level is in the book's tree,
    and the level's list holds the order. *)
Theorem registered_order_is_on_its_level (ops : list Op) (m : MarketManager)
    (id : Z) (n : OrderNode)
    (Hlen : Z.of_nat (length ops) < 2 ^ 64)
    (Hrun : run_ops ops NewMarketManager = Some m)
    (Hn : orders m !! id = Some n) :
  let o := node_Order n in
  ID o = id /\
  node_Level n = Some (index_of o, route_price o) /\
  exists ob x, orderBooks m !! SymbolID o = Some ob /\
    deref ob (index_of o, route_price o) = Some x /\ id ∈ nodes x.2.
Proof.
  destruct (reachable_Inv ops m Hlen Hrun) as [HI _].
  destruct (inv_orders _ _ HI id n Hn) as (HID & HL & ob & x & Hb & Hx & Hp & Hin).
  split; [exact HID|]. split; [exact HL|]. exists ob, x. split; [exact Hb|].
  split; [|exact Hin]. rewrite <- Hp. apply deref_level; [|exact Hx].
  exact (inv_books _ _ HI _ _ Hb).
Qed.

Lemma registered_order_is_on_its_level_witness :
  let o := node_Order sample_bid1_node in
  ID o = 1 /\
  node_Level sample_bid1_node = Some (index_of o, route_price o) /\
  exists ob x, orderBooks sample_manager !! SymbolID o = Some ob /\
    deref ob (index_of o, route_price o) = Some x /\ 1 ∈ nodes x.2.
Proof.
  apply (registered_order_is_on_its_level sample_ops sample_manager 1 sample_bid1_node).
  - vm_compute. reflexivity.
  - vm_compute. reflexivity.
  - vm_compute. reflexivity.
Defined.

(** X9. In every state the operations reach from a new manager, every
    price level of every book has an order list that is not empty, holds
    no order twice, and has [Size] orders; every order of the list is
    registered, belongs to the book, and points back to the level. So a
    level exists exactly as long as an order rests at its price. *)
Theorem level_lists_registered_orders (ops : list Op) (m : MarketManager)
    (k : Z) (ob : OrderBook) (i : Index) (x : entry)
    (Hlen : Z.of_nat (length ops) < 2 ^ 64)
    (Hrun : run_ops ops NewMarketManager = Some m)
    (Hb : orderBooks m !! k = Some ob) (Hx : x ∈ levels i ob) :
  nodes x.2 <> [] /\ NoDup (nodes x.2) /\ Size x.2 = Z.of_nat (length (nodes x.2)) /\
  forall id, id ∈ nodes x.2 ->
    exists n, orders m !! id = Some n /\ node_Level n = Some (i, price_of x) /\
              SymbolID (node_Order n) = k.
Proof.
  destruct (reachable_Inv ops m Hlen Hrun) as [HI _].
  exact (inv_levels _ _ HI k ob i x Hb Hx).
Qed.

Lemma level_lists_registered_orders_witness :
  nodes sample_bid_level.2 <> [] /\ NoDup (nodes sample_bid_level.2) /\
  Size sample_bid_level.2 = Z.of_nat (length (nodes sample_bid_level.2)) /\
  forall id, id ∈ nodes sample_bid_level.2 ->
    exists n, orders sample_manager !! id = Some n /\
              node_Level n = Some (Bids, price_of sample_bid_level) /\
              SymbolID (node_Order n) = 1.
Proof.
  apply (level_lists_registered_orders sample_ops sample_manager 1 sample_book Bids
           sample_bid_level).
  - vm_compute. reflexivity.
  - vm_compute. reflexivity.
  - vm_compute. reflexivity.
  - vm_compute. left.
Defined.

(** X10. In every state the operations reach from a new manager, every
    index of every book is a balanced tree sorted in its direction, and
    its best pointer is nil exactly when the index has no level and
    otherwise points to the level of the extreme price: the highest for
    bids, sell stops and trailing sell stops, the lowest for asks, buy
    stops and trailing buy stops. *)
Theorem best_pointers_are_extremes (ops : list Op) (m : MarketManager)
    (k : Z) (ob : OrderBook) (i : Index)
    (Hlen : Z.of_nat (length ops) < 2 ^ 64)
    (Hrun : run_ops ops NewMarketManager = Some m)
    (Hb : orderBooks m !! k = Some ob) :
  tree_wf (tree_of i ob) /\ descending (tree_of i ob) = desc_of i /\
  (best_of i ob = None <-> levels i ob = []) /\
  (forall p, best_of i ob = Some p ->
     (exists x, deref ob (i, p) = Some x /\ x ∈ levels i ob) /\
     forall y, y ∈ levels i ob ->
       if desc_of i then price_of y <= p else p <= price_of y).
Proof.
  destruct (reachable_Inv ops m Hlen Hrun) as [HI _].
  pose proof (inv_books _ _ HI _ _ Hb) as Hwf.
  split; [apply Hwf|]. split; [apply Hwf|]. split.
  - rewrite (bw_best ob Hwf i).
    destruct (levels i ob); cbn [head fmap option_fmap option_map]; split; intros H;
      congruence.
  - intros p Hp. destruct (best_level ob i p Hwf Hp) as (x & Hh & Hx & Hpx).
    split; [exists x; split; [rewrite <- Hpx; now apply deref_level|exact Hx]|].
    intros y Hy. pose proof (wf_sorted _ (bw_tree ob Hwf i)) as Hs.
    rewrite (bw_desc ob Hwf i) in Hs.
    destruct (head_first _ _ x y Hs Hh Hy) as [->|Hbf].
    + destruct (desc_of i); lia.
    + unfold before in Hbf. destruct (desc_of i); lia.
Qed.

Lemma best_pointers_are_extremes_witness :
  tree_wf (tree_of Bids sample_book) /\
  descending (tree_of Bids sample_book) = desc_of Bids /\
  (best_of Bids sample_book = None <-> levels Bids sample_book = []) /\
  (forall p, best_of Bids sample_book = Some p ->
     (exists x, deref sample_book (Bids, p) = Some x /\ x ∈ levels Bids sample_book) /\
     forall y, y ∈ levels Bids sample_book ->
       if desc_of Bids then price_of y <= p else p <= price_of y).
Proof.
  apply (best_pointers_are_extremes sample_ops sample_manager 1 sample_book Bids).
  - vm_compute. reflexivity.
  - vm_compute. reflexivity.
  - vm_compute. reflexivity.
Defined.

(** X11. In every state the operations reach from a new manager, an
    operation that returns an error code has changed nothing: the
    symbols, the books, the registry, the matching switch and the
    handler's trace are what they were. *)
Theorem error_leaves_state_unchanged (ops : list Op) (m : MarketManager)
    (op : Op) (code : ErrorCode) (m' : MarketManager)
    (Hlen : Z.of_nat (length ops) + 1 < 2 ^ 64)
    (Hrun : run_ops ops NewMarketManager = Some m)
    (Hop : run_op op m = Some (code, m'))
    (Herr : code <> ErrorOK) :
  m' = m.
Proof.
  destruct (reachable_Inv ops m ltac:(lia) Hrun) as [HI Hsz].
  destruct (run_op_spec op m HI ltac:(lia)) as (code' & m'' & Hop' & Hok & _).
  rewrite Hop in Hop'. injection Hop' as <- <-. exact (ok_error _ _ _ Hok Herr).
Qed.

Lemma error_leaves_state_unchanged_witness :
  default sample_manager (snd <$> run_op (OpAddOrder sample_bid1) sample_manager)
  = sample_manager.
Proof.
  apply (error_leaves_state_unchanged sample_ops sample_manager (OpAddOrder sample_bid1)
           ErrorOrderDuplicate).
  - vm_compute. reflexivity.
  - vm_compute. reflexivity.
  - vm_compute. reflexivity.
  - discriminate.
Defined.

(** X12. In every state the operations reach from a new manager,
    [Match] on the symbol of an existing book returns [ErrorOK] after a
    loop that ends, whether matching is switched on or not; it leaves
    that book uncrossed (best bid below best ask when both sides have
    levels), creates no price level, and leaves the symbols, the other
    books and the matching switch alone. *)
Theorem Match_uncrosses_book (ops : list Op) (m : MarketManager)
    (k : Z) (ob : OrderBook)
    (Hlen : Z.of_nat (length ops) < 2 ^ 64)
    (Hrun : run_ops ops NewMarketManager = Some m)
    (Hb : orderBooks m !! k = Some ob) :
  exists m' ob', Match k m = Some (ErrorOK, m') /\
    orderBooks m' !! k = Some ob' /\ uncrossed ob' /\ shrunk ob ob' /\
    symbols m' = symbols m /\ matching m' = matching m /\
    forall k', k' <> k -> orderBooks m' !! k' = orderBooks m !! k'.
Proof.
  destruct (reachable_Inv ops m Hlen Hrun) as [HI _].
  destruct (match_spec k m ob HI Hb) as (m' & ob' & Hm & _ & Ht & Hb' & Hun & Hsh & _).
  exists m', ob'. unfold Match. rewrite Hb, Hm. split; [reflexivity|].
  split; [exact Hb'|]. split; [exact Hun|]. split; [exact Hsh|].
  split; [exact (tb_symbols _ _ _ Ht)|]. split; [exact (tb_matching _ _ _ Ht)|].
  exact (tb_books _ _ _ Ht).
Qed.

Lemma Match_uncrosses_book_witness :
  exists m' ob', Match 1 sample_manager = Some (ErrorOK, m') /\
    orderBooks m' !! 1 = Some ob' /\ uncrossed ob' /\ shrunk sample_book ob' /\
    symbols m' = symbols sample_manager /\ matching m' = matching sample_manager /\
    forall k', k' <> 1 -> orderBooks m' !! k' = orderBooks sample_manager !! k'.
Proof.
  apply (Match_uncrosses_book sample_ops sample_manager 1 sample_book).
  - vm_compute. reflexivity.
  - vm_compute. reflexivity.
  - vm_compute. reflexivity.
Defined.

(* ------------------------------------------------------------------ *)
(** ** The market manager: how operations compose *)

(** X13. [ReplaceOrder] of a registered order by an ID that is not
    registered, when the replacement (the old order with the new ID, the
    new price, the new quantity as quantity and as leaves, and nothing
    executed) passes [validateOrder], is [DeleteOrder] of the old order
    followed by [AddOrder] of the replacement: the same return, the same
    final state, the same handler trace (a panic of one is a panic of
    the other). *)
Theorem ReplaceOrder_is_delete_then_add (id newID newPrice newQuantity : Z)
    (m : MarketManager) (n : OrderNode)
    (Hn : orders m !! id = Some n) (Hnew : orders m !! newID = None)
    (Hv : validateOrder (replacement (node_Order n) newID newPrice newQuantity) = ErrorOK) :
  ReplaceOrder id newID newPrice newQuantity m
  = ('(_, m1) ← DeleteOrder id m;
     AddOrder (replacement (node_Order n) newID newPrice newQuantity) m1).
Proof.
  set (o' := replacement (node_Order n) newID newPrice newQuantity) in *.
  assert (Hq : (newQuantity =? 0) = false).
  { unfold validateOrder in Hv. change (ID o') with newID in Hv.
    change (Quantity o') with newQuantity in Hv.
    destruct (newID =? 0); [discriminate|]. destruct (newQuantity =? 0); [discriminate|].
    reflexivity. }
  unfold ReplaceOrder, DeleteOrder. rewrite Hn, Hq, Hnew.
  destruct (orderBooks m !! SymbolID (node_Order n)) as [ob|] eqn:Hb; [|reflexivity].
  cbn [mbind option_bind].
  destruct (updateLevel (SymbolID (node_Order n)) n UpdateDelete m) as [m1|] eqn:Hu;
    [|reflexivity].
  destruct (updateLevel_fields _ _ _ _ _ Hu) as (_ & Hbs & Hos & _).
  cbn [mbind option_bind].
  destruct (OrderBook_DeleteOrder ob n) as [ob1|]; [|reflexivity].
  cbn [mbind option_bind]. fold o'. unfold AddOrder. rewrite Hv.
  change (ID o') with newID. change (SymbolID o') with (SymbolID (node_Order n)).
  cbn [orders orderBooks emit set_orders set_book set_orderBooks].
  rewrite Hos, (proj2 (lookup_delete_None (orders m) id newID)) by (now right).
  rewrite lookup_insert_eq. reflexivity.
Qed.

Lemma ReplaceOrder_is_delete_then_add_witness :
  ReplaceOrder 2 9 101 4 sample_manager
  = ('(_, m1) ← DeleteOrder 2 sample_manager;
     AddOrder (replacement (node_Order {| node_Order := sample_bid2;
                                          node_Level := Some (Bids, 100) |}) 9 101 4) m1).
Proof.
  apply (ReplaceOrder_is_delete_then_add 2 9 101 4 sample_manager
           {| node_Order := sample_bid2; node_Level := Some (Bids, 100) |}).
  - vm_compute. reflexivity.
  - vm_compute. reflexivity.
  - vm_compute. reflexivity.
Defined.

(** X14. With matching switched off, in every state the operations
    reach from a new manager, [AddOrder] of an order that passes
    [validateOrder], whose ID is not registered and whose book exists
    returns [ErrorOK]; the order is registered as the caller gave it,
    pointing to the level of its routed price; in the book it is at the
    back of that level's list, behind the orders that were there, with
    its quantities added to the level's volumes; and the handler gets
    [OnAddOrder], then [OnAddLevel] with the level after the insertion
    (also when the level existed before), then [OnUpdateOrderBook]. *)
Theorem AddOrder_queues_at_back (ops : list Op) (m : MarketManager)
    (o : Order) (ob : OrderBook)
    (Hlen : Z.of_nat (length ops) + 1 < 2 ^ 64)
    (Hrun : run_ops ops NewMarketManager = Some m)
    (Hoff : matching m = false)
    (Hv : validateOrder o = ErrorOK)
    (Hfresh : orders m !! ID o = None)
    (Hb : orderBooks m !! SymbolID o = Some ob) :
  let ref := (index_of o, route_price o) in
  let x0 := default (NewLevel (if IsBuy o then LevelTypeBid else LevelTypeAsk)
                       (route_price o), emptyOrderList) (deref ob ref) in
  let lv := add_volumes x0.1 (LeavesQuantity o) (HiddenQuantity o) (VisibleQuantity o) 1 in
  exists m' ob',
    AddOrder o m = Some (ErrorOK, m') /\
    orders m' = <[ID o := {| node_Order := o; node_Level := Some ref |}]> (orders m) /\
    orderBooks m' = <[SymbolID o := ob']> (orderBooks m) /\
    deref ob' ref = Some (lv, PushBack x0.2 (ID o)) /\
    symbols m' = symbols m /\ matching m' = false /\
    handler m' = handler m ++ [OnAddOrder o;
                               OnAddLevel (SymbolID o) lv (top_of ob' o ref);
                               OnUpdateOrderBook (SymbolID o) (top_of ob' o ref)].
Proof.
  intros ref x0 lv.
  destruct (reachable_Inv ops m ltac:(lia) Hrun) as [HI Hsz].
  destruct (link_spec (orderBooks m) (orders m) o ob m (OnAddOrder o) HI ltac:(lia)
              Hfresh Hb ltac:(reflexivity) ltac:(reflexivity))
    as (ob' & x & m1 & Hadd & Em1 & Hlink & HI1 & Hb1 & Ho1 & Hx & Hp & Hup).
  destruct (OrderBook_AddOrder_level ob o (inv_books _ _ HI _ _ Hb)) as (ob'' & Hadd' & Hd).
  rewrite Hadd in Hadd'. injection Hadd' as <-. fold ref x0 lv in Hd.
  assert (Ex : x = (lv, PushBack x0.2 (ID o))).
  { pose proof (deref_level ob' _ x (inv_books _ _ HI1 _ _ Hb1) Hx) as Hd'.
    rewrite Hp in Hd'. fold ref in Hd'. rewrite Hd in Hd'. now injection Hd' as <-. }
  exists (emits [OnAddOrder o; OnAddLevel (SymbolID o) lv (top_of ob' o ref);
                 OnUpdateOrderBook (SymbolID o) (top_of ob' o ref)] m1), ob'.
  split.
  - unfold AddOrder. rewrite Hv, Hfresh, Hb, Hlink. cbn [mbind option_bind].
    rewrite Hup. cbn [mbind option_bind]. unfold match_if_enabled.
    rewrite Ex. cbn [fst level_events app].
    replace (matching _) with false by (rewrite Em1; symmetry; exact Hoff).
    reflexivity.
  - rewrite Em1. cbn [orders orderBooks symbols matching handler emits set_order set_book
                      set_orders set_orderBooks node_Order].
    repeat split; first [reflexivity|exact Hd|exact Hoff].
Qed.

Lemma AddOrder_queues_at_back_witness :
  let o := NewLimitOrder 4 1 OrderSideBuy 100 3 in
  let ref := (index_of o, route_price o) in
  let x0 := default (NewLevel (if IsBuy o then LevelTypeBid else LevelTypeAsk)
                       (route_price o), emptyOrderList) (deref sample_book ref) in
  let lv := add_volumes x0.1 (LeavesQuantity o) (HiddenQuantity o) (VisibleQuantity o) 1 in
  exists m' ob',
    AddOrder o sample_manager = Some (ErrorOK, m') /\
    orders m' = <[ID o := {| node_Order := o; node_Level := Some ref |}]>
                  (orders sample_manager) /\
    orderBooks m' = <[SymbolID o := ob']> (orderBooks sample_manager) /\
    deref ob' ref = Some (lv, PushBack x0.2 (ID o)) /\
    symbols m' = symbols sample_manager /\ matching m' = false /\
    handler m' = handler sample_manager ++
                 [OnAddOrder o; OnAddLevel (SymbolID o) lv (top_of ob' o ref);
                  OnUpdateOrderBook (SymbolID o) (top_of ob' o ref)].
Proof.
  apply (AddOrder_queues_at_back sample_ops sample_manager
           (NewLimitOrder 4 1 OrderSideBuy 100 3) sample_book).
  - vm_compute. reflexivity.
  - vm_compute. reflexivity.
  - vm_compute. reflexivity.
  - vm_compute. reflexivity.
  - vm_compute. reflexivity.
  - vm_compute. reflexivity.
Defined.

(** X15. In every state the operations reach from a new manager,
    [ExecuteOrderWithPrice] on a registered order with leaves L returns
    [ErrorOrderQuantityInvalid] and changes nothing when the quantity is
    0 or above L; otherwise it returns [ErrorOK], adds the quantity to
    the order's executed quantity and takes it off its leaves, dispatches
    [OnExecuteOrder] with the updated order, the given price and the
    quantity first, removes the order from the registry exactly when its
    leaves have become 0 and leaves every other registered order, the
    symbols, the other books and the matching switch as they were.
    [ExecuteOrder] is the same call at the order's own price. *)
Theorem ExecuteOrderWithPrice_spec (ops : list Op) (m : MarketManager)
    (id price q : Z) (n : OrderNode)
    (Hlen : Z.of_nat (length ops) < 2 ^ 64)
    (Hrun : run_ops ops NewMarketManager = Some m)
    (Hn : orders m !! id = Some n) :
  let o := node_Order n in
  let o' := set_quantities o (Price o) (Quantity o)
              (u64 (ExecutedQuantity o + q)) (u64 (LeavesQuantity o - q)) in
  ExecuteOrder id q m = ExecuteOrderWithPrice id (Price o) q m /\
  (q = 0 \/ LeavesQuantity o < q ->
   ExecuteOrderWithPrice id price q m = Some (ErrorOrderQuantityInvalid, m)) /\
  (q <> 0 -> q <= LeavesQuantity o ->
   exists m', ExecuteOrderWithPrice id price q m = Some (ErrorOK, m') /\
     orders m' = (if LeavesQuantity o' =? 0 then delete id (orders m)
                  else <[id := with_Order n o']> (orders m)) /\
     (exists evs, handler m' = handler m ++ OnExecuteOrder o' price q :: evs) /\
     symbols m' = symbols m /\ matching m' = matching m /\
     forall k, k <> SymbolID o -> orderBooks m' !! k = orderBooks m !! k).
Proof.
  intros o o'. destruct (reachable_Inv ops m Hlen Hrun) as [HI _].
  split; [|split].
  - unfold ExecuteOrder, ExecuteOrderWithPrice. now rewrite Hn.
  - intros Hq. unfold ExecuteOrderWithPrice. rewrite Hn. fold o.
    replace ((q =? 0) || (q >? LeavesQuantity o)) with true; [reflexivity|].
    symmetry. apply orb_true_iff. destruct Hq as [->|Hq]; [now left|right].
    apply Z.gtb_lt. lia.
  - intros Hq Hle. unfold ExecuteOrderWithPrice. rewrite Hn. fold o.
    replace ((q =? 0) || (q >? LeavesQuantity o)) with false.
    + destruct (executeOrder_spec id price q m n HI Hn)
        as (m' & ob & ob' & He & _ & Ht & _ & _ & _ & Ho & Hev).
      exists m'. split; [exact He|]. split; [exact Ho|]. split; [exact Hev|].
      split; [exact (tb_symbols _ _ _ Ht)|]. split; [exact (tb_matching _ _ _ Ht)|].
      exact (tb_books _ _ _ Ht).
    + symmetry. apply orb_false_iff. split; [now apply Z.eqb_neq|].
      destruct (Z.gtb_spec q (LeavesQuantity o)); [lia|reflexivity].
Qed.

Lemma ExecuteOrderWithPrice_spec_witness :
  let o := node_Order sample_bid1_node in
  let o' := set_quantities o (Price o) (Quantity o)
              (u64 (ExecutedQuantity o + 4)) (u64 (LeavesQuantity o - 4)) in
  ExecuteOrder 1 4 sample_manager = ExecuteOrderWithPrice 1 (Price o) 4 sample_manager /\
  (4 = 0 \/ LeavesQuantity o < 4 ->
   ExecuteOrderWithPrice 1 99 4 sample_manager
   = Some (ErrorOrderQuantityInvalid, sample_manager)) /\
  (4 <> 0 -> 4 <= LeavesQuantity o ->
   exists m', ExecuteOrderWithPrice 1 99 4 sample_manager = Some (ErrorOK, m') /\
     orders m' = (if LeavesQuantity o' =? 0 then delete 1 (orders sample_manager)
                  else <[1 := with_Order sample_bid1_node o']> (orders sample_manager)) /\
     (exists evs, handler m' = handler sample_manager ++ OnExecuteOrder o' 99 4 :: evs) /\
     symbols m' = symbols sample_manager /\ matching m' = matching sample_manager /\
     forall k, k <> SymbolID o ->
       orderBooks m' !! k = orderBooks sample_manager !! k).
Proof.
  apply (ExecuteOrderWithPrice_spec sample_ops sample_manager 1 99 4 sample_bid1_node).
  - vm_compute. reflexivity.
  - vm_compute. reflexivity.
  - vm_compute. reflexivity.
Defined.

(** X16. In every state the operations reach from a new manager,
    [DeleteOrderBook] of an existing book returns [ErrorOK], removes the
    book and every registered order of its symbol (each through
    [DeleteOrder]), keeps every other registered order, every other book
    and the symbols, and dispatches [OnDeleteOrderBook] last. *)
Theorem DeleteOrderBook_spec (ops : list Op) (m : MarketManager) (id : Z) (ob : OrderBook)
    (Hlen : Z.of_nat (length ops) < 2 ^ 64)
    (Hrun : run_ops ops NewMarketManager = Some m)
    (Hb : orderBooks m !! id = Some ob) :
  exists m', DeleteOrderBook id m = Some (ErrorOK, m') /\
    orderBooks m' !! id = None /\
    (forall k, k <> id -> orderBooks m' !! k = orderBooks m !! k) /\
    (forall k n, orders m' !! k = Some n <->
       orders m !! k = Some n /\ SymbolID (node_Order n) <> id) /\
    symbols m' = symbols m /\ matching m' = matching m /\
    exists evs, handler m' = handler m ++ evs ++ [OnDeleteOrderBook id].
Proof.
  destruct (reachable_Inv ops m Hlen Hrun) as [HI _].
  destruct (DeleteOrderBook_ok id m HI)
    as (code & m' & Hd & _ & Hmat & Hsym & _ & H1 & H2).
  assert (Hcode : code = ErrorOK).
  { unfold DeleteOrderBook in Hd. rewrite Hb in Hd.
    destruct (foldl _ _ _); [|discriminate]. cbn [mbind option_bind] in Hd. congruence. }
  subst code. destruct (H1 eq_refl) as [Hnone Hleft].
  destruct (H2 eq_refl) as (Hother & Hkept & Hev).
  exists m'. split; [exact Hd|]. split; [exact Hnone|]. split; [exact Hother|].
  split; [|auto]. intros k n. split; [apply Hleft|]. intros [Hn Hne]. now apply Hkept.
Qed.

Lemma DeleteOrderBook_spec_witness :
  exists m', DeleteOrderBook 1 sample_manager = Some (ErrorOK, m') /\
    orderBooks m' !! 1 = None /\
    (forall k, k <> 1 -> orderBooks m' !! k = orderBooks sample_manager !! k) /\
    (forall k n, orders m' !! k = Some n <->
       orders sample_manager !! k = Some n /\ SymbolID (node_Order n) <> 1) /\
    symbols m' = symbols sample_manager /\ matching m' = matching sample_manager /\
    exists evs, handler m' = handler sample_manager ++ evs ++ [OnDeleteOrderBook 1].
Proof.
  apply (DeleteOrderBook_spec sample_ops sample_manager 1 sample_book).
  - vm_compute. reflexivity.
  - vm_compute. reflexivity.
  - vm_compute. reflexivity.
Defined.

(* ------------------------------------------------------------------ *)
(** ** Snapshots and recovery *)

(** X17. [readSnapshot] reads back what [writeSnapshot] wrote for a
    snapshot the format has room for (an [int64] timestamp, [uint32]
    symbol IDs, orders of Go's types, fewer than 2^32 symbols and
    orders): the timestamp, the symbols in order with names cut to their
    first 255 bytes, and the orders in order with all their fields.
    Bytes after the last order are not looked at. *)
Theorem snapshot_codec_roundtrip (snap : Snapshot) (rest : list byte)
    (Hwf : wf_Snapshot snap) :
  readSnapshot (writeSnapshot snap ++ rest) = inr (stored_snapshot snap) /\
  (Forall (fun s => (length (Symbol_Name s) <= 255)%nat) (snap_Symbols snap) ->
   stored_snapshot snap = snap).
Proof.
  split; [exact (readSnapshot_written snap rest Hwf)|]. clear Hwf.
  intros Hshort. destruct snap as [ts syms ords]. unfold stored_snapshot.
  cbn [snap_Timestamp snap_Symbols snap_Orders] in *. f_equal.
  induction Hshort as [|s syms Hs _ IH]; [reflexivity|].
  cbn [fmap list_fmap]. f_equal; [|exact IH].
  destruct s as [id name]. unfold stored_symbol. cbn [Symbol_ID Symbol_Name] in *.
  f_equal. apply firstn_all2. exact Hs.
Qed.

Lemma snapshot_codec_roundtrip_witness :
  readSnapshot (writeSnapshot sample_snapshot ++ [x00; xff])
  = inr (stored_snapshot sample_snapshot) /\
  (Forall (fun s => (length (Symbol_Name s) <= 255)%nat) (snap_Symbols sample_snapshot) ->
   stored_snapshot sample_snapshot = sample_snapshot).
Proof.
  exact (snapshot_codec_roundtrip sample_snapshot [x00; xff] sample_snapshot_wf).
Defined.

(** X18. [readSnapshot] rejects every stream whose first eight bytes
    are not the magic [GTSNAP\0\1], shorter streams included. *)
Theorem readSnapshot_rejects_foreign_files (r : list byte)
    (Hmagic : firstn 8 r <> snapshotMagic) :
  exists e, readSnapshot r = inl e.
Proof. exact (readSnapshot_bad_magic r Hmagic). Qed.

Lemma readSnapshot_rejects_foreign_files_witness :
  exists e, readSnapshot [x47; x54; x53] = inl e.
Proof.
  apply (readSnapshot_rejects_foreign_files [x47; x54; x53]). vm_compute. congruence.
Defined.

(** X19. After [Snapshotter.Save] of a snapshot the format has room
    for, whose timestamp is not below that of any snapshot file already
    in the directory, [LoadLatest] returns that snapshot (names cut to
    255 bytes), for any compression whose decoder inverts its encoder;
    and [LoadLatest] on a directory without snapshot files returns nil
    and no error. *)
Theorem LoadLatest_returns_saved
    (zstd_encode : list byte -> list byte) (zstd_decode : list byte -> option (list byte))
    (snap : Snapshot) (dir : gmap Z (list byte))
    (Hzstd : forall b, zstd_decode (zstd_encode b) = Some b)
    (Hwf : wf_Snapshot snap)
    (Hnewest : forall ts, is_Some (dir !! ts) -> ts <= snap_Timestamp snap) :
  LoadLatest zstd_decode (Save zstd_encode snap dir) = inr (Some (stored_snapshot snap)) /\
  LoadLatest zstd_decode ∅ = inr None.
Proof.
  split; [now apply LoadLatest_Save|reflexivity].
Qed.

Lemma LoadLatest_returns_saved_witness :
  LoadLatest Some (Save (fun b => b) sample_snapshot ∅)
  = inr (Some (stored_snapshot sample_snapshot)) /\
  LoadLatest Some ∅ = inr None.
Proof.
  apply (LoadLatest_returns_saved (fun b => b) Some sample_snapshot ∅).
  - reflexivity.
  - exact sample_snapshot_wf.
  - intros ts [v Hv]. rewrite lookup_empty in Hv. discriminate.
Defined.


(** X21. A command [Manager.AddOrder] journals and the engine then
    rejects in [validateOrder] (ID 0, quantity 0, or a missing price
    parameter) stays in the journal, and breaks recovery: with the
    manager's journal empty before the call, the call returns the
    engine's error with the engine unchanged and the record appended,
    and [Recover] from that journal, without a snapshot and on any
    engine state, stops at the record with the same error. *)
Theorem rejected_command_breaks_recovery
    (zstd_decode : list byte -> option (list byte))
    (now : Z) (o : Order) (m m0 : MarketManager)
    (Hnow : is_i64 now) (Hpos : 0 < now) (Ho : wf_Order o)
    (Hrej : validateOrder o <> ErrorOK) :
  let mgr := {| mm := m; journal := {| journal_bytes := [] |} |} in
  let j := {| journal_bytes := record_of (new_order_event now o) |} in
  Manager_AddOrder now true o mgr
  = Some (Some (ErrEngine (validateOrder o)), {| mm := m; journal := j |}) /\
  Recover zstd_decode m0 (Some (journal_bytes j)) ∅
  = Some (Some (ErrEngine (validateOrder o)), m0).
Proof.
  intros mgr j.
  assert (Hwf : wf_event (new_order_event now o)).
  { split; [exact Hnow|]. left. split; [reflexivity|exact Ho]. }
  split.
  - unfold Manager_AddOrder. fold (new_order_event now o).
    rewrite (Append_ok _ _ Hwf). cbn [mm journal journal_bytes app mgr].
    rewrite (AddOrder_rejected o m Hrej). cbn [mbind option_bind].
    destruct (validateOrder o); try reflexivity. now contradiction Hrej.
  - pose proof (ReadAll_appended [new_order_event now o]
                  ltac:(constructor; [exact Hwf|constructor])) as Hread.
    unfold appended in Hread. cbn [fold_left] in Hread.
    rewrite (Append_ok _ _ Hwf) in Hread. cbn [snd journal_bytes app] in Hread.
    unfold Recover. change (LoadLatest zstd_decode ∅) with
      (inr None : GoError + option Snapshot). cbn [mbind option_bind journal_bytes j].
    rewrite Hread. cbn [fmap list_fmap replay].
    change (ev_Timestamp (stored (new_order_event now o))) with now.
    destruct (Z.leb_spec now 0) as [Hle|_]; [lia|].
    unfold applyEvent. change (ev_Type (stored (new_order_event now o))) with EventNewOrder.
    change (EventNewOrder =? EventNewOrder) with true. cbn iota.
    change (ev_Order (stored (new_order_event now o))) with o.
    rewrite (AddOrder_rejected o m0 Hrej). cbn [mbind option_bind].
    destruct (validateOrder_codes o) as [E|[E|[E|E]]]; rewrite E in *;
      [now contradiction Hrej|reflexivity..].
Qed.

Lemma rejected_command_breaks_recovery_witness :
  let mgr := {| mm := sample_manager; journal := {| journal_bytes := [] |} |} in
  let j := {| journal_bytes := record_of (new_order_event 1000 sample_rejected) |} in
  Manager_AddOrder 1000 true sample_rejected mgr
  = Some (Some (ErrEngine (validateOrder sample_rejected)),
          {| mm := sample_manager; journal := j |}) /\
  Recover Some sample_manager (Some (journal_bytes j)) ∅
  = Some (Some (ErrEngine (validateOrder sample_rejected)), sample_manager).
Proof.
  apply (rejected_command_breaks_recovery Some 1000 sample_rejected
           sample_manager sample_manager).
  - vm_compute. split; congruence.
  - reflexivity.
  - split; vm_compute; split; congruence.
  - vm_compute. discriminate.
Defined.

